(** * Single-sided LP backtest (analytics/backtest_lp.py): model and properties

    The development embeds the simulation engine of [backtest_lp.py]:
    the price model ([usd_per_eth_from_tick], [sqrt_ratio_from_tick],
    [align_ticks_for_range], [L_from_amounts_single_side],
    [amounts_at_price]), the per-event loop of [backtest_lp] with its
    nested [close_position], the end-of-data pass, and the grid search of
    [main].

    Conventions.
    - Python [int] is [Z]; [//] on a positive divisor is [Z.div].
    - Python [float] is idealised as a real number ([R]): no rounding, no
      overflow, no NaN.  A missing [liquidity] cell (NaN in the data frame)
      is [None].
    - Python exceptions are values of [exn]; fallible code lives in the
      [result] monad.  Float division by zero raises [ZeroDivisionError],
      a failed dict subscript raises [KeyError], [int()] on a malformed
      string and [math.log] outside its domain raise [ValueError], unpacking
      [None] raises [TypeError].
    - A Python [dict] is an association list in insertion order
      ([list(d.values())] is order sensitive, and trade records are written
      out column by column).
    - [print] calls and the heartbeat have no effect on the result and are
      left out. *)

From Stdlib Require Import Reals Lra Lia ZArith List String Ascii Bool.
From Stdlib Require Import Sorted Permutation.
Import ListNotations.

Open Scope string_scope.
Open Scope Z_scope.

(* ------------------------------------------------------------------ *)
(** ** Exceptions *)

Inductive exn : Type := KeyError | ValueError | ZeroDivisionError | TypeError.

Inductive result (A : Type) : Type :=
| Ok (a : A)
| Raise (e : exn).

Arguments Ok {A} a.
Arguments Raise {A} e.

Definition bind {A B : Type} (c : result A) (k : A -> result B) : result B :=
  match c with
  | Ok a => k a
  | Raise e => Raise e
  end.

Notation "x <- c ;; k" := (bind c (fun x => k))
  (at level 61, c at next level, right associativity).
Notation "' p <- c ;; k" := (bind c (fun x => let 'p := x in k))
  (at level 61, p pattern, c at next level, right associativity).

Definition is_ok {A : Type} (c : result A) : Prop :=
  match c with Ok _ => True | Raise _ => False end.

(* ------------------------------------------------------------------ *)
(** ** Floats as reals *)

Definition float_lt (x y : R) : bool := if Rlt_dec x y then true else false.
Definition float_le (x y : R) : bool := if Rle_dec x y then true else false.
Definition float_gt (x y : R) : bool := float_lt y x.
Definition float_ge (x y : R) : bool := float_le y x.

(** [x / y] on Python floats. *)
Definition py_div (x y : R) : result R :=
  if Req_dec_T y 0 then Raise ZeroDivisionError else Ok (x / y)%R.

(** [math.log(x)]. *)
Definition math_log (x : R) : result R :=
  if Rlt_dec 0 x then Ok (ln x) else Raise ValueError.

(** [math.ceil(x)]. *)
Definition math_ceil (x : R) : Z := Zceil x.

(* ------------------------------------------------------------------ *)
(** ** Dictionaries *)

Section Dict.
Context {K V : Type} (eqb : K -> K -> bool).

(** [d.get(k)] *)
Fixpoint dict_get (d : list (K * V)) (k : K) : option V :=
  match d with
  | [] => None
  | (k', v) :: d' => if eqb k' k then Some v else dict_get d' k
  end.

(** [d[k] = v]: an existing key keeps its place. *)
Fixpoint dict_set (d : list (K * V)) (k : K) (v : V) : list (K * V) :=
  match d with
  | [] => [(k, v)]
  | (k', v') :: d' =>
      if eqb k' k then (k', v) :: d' else (k', v') :: dict_set d' k v
  end.

(** [d[k]] *)
Definition dict_lookup (d : list (K * V)) (k : K) : result V :=
  match dict_get d k with
  | Some v => Ok v
  | None => Raise KeyError
  end.

(** [d.get(k, dflt)], also the read of a [defaultdict]. *)
Definition dict_get_default (d : list (K * V)) (k : K) (dflt : V) : V :=
  match dict_get d k with
  | Some v => v
  | None => dflt
  end.

Definition dict_values (d : list (K * V)) : list V := map snd d.
End Dict.

(* ------------------------------------------------------------------ *)
(** ** Constants *)

Definition CAPITAL_LIMIT_USD : R := 20000.
Definition POSITION_SIZE_USD : R := 1000.
Definition SL_PCT : R := 0.02.
Definition MIN_POOLS_FOR_REF : nat := 3.

Definition Z_CANDIDATES : list R := [1.25; 1.5; 1.75; 2.0; 2.5]%R.
Definition WINDOW_MINUTES : list Z := [5; 10; 15].
Definition RANGE_PCT_CAND : list R := [0.0005; 0.0010]%R.

Definition FEE_TIER_MAP : list (Z * R) :=
  [(100, 0.0001%R); (500, 0.0005%R); (1000, 0.0010%R); (3000, 0.0030%R)].
Definition TICK_SPACING_MAP : list (Z * Z) :=
  [(100, 1); (500, 10); (1000, 20); (3000, 60)].

(* ------------------------------------------------------------------ *)
(** ** Price model *)

(** [math.log(1.0001)]: the argument is a positive literal. *)
Definition LOG_1_0001 : R := ln 1.0001.

Definition usd_per_eth_from_tick (tick : Z) : R :=
  exp (- IZR tick * LOG_1_0001).

Definition sqrt_ratio_from_tick (tick : Z) : R :=
  Rpower 1.0001 (IZR tick / 2.0).

Definition align_ticks_for_range
    (entry_tick fee : Z) (target_pct : R) (direction : string)
  : result (Z * Z) :=
  spacing <- dict_lookup Z.eqb TICK_SPACING_MAP fee ;;
  lg <- math_log (1.0 + target_pct) ;;
  q <- py_div lg LOG_1_0001 ;;
  let width := math_ceil q in
  let width := Z.max width spacing in
  let '(lower, upper) :=
    if String.eqb direction "down" then
      let upper := (entry_tick / spacing) * spacing - spacing in
      let lower := upper - (width / spacing) * spacing in
      (lower, upper)
    else
      let lower := ((entry_tick + spacing) / spacing) * spacing in
      let upper := lower + (width / spacing) * spacing in
      (lower, upper) in
  let upper := if lower >=? upper then lower + spacing else upper in
  Ok (lower, upper).

Definition L_from_amounts_single_side
    (tick_l tick_u : Z) (amount0 amount1 : option R) : result R :=
  let sa := sqrt_ratio_from_tick tick_l in
  let sb := sqrt_ratio_from_tick tick_u in
  match amount1, amount0 with
  | Some a1, _ => py_div a1 (sb - sa)
  | None, Some a0 => py_div (a0 * (sa * sb)) (sb - sa)
  | None, None => Raise ValueError
  end.

Definition amounts_at_price (L : R) (tick_l tick_u tick_now : Z)
  : result (R * R) :=
  let sa := sqrt_ratio_from_tick tick_l in
  let sb := sqrt_ratio_from_tick tick_u in
  let s := sqrt_ratio_from_tick tick_now in
  if tick_now <=? tick_l then
    amt0 <- py_div (L * (sb - sa)) (sa * sb) ;;
    Ok (amt0, 0%R)
  else if tick_now >=? tick_u then
    Ok (0%R, (L * (sb - sa))%R)
  else
    amt0 <- py_div (L * (sb - s)) (s * sb) ;;
    Ok (amt0, (L * (s - sa))%R).

(** The range planner as the design text words it, on a given spacing and
    width: the [Above] lower bound rounds the quotient up. *)
Inductive Direction : Type := Below | Above.

Definition round_down (w s : Z) : Z := (w / s) * s.

Definition ceil_div (a b : Z) : Z := - ((- a) / b).

Definition plan_range_spec (entry_tick spacing width_ticks : Z) (d : Direction)
  : Z * Z :=
  match d with
  | Below =>
      let upper := (entry_tick / spacing) * spacing - spacing in
      (upper - round_down width_ticks spacing, upper)
  | Above =>
      let lower := ceil_div (entry_tick + spacing) spacing * spacing in
      (lower, lower + round_down width_ticks spacing)
  end.

(** [width_ticks] of the design text. *)
Definition width_ticks (target_pct : R) (spacing : Z) : Z :=
  Z.max (Zceil (ln (1 + target_pct) / ln 1.0001)) spacing.

(* ------------------------------------------------------------------ *)
(** ** Strings: [str.replace] and [int()] *)

(** [s.replace(old, new)] for a non-empty [old]: left to right, matches do
    not overlap.  [skip] counts the characters of a match still to drop. *)
Fixpoint str_replace_aux (old new : string) (skip : nat) (s : string) : string :=
  match s with
  | EmptyString => EmptyString
  | String c r =>
      match skip with
      | S k => str_replace_aux old new k r
      | O =>
          if String.prefix old s
          then new ++ str_replace_aux old new (String.length old - 1) r
          else String c (str_replace_aux old new 0 r)
      end
  end.

Definition str_replace (s old new : string) : string :=
  str_replace_aux old new 0 s.

(** Whitespace stripped by [int()], on ASCII pool names. *)
Definition is_space (c : ascii) : bool :=
  let n := Z.of_N (N_of_ascii c) in
  ((9 <=? n) && (n <=? 13)) || ((28 <=? n) && (n <=? 32)).

Definition digit_of (c : ascii) : option Z :=
  let n := Z.of_N (N_of_ascii c) in
  if (48 <=? n) && (n <=? 57) then Some (n - 48) else None.

Fixpoint lstrip (s : string) : string :=
  match s with
  | EmptyString => EmptyString
  | String c r => if is_space c then lstrip r else s
  end.

Fixpoint rstrip (s : string) : string :=
  match s with
  | EmptyString => EmptyString
  | String c r =>
      match rstrip r with
      | EmptyString => if is_space c then EmptyString else String c EmptyString
      | r' => String c r'
      end
  end.

(** Decimal digits, single underscores allowed between digits. *)
Fixpoint parse_digits (s : string) (acc : Z) (after_digit : bool) : option Z :=
  match s with
  | EmptyString => if after_digit then Some acc else None
  | String c r =>
      match digit_of c with
      | Some d => parse_digits r (10 * acc + d) true
      | None =>
          if Ascii.eqb c "_"%char && after_digit
          then parse_digits r acc false
          else None
      end
  end.

(** [int(s)] on a string, base 10. *)
Definition py_int (s : string) : result Z :=
  let body := rstrip (lstrip s) in
  let parsed :=
    match body with
    | String "+"%char r => parse_digits r 0 false
    | String "-"%char r => option_map Z.opp (parse_digits r 0 false)
    | _ => parse_digits body 0 false
    end in
  match parsed with
  | Some z => Ok z
  | None => Raise ValueError
  end.

Definition parse_fee_from_pool (pool : string) : result Z :=
  py_int (str_replace (str_replace (str_replace (str_replace
            pool "ETH" "") "USDC" "") "USDT" "") "DAI" "").

(* ------------------------------------------------------------------ *)
(** ** numpy statistics *)

Fixpoint insert_sorted (x : R) (l : list R) : list R :=
  match l with
  | [] => [x]
  | y :: r => if float_le x y then x :: l else y :: insert_sorted x r
  end.

Definition sort_floats (l : list R) : list R := fold_right insert_sorted [] l.

Definition sum_floats (l : list R) : R := fold_right Rplus 0%R l.

(** [np.median]: the middle of the sorted values, or the mean of the two
    middle ones. *)
Definition np_median (l : list R) : R :=
  let s := sort_floats l in
  let n := List.length s in
  if Nat.even n
  then ((nth (n / 2 - 1) s 0 + nth (n / 2) s 0) / 2)%R
  else nth (n / 2) s 0%R.

Definition np_mean (l : list R) : R :=
  (sum_floats l / INR (List.length l))%R.

(** [np.std(l, ddof=1)] *)
Definition np_std_ddof1 (l : list R) : R :=
  let mu := np_mean l in
  sqrt (sum_floats (map (fun x => ((x - mu) * (x - mu))%R) l)
        / INR (List.length l - 1)).

(* ------------------------------------------------------------------ *)
(** ** Data *)

(** One row of the event frame handed to [backtest_lp]. *)
Record Row : Type := {
  row_timestamp : Z;
  row_pool : string;
  row_tick : Z;
  row_usd_per_eth : R;
  row_liquidity : option R;
  row_vol_usd : R
}.

(** The row [load_events] derives from the raw columns: the price is
    computed from the tick. *)
Definition mk_row (ts : Z) (pool : string) (tick : Z)
    (liq : option R) (vol : R) : Row :=
  {| row_timestamp := ts; row_pool := pool; row_tick := tick;
     row_usd_per_eth := usd_per_eth_from_tick tick;
     row_liquidity := liq; row_vol_usd := vol |}.

Record Position : Type := {
  pool : string;
  fee : Z;
  direction : string;
  entry_ts : Z;
  entry_tick : Z;
  entry_price : R;
  tick_lower : Z;
  tick_upper : Z;
  L_user : R;
  notional : R;
  ever_in_range : bool;
  open : bool;
  fees_usd : R
}.

Definition set_open (pos : Position) (b : bool) : Position :=
  {| pool := pool pos; fee := fee pos; direction := direction pos;
     entry_ts := entry_ts pos; entry_tick := entry_tick pos;
     entry_price := entry_price pos; tick_lower := tick_lower pos;
     tick_upper := tick_upper pos; L_user := L_user pos;
     notional := notional pos; ever_in_range := ever_in_range pos;
     open := b; fees_usd := fees_usd pos |}.

Definition set_ever_in_range (pos : Position) (b : bool) : Position :=
  {| pool := pool pos; fee := fee pos; direction := direction pos;
     entry_ts := entry_ts pos; entry_tick := entry_tick pos;
     entry_price := entry_price pos; tick_lower := tick_lower pos;
     tick_upper := tick_upper pos; L_user := L_user pos;
     notional := notional pos; ever_in_range := b;
     open := open pos; fees_usd := fees_usd pos |}.

Definition set_fees_usd (pos : Position) (x : R) : Position :=
  {| pool := pool pos; fee := fee pos; direction := direction pos;
     entry_ts := entry_ts pos; entry_tick := entry_tick pos;
     entry_price := entry_price pos; tick_lower := tick_lower pos;
     tick_upper := tick_upper pos; L_user := L_user pos;
     notional := notional pos; ever_in_range := ever_in_range pos;
     open := open pos; fees_usd := x |}.

(** Values stored in trade and metric dictionaries.  [VNote z z_entry]
    stands for the formatted text [f"z={z:.2f} > {z_entry:.2f} -> LP range"]. *)
Inductive pyval : Type :=
| VStr (s : string)
| VInt (n : Z)
| VFloat (x : R)
| VNote (z z_entry : R).

Definition TradeRecord : Type := list (string * pyval).

(** [t.get(key)] on a trade record. *)
Definition record_get (t : TradeRecord) (key : string) : option pyval :=
  dict_get String.eqb t key.

(** The variables of one [backtest_lp] call. *)
Record State : Type := {
  latest_price : list (string * R);
  latest_tick : list (string * Z);
  diffs_by_pool : list (string * list (Z * R));
  open_positions : list Position;
  equity : R;
  exposure : R;
  trades : list TradeRecord;
  has_open : list (string * bool)
}.

Definition initial_state : State :=
  {| latest_price := []; latest_tick := []; diffs_by_pool := [];
     open_positions := []; equity := 0; exposure := 0; trades := [];
     has_open := [] |}.

Definition set_open_positions (st : State) (ps : list Position) : State :=
  {| latest_price := latest_price st; latest_tick := latest_tick st;
     diffs_by_pool := diffs_by_pool st; open_positions := ps;
     equity := equity st; exposure := exposure st; trades := trades st;
     has_open := has_open st |}.

(** [for x in l: body], stopping at the first exception. *)
Fixpoint for_each {A S : Type} (body : S -> A -> result S) (l : list A) (s : S)
  : result S :=
  match l with
  | [] => Ok s
  | x :: l' => s' <- body s x ;; for_each body l' s'
  end.

(* ------------------------------------------------------------------ *)
(** ** The engine: [backtest_lp] *)

(** The dictionary appended by [close_position] and by the end-of-data
    pass. *)
Definition close_record (pos : Position) (ts : Z) (price_now pnl : R)
    (reason : string) : TradeRecord :=
  [ ("pool", VStr (pool pos));
    ("direction", VStr (direction pos));
    ("entry_ts", VInt (entry_ts pos));
    ("entry_price", VFloat (entry_price pos));
    ("tick_lower", VInt (tick_lower pos));
    ("tick_upper", VInt (tick_upper pos));
    ("exit_ts", VInt ts);
    ("exit_price", VFloat price_now);
    ("fees_usd", VFloat (fees_usd pos));
    ("pnl_usd", VFloat pnl);
    ("reason", VStr reason) ].

(** The dictionary appended when a position is opened. *)
Definition open_record (pool_ direction_ : string) (ts : Z) (p_pool : R)
    (tick_l tick_u : Z) (z z_entry : R) : TradeRecord :=
  [ ("pool", VStr pool_);
    ("direction", VStr direction_);
    ("signal_ts", VInt ts);
    ("signal_price", VFloat p_pool);
    ("tick_lower", VInt tick_l);
    ("tick_upper", VInt tick_u);
    ("action", VStr "open");
    ("note", VNote z z_entry) ].

(** Value and profit of a position at a tick and price. *)
Definition position_pnl (pos : Position) (tick_now : Z) (price_now : R)
  : result R :=
  '(amt0, amt1) <-
    amounts_at_price (L_user pos) (tick_lower pos) (tick_upper pos) tick_now ;;
  let value := (amt0 + amt1 * price_now)%R in
  Ok ((value - notional pos) + fees_usd pos)%R.

(** The assignments of [close_position] once [pnl] is known. *)
Definition book_close (st : State) (pos : Position) (ts : Z)
    (price_now pnl : R) (reason : string) : State :=
  {| latest_price := latest_price st; latest_tick := latest_tick st;
     diffs_by_pool := diffs_by_pool st;
     open_positions := open_positions st;
     equity := (equity st + pnl)%R;
     exposure := (exposure st - notional pos)%R;
     trades := trades st ++ [close_record pos ts price_now pnl reason];
     has_open := dict_set String.eqb (has_open st) (pool pos) false |}.

(** The nested function [close_position]: it updates [equity], [exposure],
    [trades] and [has_open] of the enclosing call and the position object. *)
Definition close_position (st : State) (pos : Position) (ts tick_now : Z)
    (price_now : R) (reason : string) : result (State * Position) :=
  pnl <- position_pnl pos tick_now price_now ;;
  Ok (book_close st pos ts price_now pnl reason, set_open pos false).

(** Fee accrual of one event on an in-range position. *)
Definition accrue_fees (row : Row) (pos : Position) : result Position :=
  if (tick_lower pos <=? row_tick row) && (row_tick row <? tick_upper pos) then
    let pos := set_ever_in_range pos true in
    fee_rate <- dict_lookup Z.eqb FEE_TIER_MAP (fee pos) ;;
    let L_activa :=
      match row_liquidity row with Some l => l | None => 0%R end in
    share <-
      (if float_gt (L_activa + L_user pos) 0
       then py_div (L_user pos) (L_activa + L_user pos)
       else Ok 0%R) ;;
    let fees := (row_vol_usd row * fee_rate * share)%R in
    Ok (set_fees_usd pos (fees_usd pos + fees))
  else Ok pos.

(** Body of [for pos in list(open_positions)]. *)
Definition manage_position (row : Row) (st : State) (pos : Position)
  : result (State * Position) :=
  let ts := row_timestamp row in
  let tick := row_tick row in
  let p_pool := row_usd_per_eth row in
  if negb (open pos) || negb (String.eqb (pool pos) (row_pool row)) then
    Ok (st, pos)
  else
    adverse <- py_div (p_pool - entry_price pos) (entry_price pos) ;;
    if String.eqb (direction pos) "down" && float_gt adverse SL_PCT then
      close_position st pos ts tick p_pool "stop_loss"
    else if String.eqb (direction pos) "up" && float_lt adverse (- SL_PCT) then
      close_position st pos ts tick p_pool "stop_loss"
    else
      pos <- accrue_fees row pos ;;
      if String.eqb (direction pos) "down" then
        if ever_in_range pos && (tick <? tick_lower pos)
        then close_position st pos ts tick p_pool "passed_range"
        else Ok (st, pos)
      else
        if ever_in_range pos && (tick >=? tick_upper pos)
        then close_position st pos ts tick p_pool "passed_range"
        else Ok (st, pos).

(** The loop over the snapshot [list(open_positions)]: the position
    objects are shared with [open_positions], so the mutated objects are
    what the list holds afterwards. *)
Fixpoint manage_positions (row : Row) (st : State) (ps : list Position)
  : result (State * list Position) :=
  match ps with
  | [] => Ok (st, [])
  | pos :: ps' =>
      '(st1, pos') <- manage_position row st pos ;;
      '(st2, ps'') <- manage_positions row st1 ps' ;;
      Ok (st2, pos' :: ps'')
  end.

(** [while dq and ts - dq[0][0] > window_sec: dq.popleft()] *)
Fixpoint evict (ts window_sec : Z) (dq : list (Z * R)) : list (Z * R) :=
  match dq with
  | [] => []
  | (t0, _) :: dq' =>
      if ts - t0 >? window_sec then evict ts window_sec dq' else dq
  end.

(** The rolling z-score of deviation [d] over the window values. *)
Definition zscore (vals : list R) (d : R) : result (option R) :=
  if (10 <=? List.length vals)%nat then
    let mu := np_mean vals in
    let sd := np_std_ddof1 vals in
    if float_gt sd 1e-12
    then z <- py_div (d - mu) sd ;; Ok (Some z)
    else Ok None
  else Ok None.

(** The assignments of the entry block once the position is built. *)
Definition book_open (st : State) (pos : Position) (z z_entry : R) : State :=
  {| latest_price := latest_price st;
     latest_tick := latest_tick st;
     diffs_by_pool := diffs_by_pool st;
     open_positions := open_positions st ++ [pos];
     equity := equity st;
     exposure := (exposure st + POSITION_SIZE_USD)%R;
     trades := trades st ++
       [open_record (pool pos) (direction pos) (entry_ts pos)
          (entry_price pos) (tick_lower pos) (tick_upper pos) z z_entry];
     has_open := dict_set String.eqb (has_open st) (pool pos) true |}.

(** The entry block of the loop body. *)
Definition try_entry (z_entry target_pct : R) (row : Row) (p_ref : R)
    (z : option R) (st : State) : result State :=
  let ts := row_timestamp row in
  let pool_ := row_pool row in
  let tick := row_tick row in
  let p_pool := row_usd_per_eth row in
  match z with
  | None => Ok st
  | Some zv =>
      if float_gt (Rabs zv) z_entry
         && negb (dict_get_default String.eqb (has_open st) pool_ false) then
        if float_le (exposure st + POSITION_SIZE_USD) CAPITAL_LIMIT_USD then
          let direction_ := if float_gt p_pool p_ref then "down" else "up" in
          fee_ <- parse_fee_from_pool pool_ ;;
          '(tick_l, tick_u) <-
            align_ticks_for_range tick fee_ target_pct direction_ ;;
          L_user_ <-
            (if String.eqb direction_ "down" then
               amount1 <- py_div POSITION_SIZE_USD p_pool ;;
               L_from_amounts_single_side tick_l tick_u None (Some amount1)
             else
               let amount0 := POSITION_SIZE_USD in
               L_from_amounts_single_side tick_l tick_u (Some amount0) None) ;;
          let pos :=
            {| pool := pool_; fee := fee_; direction := direction_;
               entry_ts := ts; entry_tick := tick; entry_price := p_pool;
               tick_lower := tick_l; tick_upper := tick_u; L_user := L_user_;
               notional := POSITION_SIZE_USD; ever_in_range := false;
               open := true; fees_usd := 0 |} in
          Ok (book_open st pos zv z_entry)
        else Ok st
      else Ok st
  end.

(** Body of [for i, row in all_df.iterrows()]. *)
Definition process_row (z_entry : R) (window_sec : Z) (target_pct : R)
    (st : State) (row : Row) : result State :=
  let ts := row_timestamp row in
  let pool_ := row_pool row in
  let p_pool := row_usd_per_eth row in
  let st :=
    {| latest_price := dict_set String.eqb (latest_price st) pool_ p_pool;
       latest_tick := dict_set String.eqb (latest_tick st) pool_ (row_tick row);
       diffs_by_pool := diffs_by_pool st;
       open_positions := open_positions st;
       equity := equity st; exposure := exposure st; trades := trades st;
       has_open := has_open st |} in
  if (MIN_POOLS_FOR_REF <=? List.length (latest_price st))%nat then
    let p_ref := np_median (dict_values (latest_price st)) in
    let d := (p_pool - p_ref)%R in
    let dq := dict_get_default String.eqb (diffs_by_pool st) pool_ [] in
    let dq := evict ts window_sec (dq ++ [(ts, d)]) in
    let st :=
      {| latest_price := latest_price st; latest_tick := latest_tick st;
         diffs_by_pool := dict_set String.eqb (diffs_by_pool st) pool_ dq;
         open_positions := open_positions st;
         equity := equity st; exposure := exposure st; trades := trades st;
         has_open := has_open st |} in
    let vals := map snd dq in
    z <- zscore vals d ;;
    '(st, ps) <- manage_positions row st (open_positions st) ;;
    let st := set_open_positions st ps in
    try_entry z_entry target_pct row p_ref z st
  else Ok st.

(** [all_df.groupby("pool")[col].last().to_dict()] *)
Definition groupby_last {V : Type} (col : Row -> V) (all_df : list Row)
  : list (string * V) :=
  fold_left (fun d row => dict_set String.eqb d (row_pool row) (col row))
            all_df [].

(** The assignments of the end-of-data block once [pnl] is known;
    [has_open] is left as it is. *)
Definition book_eod (st : State) (pos : Position) (t : Z) (p pnl : R) : State :=
  {| latest_price := latest_price st; latest_tick := latest_tick st;
     diffs_by_pool := diffs_by_pool st;
     open_positions := open_positions st;
     equity := (equity st + pnl)%R;
     exposure := (exposure st - notional pos)%R;
     trades := trades st ++ [close_record pos t p pnl "eod"];
     has_open := has_open st |}.

(** Body of the end-of-data loop [for pos in open_positions]. *)
Definition eod_close (all_df : list Row) (st : State) (pos : Position)
  : result (State * Position) :=
  if open pos then
    let p := dict_get_default String.eqb
               (groupby_last row_usd_per_eth all_df) (pool pos)
               (entry_price pos) in
    let t := dict_get_default String.eqb
               (groupby_last row_timestamp all_df) (pool pos) (entry_ts pos) in
    let tk := dict_get_default String.eqb
               (groupby_last row_tick all_df) (pool pos) (entry_tick pos) in
    pnl <- position_pnl pos tk p ;;
    Ok (book_eod st pos t p pnl, set_open pos false)
  else Ok (st, pos).

Fixpoint eod_pass (all_df : list Row) (st : State) (ps : list Position)
  : result (State * list Position) :=
  match ps with
  | [] => Ok (st, [])
  | pos :: ps' =>
      '(st1, pos') <- eod_close all_df st pos ;;
      '(st2, ps'') <- eod_pass all_df st1 ps' ;;
      Ok (st2, pos' :: ps'')
  end.

Record Payload : Type := {
  metrics : list (string * pyval);
  payload_trades : list TradeRecord
}.

(** [t.get("action") != "open"] *)
Definition is_closed_trade (t : TradeRecord) : bool :=
  match record_get t "action" with
  | Some (VStr a) => negb (String.eqb a "open")
  | _ => true
  end.

(** The event loop of [backtest_lp]. *)
Definition run_events (z_entry : R) (window_min : Z) (target_pct : R)
    (all_df : list Row) : result State :=
  for_each (process_row z_entry (window_min * 60) target_pct)
           all_df initial_state.

(** The end-of-data pass on the state the loop left. *)
Definition run_eod (all_df : list Row) (st : State) : result State :=
  '(st', ps) <- eod_pass all_df st (open_positions st) ;;
  Ok (set_open_positions st' ps).

Definition backtest_lp (all_df : list Row) (z_entry : R) (window_min : Z)
    (target_pct : R) : result (R * Payload) :=
  st <- run_events z_entry window_min target_pct all_df ;;
  st <- run_eod all_df st ;;
  roi <- py_div (equity st) CAPITAL_LIMIT_USD ;;
  let metrics_ :=
    [ ("z_entry", VFloat z_entry);
      ("window_min", VInt window_min);
      ("range_pct", VFloat target_pct);
      ("equity_usd", VFloat (equity st));
      ("roi_on_20k", VFloat roi);
      ("num_trades",
        VInt (Z.of_nat (List.length (filter is_closed_trade (trades st))))) ] in
  Ok (roi, {| metrics := metrics_; payload_trades := trades st |}).

(* ------------------------------------------------------------------ *)
(** ** The grid search of [main] *)

(** [best], [best_tuple] and [best_payload], set together. *)
Definition Best : Type := option (R * (R * Z * R) * Payload).

Definition grid_cell (df : list Row) (W : Z) (z rpct : R) (best : Best)
  : result Best :=
  '(roi, payload) <- backtest_lp df z W rpct ;;
  match best with
  | None => Ok (Some (roi, (z, W, rpct), payload))
  | Some (b, _, _) =>
      if float_gt roi b
      then Ok (Some (roi, (z, W, rpct), payload))
      else Ok best
  end.

Definition grid_search (df : list Row) : result Best :=
  for_each (fun best W =>
    for_each (fun best z =>
      for_each (fun best rpct => grid_cell df W z rpct best)
               RANGE_PCT_CAND best)
             Z_CANDIDATES best)
           WINDOW_MINUTES None.

(** [main] after [load_events]: the recommended [(z, W, rpct)] and the
    payload written out. *)
Definition main (df : list Row) : result ((R * Z * R) * Payload) :=
  best <- grid_search df ;;
  match best with
  | Some (_, best_tuple, best_payload) => Ok (best_tuple, best_payload)
  | None => Raise TypeError
  end.

(** The combinations in iteration order. *)
Definition grid_combos : list (Z * R * R) :=
  flat_map (fun W =>
    flat_map (fun z => map (fun rpct => (W, z, rpct)) RANGE_PCT_CAND)
             Z_CANDIDATES)
           WINDOW_MINUTES.

(* ------------------------------------------------------------------ *)
(** ** Vocabulary of the properties *)

(** Sum of the notionals of the positions in state Open. *)
Definition open_notional (ps : list Position) : R :=
  sum_floats (map notional (filter open ps)).

(** The Open positions of one pool. *)
Definition open_on (pool_ : string) (ps : list Position) : list Position :=
  filter (fun p => open p && String.eqb (pool p) pool_) ps.

(** The fields of a position fixed at entry. *)
Definition frame (pos : Position)
  : string * Z * string * Z * Z * R * Z * Z * R * R :=
  (pool pos, fee pos, direction pos, entry_ts pos, entry_tick pos,
   entry_price pos, tick_lower pos, tick_upper pos, L_user pos, notional pos).

(** Profit of a position valued at a tick and price; [position_pnl] never
    raises (lemma [position_pnl_ok]). *)
Definition pnl_at (pos : Position) (tick_now : Z) (price_now : R) : R :=
  match position_pnl pos tick_now price_now with
  | Ok x => x
  | Raise _ => 0%R
  end.

(** The last row of a pool in the event frame. *)
Definition last_row_of (pool_ : string) (all_df : list Row) : option Row :=
  find (fun r => String.eqb (row_pool r) pool_) (rev all_df).

(** The record the end-of-data pass writes for a position whose pool was
    last seen in row [r]. *)
Definition eod_record (pos : Position) (r : Row) : TradeRecord :=
  close_record pos (row_timestamp r) (row_usd_per_eth r)
    (pnl_at pos (row_tick r) (row_usd_per_eth r)) "eod".

Definition CLOSE_REASONS : list string := ["stop_loss"; "passed_range"; "eod"].

(** Shape of the records of the trade log: an open record has
    [action = "open"] and no [reason] key; a close record has no [action]
    key and a reason among [CLOSE_REASONS]. *)
Definition is_open_record (t : TradeRecord) : Prop :=
  record_get t "action" = Some (VStr "open") /\ record_get t "reason" = None.

Definition is_close_record (t : TradeRecord) : Prop :=
  record_get t "action" = None
  /\ exists r, record_get t "reason" = Some (VStr r) /\ In r CLOSE_REASONS.

(** Exposure accounting: the counter [e] against the positions [ps]. *)
Definition exposure_ok (e : R) (ps : list Position) : Prop :=
  e = open_notional ps
  /\ Forall (fun p => notional p = POSITION_SIZE_USD) ps
  /\ (e <= CAPITAL_LIMIT_USD)%R.

(** At most one Open position per pool. *)
Definition one_per_pool (ps : list Position) : Prop :=
  forall pool_, (List.length (open_on pool_ ps) <= 1)%nat.

(** The [has_open] flags agree with the positions. *)
Definition flags_ok (flags : list (string * bool)) (ps : list Position) : Prop :=
  forall pool_,
    dict_get_default String.eqb flags pool_ false = true
    <-> open_on pool_ ps <> [].

(** The counters and logs [close_position] and the entry block write. *)
Definition book (st : State) : R * R * list TradeRecord * list (string * bool) :=
  (equity st, exposure st, trades st, has_open st).

(** A position handled by the loop body is either left open (its state
    untouched, only fees and the in-range flag may move) or closed with one
    of the two in-loop reasons. *)
Definition step_kept (st st' : State) (pos pos' : Position) : Prop :=
  st' = st /\ frame pos' = frame pos /\ open pos' = open pos.

Definition step_closed (row : Row) (st st' : State) (pos pos' : Position) : Prop :=
  open pos = true /\ pool pos = row_pool row
  /\ exists pos1 reason,
       frame pos1 = frame pos /\ open pos1 = true
       /\ (reason = "stop_loss" \/ reason = "passed_range")
       /\ st' = book_close st pos1 (row_timestamp row) (row_usd_per_eth row)
                  (pnl_at pos1 (row_tick row) (row_usd_per_eth row)) reason
       /\ pos' = set_open pos1 false.

(** What the entry block can do: nothing, or open one position on the
    pool of the row. *)
Definition entry_opened (z_entry : R) (row : Row) (st st' : State) : Prop :=
  exists pos zv,
    st' = book_open st pos zv z_entry
    /\ open pos = true /\ pool pos = row_pool row
    /\ notional pos = POSITION_SIZE_USD
    /\ dict_get_default String.eqb (has_open st) (row_pool row) false = false
    /\ (exposure st + POSITION_SIZE_USD <= CAPITAL_LIMIT_USD)%R.

(** The invariant of the event loop: exposure accounting, one Open
    position per pool, flags in step with the positions. *)
Definition book_inv (bk : R * R * list TradeRecord * list (string * bool))
    (ps : list Position) : Prop :=
  let '(_, e, _, flags) := bk in
  exposure_ok e ps /\ one_per_pool ps /\ flags_ok flags ps.

(** The Open positions the end-of-data pass closes, each with the last row
    of its pool. *)
Definition eod_exits (all_df : list Row) (ps : list Position)
  : list (Position * Row) :=
  flat_map (fun p =>
    if open p then
      match last_row_of (pool p) all_df with
      | Some r => [(p, r)]
      | None => []
      end
    else []) ps.

Definition exit_pnl (x : Position * Row) : R :=
  pnl_at (fst x) (row_tick (snd x)) (row_usd_per_eth (snd x)).

Definition exit_record (x : Position * Row) : TradeRecord :=
  eod_record (fst x) (snd x).

(** The pool of every position has a row in the frame. *)
Definition pools_seen (all_df : list Row) (ps : list Position) : Prop :=
  Forall (fun p => exists r, last_row_of (pool p) all_df = Some r) ps.

(** The records the trade log may hold. *)
Definition trade_shape (t : TradeRecord) : Prop :=
  is_open_record t \/ is_close_record t.

(** The roi of one grid cell, when the run succeeds. *)
Definition cell_roi (df : list Row) (c : Z * R * R) : option R :=
  let '(W, z, rpct) := c in
  match backtest_lp df z W rpct with
  | Ok (roi, _) => Some roi
  | Raise _ => None
  end.

(** The grid loop flattened over [grid_combos]. *)
Definition grid_search_flat (df : list Row) (combos : list (Z * R * R))
    (best : Best) : result Best :=
  for_each (fun best c => let '(W, z, rpct) := c in grid_cell df W z rpct best)
           combos best.

(** The incumbent after the combinations [pre]: none before the first
    cell; afterwards a cell of [pre] whose roi no cell of [pre] exceeds and
    no earlier cell reaches. *)
Definition incumbent (df : list Row) (pre : list (Z * R * R)) (best : Best)
  : Prop :=
  match best with
  | None => pre = []
  | Some (b, (z, W, rpct), payload) =>
      exists i,
        nth_error pre i = Some (W, z, rpct)
        /\ backtest_lp df z W rpct = Ok (b, payload)
        /\ forall j c, nth_error pre j = Some c ->
             exists roi, cell_roi df c = Some roi
                      /\ (roi <= b)%R /\ ((j < i)%nat -> (roi < b)%R)
  end.

(** The passed-range condition of the loop body, for a position already
    past fee accrual. *)
Definition passed_range (pos : Position) (tick : Z) : bool :=
  if String.eqb (direction pos) "down"
  then ever_in_range pos && (tick <? tick_lower pos)
  else ever_in_range pos && (tick >=? tick_upper pos).

(** The stop-loss condition on the adverse move of a position. *)
Definition stop_loss_hit (pos : Position) (adverse : R) : Prop :=
  (direction pos = "down" /\ (adverse > SL_PCT)%R)
  \/ (direction pos = "up" /\ (adverse < - SL_PCT)%R).

(* ------------------------------------------------------------------ *)
(** ** A worked run

    Three pools on fee tier 500.  The first two report tick 0 once, the
    third reports tick 0 nine times and then jumps to tick -500: its
    price leaves the reference, the tenth sample of its window gives a
    z-score of about 2.85, and a "down" position is opened.  The run ends
    there, so the position is closed by the end-of-data pass. *)

Definition scenario_warmup : list Row :=
  [ mk_row 0 "USDT500" 0 None 0;
    mk_row 1 "DAI500" 0 None 0;
    mk_row 2 "USDC500" 0 None 0;
    mk_row 3 "USDC500" 0 None 0;
    mk_row 4 "USDC500" 0 None 0;
    mk_row 5 "USDC500" 0 None 0;
    mk_row 6 "USDC500" 0 None 0;
    mk_row 7 "USDC500" 0 None 0;
    mk_row 8 "USDC500" 0 None 0;
    mk_row 9 "USDC500" 0 None 0;
    mk_row 10 "USDC500" 0 None 0 ].

Definition scenario_jump : Row := mk_row 11 "USDC500" (-500) None 0.

Definition scenario : list Row := scenario_warmup ++ [scenario_jump].

(** Price of the third pool after the jump. *)
Definition scenario_price : R := usd_per_eth_from_tick (-500).

(** Deviations of the third pool: nine at the reference, then the jump. *)
Definition scenario_window : list R :=
  [0; 0; 0; 0; 0; 0; 0; 0; 0; scenario_price - 1]%R.

Definition scenario_z : R :=
  ((scenario_price - 1 - np_mean scenario_window)
   / np_std_ddof1 scenario_window)%R.

(** The planned range: one spacing below the entry tick, one width wide. *)
Definition scenario_lower (pct : R) : Z :=
  -510 - round_down (width_ticks pct 10) 10.

Definition scenario_position (pct : R) : Position :=
  {| pool := "USDC500"; fee := 500; direction := "down";
     entry_ts := 11; entry_tick := -500; entry_price := scenario_price;
     tick_lower := scenario_lower pct; tick_upper := -510;
     L_user := (POSITION_SIZE_USD / scenario_price
                / (sqrt_ratio_from_tick (-510)
                   - sqrt_ratio_from_tick (scenario_lower pct)))%R;
     notional := POSITION_SIZE_USD; ever_in_range := false;
     open := true; fees_usd := 0 |}.

Definition scenario_open_record (z_entry pct : R) : TradeRecord :=
  open_record "USDC500" "down" 11 scenario_price (scenario_lower pct) (-510)
    scenario_z z_entry.

(** The state the event loop leaves. *)
Definition scenario_state (z_entry pct : R) : State :=
  {| latest_price :=
       [("USDT500", 1%R); ("DAI500", 1%R); ("USDC500", scenario_price)];
     latest_tick := [("USDT500", 0); ("DAI500", 0); ("USDC500", -500)];
     diffs_by_pool :=
       [("USDC500",
         [(2, 0%R); (3, 0%R); (4, 0%R); (5, 0%R); (6, 0%R); (7, 0%R);
          (8, 0%R); (9, 0%R); (10, 0%R); (11, (scenario_price - 1)%R)])];
     open_positions := [scenario_position pct];
     equity := 0;
     exposure := (0 + POSITION_SIZE_USD)%R;
     trades := [scenario_open_record z_entry pct];
     has_open := [("USDC500", true)] |}.

(** The state after the warm-up rows. *)
Definition scenario_mid : State :=
  {| latest_price := [("USDT500", 1%R); ("DAI500", 1%R); ("USDC500", 1%R)];
     latest_tick := [("USDT500", 0); ("DAI500", 0); ("USDC500", 0)];
     diffs_by_pool :=
       [("USDC500",
         [(2, 0%R); (3, 0%R); (4, 0%R); (5, 0%R); (6, 0%R); (7, 0%R);
          (8, 0%R); (9, 0%R); (10, 0%R)])];
     open_positions := []; equity := 0; exposure := 0; trades := [];
     has_open := [] |}.

Definition scenario_close_record (pct : R) : TradeRecord :=
  close_record (scenario_position pct) 11 scenario_price 0 "eod".

(** The state after the end-of-data pass. *)
Definition scenario_final (z_entry pct : R) : State :=
  {| latest_price := latest_price (scenario_state z_entry pct);
     latest_tick := latest_tick (scenario_state z_entry pct);
     diffs_by_pool := diffs_by_pool (scenario_state z_entry pct);
     open_positions := [set_open (scenario_position pct) false];
     equity := (0 + 0)%R;
     exposure := (0 + POSITION_SIZE_USD - POSITION_SIZE_USD)%R;
     trades := [scenario_open_record z_entry pct; scenario_close_record pct];
     has_open := [("USDC500", true)] |}.

(** A further row on which the third pool has moved on to tick -1000. *)
Definition scenario_adverse : Row := mk_row 12 "USDC500" (-1000) None 0.

(** The reasons the design text allows on a trade record. *)
Definition SPEC_REASONS : list string :=
  ["signal_open"; "stop_loss"; "passed_range"; "eod"].

(** A trade record as the design text describes it. *)
Definition has_spec_reason (t : TradeRecord) : Prop :=
  exists r, record_get t "reason" = Some (VStr r) /\ In r SPEC_REASONS.

(** What [backtest_lp] returns on the worked run: the position is closed
    at its entry price, beyond its range, so nothing is gained or lost. *)
Definition scenario_roi : R := ((0 + 0) / CAPITAL_LIMIT_USD)%R.

Definition scenario_payload (z_entry : R) (window_min : Z) (pct : R) : Payload :=
  {| metrics :=
       [ ("z_entry", VFloat z_entry);
         ("window_min", VInt window_min);
         ("range_pct", VFloat pct);
         ("equity_usd", VFloat (0 + 0)%R);
         ("roi_on_20k", VFloat scenario_roi);
         ("num_trades", VInt 1) ];
     payload_trades :=
       [scenario_open_record z_entry pct; scenario_close_record pct] |}.

(* ------------------------------------------------------------------ *)
(** ** Proof automation *)

(** Unfold the state updates and project their fields. *)
Ltac book_simpl :=
  unfold book, book_close, book_open, book_eod, set_open_positions in *;
  cbn [equity exposure trades has_open open_positions latest_price
       latest_tick diffs_by_pool] in *.

(** Run the engine on concrete rows, leaving real arithmetic, the
    comparisons on floats and the price model untouched. *)
Ltac engine_cbv :=
  cbv -[Rplus Rminus Rmult Rdiv Rinv Ropp IZR Q2R exp ln sqrt Rpower Rabs
        Z.pow_pos float_lt float_le float_gt float_ge py_div np_median
        np_mean np_std_ddof1 usd_per_eth_from_tick sqrt_ratio_from_tick
        align_ticks_for_range L_from_amounts_single_side amounts_at_price
        position_pnl pnl_at parse_fee_from_pool scenario_price
        scenario_lower POSITION_SIZE_USD CAPITAL_LIMIT_USD SL_PCT].

(* ------------------------------------------------------------------ *)
(** ** Further vocabulary *)

(** [a] is a multiple of the spacing [s]. *)
Definition aligned (s a : Z) : Prop := a mod s = 0.

(** The three tracker dictionaries of a state. *)
Definition trackers (st : State)
  : list (string * R) * list (string * Z) * list (string * list (Z * R)) :=
  (latest_price st, latest_tick st, diffs_by_pool st).

(** The state after the first two assignments of the loop body. *)
Definition track_row (st : State) (row : Row) : State :=
  {| latest_price :=
       dict_set String.eqb (latest_price st) (row_pool row) (row_usd_per_eth row);
     latest_tick :=
       dict_set String.eqb (latest_tick st) (row_pool row) (row_tick row);
     diffs_by_pool := diffs_by_pool st;
     open_positions := open_positions st;
     equity := equity st; exposure := exposure st; trades := trades st;
     has_open := has_open st |}.

(** Reference price and deviation of a row against a tracked state. *)
Definition row_reference (st1 : State) : R :=
  np_median (dict_values (latest_price st1)).

Definition row_deviation (st1 : State) (row : Row) : R :=
  (row_usd_per_eth row - row_reference st1)%R.

(** The window of the row's pool after the append and the eviction. *)
Definition row_window (window_sec : Z) (st1 : State) (row : Row) : list (Z * R) :=
  evict (row_timestamp row) window_sec
    (dict_get_default String.eqb (diffs_by_pool st1) (row_pool row) []
     ++ [(row_timestamp row, row_deviation st1 row)]).

(** The state after the window update. *)
Definition window_row (window_sec : Z) (st1 : State) (row : Row) : State :=
  {| latest_price := latest_price st1; latest_tick := latest_tick st1;
     diffs_by_pool :=
       dict_set String.eqb (diffs_by_pool st1) (row_pool row)
         (row_window window_sec st1 row);
     open_positions := open_positions st1;
     equity := equity st1; exposure := exposure st1; trades := trades st1;
     has_open := has_open st1 |}.

(** The state a warm-up leaves: only the trackers of price and tick. *)
Definition warmup_state (rows : list Row) : State :=
  {| latest_price := groupby_last row_usd_per_eth rows;
     latest_tick := groupby_last row_tick rows;
     diffs_by_pool := []; open_positions := []; equity := 0; exposure := 0;
     trades := []; has_open := [] |}.

(** [pnl_usd] of a trade record; records without it (the open records)
    count for nothing. *)
Definition record_pnl (t : TradeRecord) : R :=
  match record_get t "pnl_usd" with
  | Some (VFloat x) => x
  | _ => 0%R
  end.

(** Number of Closed positions. *)
Definition closed_count (ps : list Position) : nat :=
  List.length (filter (fun p => negb (open p)) ps).

(** Number of Open positions. *)
Definition open_count (ps : list Position) : nat :=
  List.length (filter open ps).

(** Bookkeeping of the trade log against the positions: equity is the sum
    of the logged profits, there is one close record per Closed position
    and one open record per position. *)
Definition log_inv (bk : R * R * list TradeRecord * list (string * bool))
    (ps : list Position) : Prop :=
  let '(eqty, _, tr, _) := bk in
  eqty = sum_floats (map record_pnl tr)
  /\ List.length (filter is_closed_trade tr) = closed_count ps
  /\ List.length tr = (List.length ps + closed_count ps)%nat.

(** The range of a position against its fee tier and entry tick. *)
Definition range_ok (pos : Position) : Prop :=
  exists s,
    dict_get Z.eqb TICK_SPACING_MAP (fee pos) = Some s
    /\ aligned s (tick_lower pos) /\ aligned s (tick_upper pos)
    /\ tick_lower pos + s <= tick_upper pos
    /\ (if String.eqb (direction pos) "down"
        then tick_upper pos + s <= entry_tick pos < tick_upper pos + 2 * s
        else entry_tick pos < tick_lower pos <= entry_tick pos + s).

(** The liquidity of a position against the position size: token1 worth
    1,000 at the entry price for a "down" position, 1,000 of token0
    otherwise. *)
Definition sized (pos : Position) : Prop :=
  if String.eqb (direction pos) "down"
  then entry_price pos <> 0%R
       /\ L_from_amounts_single_side (tick_lower pos) (tick_upper pos) None
            (Some (POSITION_SIZE_USD / entry_price pos)%R)
          = Ok (L_user pos)
  else L_from_amounts_single_side (tick_lower pos) (tick_upper pos)
         (Some POSITION_SIZE_USD) None
       = Ok (L_user pos).

(** What the entry block guarantees of every position, for its whole
    life. *)
Definition position_wf (pos : Position) : Prop :=
  parse_fee_from_pool (pool pos) = Ok (fee pos)
  /\ (direction pos = "down" \/ direction pos = "up")
  /\ notional pos = POSITION_SIZE_USD
  /\ range_ok pos
  /\ sized pos.

(** A row the engine can always process: a non-zero price and a pool name
    that parses to a fee tier of the spacing table. *)
Definition row_ok (row : Row) : Prop :=
  row_usd_per_eth row <> 0%R
  /\ exists f s,
       parse_fee_from_pool (row_pool row) = Ok f
       /\ dict_get Z.eqb TICK_SPACING_MAP f = Some s.

(** A position the management step can always process. *)
Definition position_ok (pos : Position) : Prop :=
  position_wf pos /\ entry_price pos <> 0%R.

(** The tick of a row lies in the range of a position. *)
Definition in_range (pos : Position) (row : Row) : Prop :=
  tick_lower pos <= row_tick row < tick_upper pos.

(** What one event may do to one position. *)
Definition event_effect (row : Row) (pos pos' : Position) : Prop :=
  frame pos' = frame pos
  /\ (open pos = false \/ pool pos <> row_pool row -> pos' = pos)
  /\ (open pos' = true -> open pos = true)
  /\ (ever_in_range pos = true -> ever_in_range pos' = true)
  /\ (ever_in_range pos' = true ->
      ever_in_range pos = true \/ in_range pos row)
  /\ (fees_usd pos' <> fees_usd pos -> in_range pos row).

(** Timestamps in non-decreasing order. *)
Definition stamps_sorted (dq : list (Z * R)) : Prop :=
  StronglySorted Z.le (map fst dq).

Definition rows_sorted (rows : list Row) : Prop :=
  StronglySorted Z.le (map row_timestamp rows).

(** An entry of a window is no older than [window_sec] at time [ts]. *)
Definition fresh (ts window_sec : Z) (e : Z * R) : Prop :=
  fst e <= ts /\ ts - fst e <= window_sec.

(** The windows of a state against the rows processed: each window is in
    timestamp order and holds only entries fresh at the last row of its
    pool. *)
Definition windows_ok (rows : list Row) (window_sec : Z) (st : State) : Prop :=
  (diffs_by_pool st = []
   \/ (MIN_POOLS_FOR_REF <= List.length (latest_price st))%nat)
  /\ forall pool_ dq,
       dict_get String.eqb (diffs_by_pool st) pool_ = Some dq ->
       exists r,
         last_row_of pool_ rows = Some r
         /\ stamps_sorted dq
         /\ Forall (fresh (row_timestamp r) window_sec) dq.

(** Decimal digit strings and their value. *)
Definition is_digit (c : ascii) : bool :=
  match digit_of c with Some _ => true | None => false end.

Fixpoint all_digits (s : string) : bool :=
  match s with
  | EmptyString => true
  | String c r => is_digit c && all_digits r
  end.

Fixpoint digits_value_from (acc : Z) (s : string) : Z :=
  match s with
  | EmptyString => acc
  | String c r =>
      digits_value_from (10 * acc + (Z.of_N (N_of_ascii c) - 48)) r
  end.

Definition digits_value (s : string) : Z := digits_value_from 0 s.

(** The pool names of the stable/ETH pairs, before the fee digits. *)
Definition POOL_PREFIXES : list string :=
  ["USDC"; "USDT"; "DAI"; "USDCETH"; "USDTETH"; "DAIETH";
   "ETHUSDC"; "ETHUSDT"; "ETHDAI"].

(* ------------------------------------------------------------------ *)
(** ** [load_events], from the concatenated frame on

    The CSV reading and the per-file clean-up are left out; what follows
    is the work of [load_events] on the frame [pd.concat] returns: the
    look-back cut, the derived columns, the stable sort by timestamp and
    the final emptiness check.  A NaN [amount0] or [liquidity] cell is
    [None]. *)

Record RawRow : Type := {
  raw_timestamp : Z;
  raw_tick : Z;
  raw_pool : string;
  raw_liquidity : option R;
  raw_amount0 : option R
}.

(** What the tail of [load_events] can raise: the exceptions of [exn]
    ([ValueError] from [int(nan)] on the maximum of an empty timestamp
    column, [KeyError] from a dictionary subscript) and the explicit
    [RuntimeError] of the final length check.  The derived columns of a
    frame that the cut has emptied are taken to be empty. *)
Inductive load_exn : Type :=
| Exn (e : exn)
| RuntimeError.

Definition DEC0_MAP : list (string * Z) :=
  [("USDC", 6); ("USDT", 6); ("DAI", 18)].

Definition stable_sym (pool_ : string) : string :=
  if String.prefix "USDC" pool_ then "USDC"
  else if String.prefix "USDT" pool_ then "USDT"
  else "DAI".

(** The nested function [vol_usd] on one row. *)
Definition vol_usd (raw : RawRow) : result R :=
  dec <- dict_lookup String.eqb DEC0_MAP (stable_sym (raw_pool raw)) ;;
  let a0 := match raw_amount0 raw with Some a => a | None => 0%R end in
  py_div (Rabs a0) (IZR (10 ^ dec)).

(** [all_df["timestamp"].max()], [None] standing for NaN. *)
Definition max_timestamp (raw : list RawRow) : option Z :=
  match raw with
  | [] => None
  | r :: rest =>
      Some (fold_left (fun m x => Z.max m (raw_timestamp x)) rest
              (raw_timestamp r))
  end.

(** The derived columns of one row. *)
Definition derive_row (raw : RawRow) : result Row :=
  vol <- vol_usd raw ;;
  Ok (mk_row (raw_timestamp raw) (raw_pool raw) (raw_tick raw)
        (raw_liquidity raw) vol).

Fixpoint derive_rows (raws : list RawRow) : result (list Row) :=
  match raws with
  | [] => Ok []
  | raw :: rest =>
      row <- derive_row raw ;;
      rows <- derive_rows rest ;;
      Ok (row :: rows)
  end.

(** [sort_values(["timestamp"], kind="mergesort")]: the stable sort; an
    insertion that puts a row in front of the rows it does not follow
    gives the same list. *)
Fixpoint insert_by_timestamp (x : Row) (l : list Row) : list Row :=
  match l with
  | [] => [x]
  | y :: l' =>
      if row_timestamp x <=? row_timestamp y
      then x :: l
      else y :: insert_by_timestamp x l'
  end.

Definition sort_by_timestamp (l : list Row) : list Row :=
  fold_right insert_by_timestamp [] l.

Definition load_events_tail (raw : list RawRow) (year_lookback_days : Z)
  : load_exn + list Row :=
  match max_timestamp raw with
  | None => inl (Exn ValueError)
  | Some max_ts =>
      let cutoff := max_ts - year_lookback_days * 24 * 3600 in
      let kept := filter (fun r => raw_timestamp r >=? cutoff) raw in
      match derive_rows kept with
      | Raise e => inl (Exn e)
      | Ok rows =>
          let sorted := sort_by_timestamp rows in
          if (List.length sorted =? 0)%nat then inl RuntimeError
          else inr sorted
      end
  end.

(** The rows of the frame that pass the look-back cut, with their derived
    columns, in the frame's order. *)
Definition kept_rows (raw : list RawRow) (cutoff : Z) : list RawRow :=
  filter (fun r => raw_timestamp r >=? cutoff) raw.

(** Volume of a row as [vol_usd] computes it, for a known stable. *)
Definition vol_of (raw : RawRow) : R :=
  match vol_usd raw with Ok v => v | Raise _ => 0%R end.

Definition row_of (raw : RawRow) : Row :=
  mk_row (raw_timestamp raw) (raw_pool raw) (raw_tick raw)
    (raw_liquidity raw) (vol_of raw).

(** The [fees_usd] a record carries. *)
Definition record_fees (t : TradeRecord) : R :=
  match record_get t "fees_usd" with
  | Some (VFloat x) => x
  | _ => 0%R
  end.

(** A record written by [close_position] inside the event loop. *)
Definition in_loop_close (t : TradeRecord) : Prop :=
  record_get t "reason" = Some (VStr "stop_loss")
  \/ record_get t "reason" = Some (VStr "passed_range").

(** What an in-loop close realises, by direction: more than the accrued
    fees for "down", less for "up". *)
Definition realised_sign (t : TradeRecord) : Prop :=
  in_loop_close t ->
  (record_get t "direction" = Some (VStr "down") ->
   (record_fees t < record_pnl t)%R)
  /\ (record_get t "direction" = Some (VStr "up") ->
      (record_pnl t < record_fees t)%R).

(** A row whose price is the price of its tick, as [load_events] derives
    it. *)
Definition price_of_tick (row : Row) : Prop :=
  row_usd_per_eth row = usd_per_eth_from_tick (row_tick row).

(** A position whose entry price is the price of its entry tick. *)
Definition priced_at_entry (pos : Position) : Prop :=
  position_wf pos
  /\ entry_price pos = usd_per_eth_from_tick (entry_tick pos).

(** The invariant of the event loop behind the signs of the log. *)
Definition sign_inv (bk : R * R * list TradeRecord * list (string * bool))
    (ps : list Position) : Prop :=
  let '(_, _, tr, _) := bk in
  Forall priced_at_entry ps /\ Forall realised_sign tr.

(** A small concatenated frame, out of timestamp order, with one row
    older than a one-day look-back. *)
Definition sample_frame : list RawRow :=
  [ {| raw_timestamp := 200000; raw_tick := 0; raw_pool := "USDC500";
       raw_liquidity := None; raw_amount0 := Some 5000000%R |};
    {| raw_timestamp := 100; raw_tick := 10; raw_pool := "DAI3000";
       raw_liquidity := None; raw_amount0 := None |};
    {| raw_timestamp := 150000; raw_tick := -10; raw_pool := "USDT500";
       raw_liquidity := Some 1%R; raw_amount0 := Some (-2)%R |} ].

(* ================================================================== *)
(** * Properties *)

(* ------------------------------------------------------------------ *)
(** ** The string and table helpers on small inputs *)

Example parse_fee_usdc500 : parse_fee_from_pool "USDC500" = Ok 500.
Proof. reflexivity. Qed.

Example parse_fee_daieth3000 : parse_fee_from_pool "DAIETH3000" = Ok 3000.
Proof. reflexivity. Qed.

Example parse_fee_no_digits : parse_fee_from_pool "USDCETH" = Raise ValueError.
Proof. reflexivity. Qed.

Example py_int_underscore : py_int " 1_000 " = Ok 1000.
Proof. reflexivity. Qed.

Example py_int_double_underscore : py_int "1__0" = Raise ValueError.
Proof. reflexivity. Qed.

Example str_replace_twice : str_replace "ETHxETHETH" "ETH" "" = "x".
Proof. reflexivity. Qed.

Example align_ticks_unknown_fee (t : Z) (pct : R) (d : string) :
  align_ticks_for_range t 42 pct d = Raise KeyError.
Proof. reflexivity. Qed.

Example evict_drops_stale :
  evict 700 600 [(50, 1%R); (100, 2%R); (650, 3%R)] = [(100, 2%R); (650, 3%R)].
Proof. reflexivity. Qed.

(* ------------------------------------------------------------------ *)
(** ** Comparisons, division and the error monad *)

Lemma float_lt_true (x y : R) : (x < y)%R -> float_lt x y = true.
Proof. intro H. unfold float_lt. destruct (Rlt_dec x y); [reflexivity | contradiction]. Qed.

Lemma float_lt_false (x y : R) : (y <= x)%R -> float_lt x y = false.
Proof. intro H. unfold float_lt. destruct (Rlt_dec x y); [lra | reflexivity]. Qed.

Lemma float_le_true (x y : R) : (x <= y)%R -> float_le x y = true.
Proof. intro H. unfold float_le. destruct (Rle_dec x y); [reflexivity | contradiction]. Qed.

Lemma float_le_false (x y : R) : (y < x)%R -> float_le x y = false.
Proof. intro H. unfold float_le. destruct (Rle_dec x y); [lra | reflexivity]. Qed.

Lemma float_lt_iff (x y : R) : float_lt x y = true <-> (x < y)%R.
Proof.
  unfold float_lt. destruct (Rlt_dec x y); split; intro; auto; discriminate.
Qed.

Lemma float_le_iff (x y : R) : float_le x y = true <-> (x <= y)%R.
Proof.
  unfold float_le. destruct (Rle_dec x y); split; intro; auto; discriminate.
Qed.

Lemma float_gt_iff (x y : R) : float_gt x y = true <-> (x > y)%R.
Proof. unfold float_gt. apply float_lt_iff. Qed.

Lemma py_div_ok (x y : R) : y <> 0%R -> py_div x y = Ok (x / y)%R.
Proof. intro H. unfold py_div. destruct (Req_dec_T y 0); [contradiction | reflexivity]. Qed.

Lemma py_div_zero (x : R) : py_div x 0 = Raise ZeroDivisionError.
Proof. unfold py_div. destruct (Req_dec_T 0 0); [reflexivity | congruence]. Qed.

Lemma py_div_inv (x y q : R) : py_div x y = Ok q -> y <> 0%R /\ q = (x / y)%R.
Proof.
  unfold py_div. destruct (Req_dec_T y 0); intro H; [discriminate |].
  inversion H. auto.
Qed.

Lemma bind_ok_inv {A B : Type} (c : result A) (k : A -> result B) (b : B) :
  bind c k = Ok b -> exists a, c = Ok a /\ k a = Ok b.
Proof. destruct c as [a | e]; simpl; intro H; [eauto | discriminate]. Qed.

(* ------------------------------------------------------------------ *)
(** ** Price model *)

Lemma LOG_1_0001_pos : (0 < LOG_1_0001)%R.
Proof.
  unfold LOG_1_0001. rewrite <- ln_1. apply ln_increasing; lra.
Qed.

Lemma sqrt_ratio_from_tick_pos (t : Z) : (0 < sqrt_ratio_from_tick t)%R.
Proof. unfold sqrt_ratio_from_tick, Rpower. apply exp_pos. Qed.

Lemma sqrt_ratio_from_tick_lt (a b : Z) :
  a < b -> (sqrt_ratio_from_tick a < sqrt_ratio_from_tick b)%R.
Proof.
  intro H. unfold sqrt_ratio_from_tick. apply Rpower_lt; [lra |].
  apply IZR_lt in H. lra.
Qed.

Lemma usd_per_eth_from_tick_pos (t : Z) : (0 < usd_per_eth_from_tick t)%R.
Proof. apply exp_pos. Qed.

Lemma tick_spacing_pos (f s : Z) :
  dict_get Z.eqb TICK_SPACING_MAP f = Some s -> 0 < s.
Proof.
  unfold TICK_SPACING_MAP. cbn [dict_get].
  repeat (destruct (_ =? f); [intro H; inversion H; lia |]).
  discriminate.
Qed.

Lemma round_down_width_pos (w s : Z) : 0 < s -> 0 < round_down (Z.max w s) s.
Proof.
  intro Hs. unfold round_down.
  assert (1 <= Z.max w s / s).
  { apply Z.div_le_lower_bound; lia. }
  nia.
Qed.

Lemma width_ticks_eq (pct : R) (s : Z) :
  (-1 < pct)%R ->
  exists q, math_log (1.0 + pct) = Ok (ln (1 + pct))
         /\ py_div (ln (1 + pct)) LOG_1_0001 = Ok q
         /\ Z.max (math_ceil q) s = width_ticks pct s.
Proof.
  intro Hp. exists (ln (1 + pct) / ln 1.0001)%R. repeat split.
  - unfold math_log. destruct (Rlt_dec 0 (1.0 + pct)); [| exfalso; lra].
    f_equal. f_equal. lra.
  - apply py_div_ok. pose proof LOG_1_0001_pos as H.
    unfold LOG_1_0001 in *. lra.
Qed.

Lemma align_ticks_for_range_eval (t f s : Z) (pct : R) :
  dict_get Z.eqb TICK_SPACING_MAP f = Some s ->
  (-1 < pct)%R ->
  align_ticks_for_range t f pct "down"
    = Ok (plan_range_spec t s (width_ticks pct s) Below)
  /\ align_ticks_for_range t f pct "up"
    = Ok (((t + s) / s) * s,
          ((t + s) / s) * s + round_down (width_ticks pct s) s).
Proof.
  intros Hf Hp.
  pose proof (tick_spacing_pos _ _ Hf) as Hs.
  destruct (width_ticks_eq pct s Hp) as (q & Hlog & Hdiv & Hw).
  assert (Hrd : 0 < round_down (width_ticks pct s) s).
  { unfold width_ticks. apply round_down_width_pos. exact Hs. }
  unfold align_ticks_for_range, dict_lookup. rewrite Hf. cbn [bind].
  rewrite Hlog. cbn [bind]. rewrite Hdiv. cbn [bind]. rewrite Hw.
  fold (round_down (width_ticks pct s) s).
  split; cbn [String.eqb Ascii.eqb Bool.eqb plan_range_spec].
  - destruct (Z.geb_spec (t / s * s - s - round_down (width_ticks pct s) s)
                         (t / s * s - s)); [lia | reflexivity].
  - destruct (Z.geb_spec ((t + s) / s * s)
                ((t + s) / s * s + round_down (width_ticks pct s) s));
      [lia | reflexivity].
Qed.

Lemma floor_aligned_above (t s : Z) :
  0 < s -> t < ((t + s) / s) * s <= t + s.
Proof.
  intro Hs.
  pose proof (Z.div_mod (t + s) s ltac:(lia)) as Hdm.
  pose proof (Z.mod_pos_bound (t + s) s Hs) as Hb.
  nia.
Qed.


Lemma width_ticks_zero (s : Z) : 0 <= s -> width_ticks 0 s = s.
Proof.
  intro Hs. unfold width_ticks.
  replace (1 + 0)%R with 1%R by lra. rewrite ln_1.
  unfold Rdiv. rewrite Rmult_0_l.
  rewrite (Zceil_eq 0 0); [lia | lra].
Qed.



(** C4: sizing a position from a single-sided amount and valuing it at a
    tick beyond the far boundary gives the amount back: token1-only
    liquidity at any tick at or above [tick_u], token0-only liquidity at
    any tick at or below [tick_l]. *)
Theorem single_side_roundtrip (tick_l tick_u tick_now : Z) (amount : R) :
  tick_l < tick_u ->
  (0 < amount)%R ->
  let sa := sqrt_ratio_from_tick tick_l in
  let sb := sqrt_ratio_from_tick tick_u in
  (tick_u <= tick_now ->
     L_from_amounts_single_side tick_l tick_u None (Some amount)
       = Ok (amount / (sb - sa))%R
     /\ amounts_at_price (amount / (sb - sa)) tick_l tick_u tick_now
       = Ok (0%R, amount))
  /\ (tick_now <= tick_l ->
     L_from_amounts_single_side tick_l tick_u (Some amount) None
       = Ok (amount * (sa * sb) / (sb - sa))%R
     /\ amounts_at_price (amount * (sa * sb) / (sb - sa)) tick_l tick_u tick_now
       = Ok (amount, 0%R)).
Proof.
  intros Hlt Ha sa sb.
  pose proof (sqrt_ratio_from_tick_pos tick_l) as Hsa.
  pose proof (sqrt_ratio_from_tick_pos tick_u) as Hsb.
  pose proof (sqrt_ratio_from_tick_lt _ _ Hlt) as Hab.
  fold sa in Hsa, Hab. fold sb in Hsb, Hab.
  assert (Hd : (sb - sa <> 0)%R) by lra.
  assert (Hm : (sa * sb <> 0)%R) by nra.
  split; intro Hn; unfold L_from_amounts_single_side, amounts_at_price;
    fold sa; fold sb.
  - split; [apply py_div_ok; exact Hd |].
    destruct (Z.leb_spec tick_now tick_l); [lia |].
    destruct (Z.geb_spec tick_now tick_u); [| lia].
    f_equal. f_equal. field. exact Hd.
  - split; [apply py_div_ok; exact Hd |].
    destruct (Z.leb_spec tick_now tick_l); [| lia].
    rewrite py_div_ok by exact Hm. cbn [bind].
    f_equal. f_equal. field. lra.
Qed.

Lemma single_side_roundtrip_witness :
  amounts_at_price
    (1000 / (sqrt_ratio_from_tick 10 - sqrt_ratio_from_tick 0)) 0 10 10
  = Ok (0%R, 1000%R).
Proof.
  destruct (single_side_roundtrip 0 10 10 1000 ltac:(lia) ltac:(lra))
    as [H _].
  exact (proj2 (H ltac:(lia))).
Defined.

(* ------------------------------------------------------------------ *)
(** ** Dictionaries and loops *)

Open Scope list_scope.

Lemma dict_get_set_same {V : Type} (d : list (string * V)) (k : string) (v : V) :
  dict_get String.eqb (dict_set String.eqb d k v) k = Some v.
Proof.
  induction d as [| [k' v'] d IH]; cbn [dict_set dict_get].
  - rewrite String.eqb_refl. reflexivity.
  - destruct (String.eqb k' k) eqn:E; cbn [dict_get]; rewrite E; auto.
Qed.

Lemma dict_get_set_other {V : Type} (d : list (string * V)) (k k0 : string) (v : V) :
  k <> k0 ->
  dict_get String.eqb (dict_set String.eqb d k v) k0
  = dict_get String.eqb d k0.
Proof.
  intro Hne. induction d as [| [k' v'] d IH]; cbn [dict_set dict_get].
  - destruct (String.eqb_spec k k0); [contradiction | reflexivity].
  - destruct (String.eqb_spec k' k) as [-> | Hk]; cbn [dict_get].
    + destruct (String.eqb_spec k k0); [contradiction | reflexivity].
    + destruct (String.eqb k' k0); auto.
Qed.

Lemma for_each_app {A S : Type} (body : S -> A -> result S) (l1 l2 : list A) (s : S) :
  for_each body (l1 ++ l2) s = (s' <- for_each body l1 s ;; for_each body l2 s').
Proof.
  revert s. induction l1 as [| x l1 IH]; intro s; cbn [for_each app bind].
  - reflexivity.
  - destruct (body s x) as [s1 | e]; cbn [bind]; auto.
Qed.

(** An invariant of the loop body is an invariant of the loop. *)
Lemma for_each_invariant {A S : Type} (body : S -> A -> result S) (P : S -> Prop) :
  (forall s x s', P s -> body s x = Ok s' -> P s') ->
  forall l s s', P s -> for_each body l s = Ok s' -> P s'.
Proof.
  intros Hstep l. induction l as [| x l IH]; intros s s' Hs H; cbn in H.
  - inversion H. subst. exact Hs.
  - apply bind_ok_inv in H. destruct H as (s1 & H1 & H2). eauto.
Qed.

(* ------------------------------------------------------------------ *)
(** ** Closing never raises *)

Lemma amounts_at_price_ok (L : R) (tl tu tn : Z) :
  exists a0 a1, amounts_at_price L tl tu tn = Ok (a0, a1).
Proof.
  pose proof (sqrt_ratio_from_tick_pos tl).
  pose proof (sqrt_ratio_from_tick_pos tu).
  pose proof (sqrt_ratio_from_tick_pos tn).
  unfold amounts_at_price.
  destruct (tn <=? tl).
  - rewrite py_div_ok by nra. cbn [bind]. eauto.
  - destruct (tn >=? tu); [eauto |].
    rewrite py_div_ok by nra. cbn [bind]. eauto.
Qed.

Lemma position_pnl_ok (pos : Position) (tk : Z) (p : R) :
  position_pnl pos tk p = Ok (pnl_at pos tk p).
Proof.
  unfold pnl_at.
  destruct (position_pnl pos tk p) as [x | e] eqn:E; [reflexivity |].
  unfold position_pnl in E.
  destruct (amounts_at_price_ok (L_user pos) (tick_lower pos) (tick_upper pos) tk)
    as (a0 & a1 & Ha).
  rewrite Ha in E. discriminate.
Qed.

Lemma close_position_eq (st : State) (pos : Position) (ts tk : Z) (p : R)
    (reason : string) :
  close_position st pos ts tk p reason
  = Ok (book_close st pos ts p (pnl_at pos tk p) reason, set_open pos false).
Proof. unfold close_position. rewrite position_pnl_ok. reflexivity. Qed.

Lemma eod_close_eq (all_df : list Row) (st : State) (pos : Position) :
  eod_close all_df st pos =
  if open pos then
    let p := dict_get_default String.eqb
               (groupby_last row_usd_per_eth all_df) (pool pos)
               (entry_price pos) in
    let t := dict_get_default String.eqb
               (groupby_last row_timestamp all_df) (pool pos) (entry_ts pos) in
    let tk := dict_get_default String.eqb
               (groupby_last row_tick all_df) (pool pos) (entry_tick pos) in
    Ok (book_eod st pos t p (pnl_at pos tk p), set_open pos false)
  else Ok (st, pos).
Proof.
  unfold eod_close. destruct (open pos); [| reflexivity].
  cbv zeta. rewrite position_pnl_ok. reflexivity.
Qed.

(* ------------------------------------------------------------------ *)
(** ** What one management step can do *)

Lemma accrue_fees_inv (row : Row) (pos pos' : Position) :
  accrue_fees row pos = Ok pos' ->
  frame pos' = frame pos /\ open pos' = open pos.
Proof.
  unfold accrue_fees.
  destruct ((tick_lower pos <=? row_tick row) && (row_tick row <? tick_upper pos)).
  - intro H. apply bind_ok_inv in H. destruct H as (fr & _ & H).
    apply bind_ok_inv in H. destruct H as (sh & _ & H).
    inversion H. subst. split; reflexivity.
  - intro H. inversion H. subst. split; reflexivity.
Qed.

Lemma manage_position_inv (row : Row) (st st' : State) (pos pos' : Position) :
  manage_position row st pos = Ok (st', pos') ->
  step_kept st st' pos pos' \/ step_closed row st st' pos pos'.
Proof.
  unfold manage_position.
  destruct (open pos) eqn:Ho; cbn [negb orb].
  2:{ intro H. inversion H. subst. left. repeat split; auto. }
  destruct (String.eqb_spec (pool pos) (row_pool row)) as [Hp | Hp]; cbn [negb].
  2:{ intro H. inversion H. subst. left. repeat split; auto. }
  intro H. apply bind_ok_inv in H. destruct H as (adv & _ & H).
  assert (Hclose : forall pos1 reason,
            frame pos1 = frame pos -> open pos1 = true ->
            reason = "stop_loss" \/ reason = "passed_range" ->
            close_position st pos1 (row_timestamp row) (row_tick row)
              (row_usd_per_eth row) reason = Ok (st', pos') ->
            step_closed row st st' pos pos').
  { intros pos1 reason Hf Ho1 Hr Hc. rewrite close_position_eq in Hc.
    inversion Hc. subst. repeat split; auto.
    exists pos1, reason. repeat split; auto. }
  destruct (String.eqb (direction pos) "down" && float_gt adv SL_PCT).
  { right. apply (Hclose pos "stop_loss"); auto. }
  destruct (String.eqb (direction pos) "up" && float_lt adv (- SL_PCT)).
  { right. apply (Hclose pos "stop_loss"); auto. }
  apply bind_ok_inv in H. destruct H as (pos1 & Hacc & H).
  apply accrue_fees_inv in Hacc. destruct Hacc as [Hf Ho1].
  rewrite Ho in Ho1.
  destruct (String.eqb (direction pos1) "down").
  - destruct (ever_in_range pos1 && (row_tick row <? tick_lower pos1)).
    + right. apply (Hclose pos1 "passed_range"); auto.
    + inversion H. subst. left. repeat split; auto; congruence.
  - destruct (ever_in_range pos1 && (row_tick row >=? tick_upper pos1)).
    + right. apply (Hclose pos1 "passed_range"); auto.
    + inversion H. subst. left. repeat split; auto; congruence.
Qed.

(** Invariants of the loop over the positions: [P] relates the state to
    the whole list, of which a prefix has been handled. *)
Lemma manage_positions_invariant (row : Row) (P : State -> list Position -> Prop) :
  (forall st pre pos post st' pos',
      P st (pre ++ pos :: post) ->
      manage_position row st pos = Ok (st', pos') ->
      P st' (pre ++ pos' :: post)) ->
  forall ps pre st st' ps',
    P st (pre ++ ps) ->
    manage_positions row st ps = Ok (st', ps') ->
    P st' (pre ++ ps').
Proof.
  intros Hstep ps. induction ps as [| pos ps IH]; intros pre st st' ps' HP H;
    cbn [manage_positions] in H.
  - inversion H. subst. exact HP.
  - apply bind_ok_inv in H. destruct H as ([st1 pos1] & H1 & H).
    apply bind_ok_inv in H. destruct H as ([st2 ps2] & H2 & H).
    inversion H. subst.
    specialize (Hstep _ _ _ _ _ _ HP H1).
    specialize (IH (pre ++ [pos1]) st1 st' ps2).
    rewrite <- !app_assoc in IH. cbn [app] in IH. auto.
Qed.

Lemma eod_pass_invariant (all_df : list Row) (P : State -> list Position -> Prop) :
  (forall st pre pos post st' pos',
      P st (pre ++ pos :: post) ->
      eod_close all_df st pos = Ok (st', pos') ->
      P st' (pre ++ pos' :: post)) ->
  forall ps pre st st' ps',
    P st (pre ++ ps) ->
    eod_pass all_df st ps = Ok (st', ps') ->
    P st' (pre ++ ps').
Proof.
  intros Hstep ps. induction ps as [| pos ps IH]; intros pre st st' ps' HP H;
    cbn [eod_pass] in H.
  - inversion H. subst. exact HP.
  - apply bind_ok_inv in H. destruct H as ([st1 pos1] & H1 & H).
    apply bind_ok_inv in H. destruct H as ([st2 ps2] & H2 & H).
    inversion H. subst.
    specialize (Hstep _ _ _ _ _ _ HP H1).
    specialize (IH (pre ++ [pos1]) st1 st' ps2).
    rewrite <- !app_assoc in IH. cbn [app] in IH. auto.
Qed.

(* ------------------------------------------------------------------ *)
(** ** What the entry block and one event can do *)

Lemma try_entry_inv (z_entry pct : R) (row : Row) (p_ref : R) (z : option R)
    (st st' : State) :
  try_entry z_entry pct row p_ref z st = Ok st' ->
  st' = st \/ entry_opened z_entry row st st'.
Proof.
  unfold try_entry. destruct z as [zv |]; [| intro H; inversion H; auto].
  destruct (float_gt (Rabs zv) z_entry); cbn [andb];
    [| intro H; inversion H; auto].
  destruct (dict_get_default String.eqb (has_open st) (row_pool row) false)
    eqn:Hflag; cbn [negb]; [intro H; inversion H; auto |].
  destruct (float_le (exposure st + POSITION_SIZE_USD) CAPITAL_LIMIT_USD)
    eqn:Hcap; [| intro H; inversion H; auto].
  apply float_le_iff in Hcap.
  intro H. apply bind_ok_inv in H. destruct H as (fee_ & _ & H).
  apply bind_ok_inv in H. destruct H as ([tl tu] & _ & H).
  apply bind_ok_inv in H. destruct H as (Lu & _ & H).
  inversion H. right. eexists. exists zv. repeat split; auto.
Qed.

(** An invariant of the loop body over the book and the positions: it is
    enough that the management step and the entry block keep it. *)
Lemma process_row_invariant
    (Q : R * R * list TradeRecord * list (string * bool) -> list Position -> Prop)
    (z_entry : R) (window_sec : Z) (pct : R) (row : Row) :
  (forall st pre pos post st' pos',
      Q (book st) (pre ++ pos :: post) ->
      manage_position row st pos = Ok (st', pos') ->
      Q (book st') (pre ++ pos' :: post)) ->
  (forall p_ref zopt st st',
      Q (book st) (open_positions st) ->
      try_entry z_entry pct row p_ref zopt st = Ok st' ->
      Q (book st') (open_positions st')) ->
  forall st st',
    Q (book st) (open_positions st) ->
    process_row z_entry window_sec pct st row = Ok st' ->
    Q (book st') (open_positions st').
Proof.
  intros Hm He st st' HQ H. unfold process_row in H.
  match type of H with
  | (if ?c then _ else _) = _ => destruct c
  end.
  2:{ inversion H. subst. exact HQ. }
  apply bind_ok_inv in H. destruct H as (z & _ & H).
  apply bind_ok_inv in H. destruct H as ([st3 ps] & Hmp & H).
  cbn [open_positions] in Hmp.
  eapply (manage_positions_invariant row (fun s l => Q (book s) l) Hm _ [])
    in Hmp; [| exact HQ].
  cbn [app] in Hmp.
  exact (He _ _ (set_open_positions st3 ps) _ Hmp H).
Qed.

(* ------------------------------------------------------------------ *)
(** ** Exposure and the one-position-per-pool discipline *)

Lemma sum_floats_app (a b : list R) :
  sum_floats (a ++ b) = (sum_floats a + sum_floats b)%R.
Proof.
  unfold sum_floats.
  induction a as [| x a IH]; cbn [app fold_right].
  - lra.
  - rewrite IH. lra.
Qed.

Lemma open_notional_mid (pre post : list Position) (p : Position) :
  open_notional (pre ++ p :: post)
  = (open_notional pre + (if open p then notional p else 0)
     + open_notional post)%R.
Proof.
  unfold open_notional. rewrite filter_app, map_app, sum_floats_app.
  unfold sum_floats. cbn [filter].
  destruct (open p); cbn [map fold_right]; lra.
Qed.

Lemma open_on_mid (pl : string) (pre post : list Position) (p : Position) :
  open_on pl (pre ++ p :: post)
  = open_on pl pre
    ++ (if open p && String.eqb (pool p) pl then [p] else [])
    ++ open_on pl post.
Proof.
  unfold open_on. rewrite filter_app. cbn [filter].
  destruct (open p && String.eqb (pool p) pl); reflexivity.
Qed.

Lemma frame_pool (a b : Position) : frame a = frame b -> pool a = pool b.
Proof. unfold frame. intro H. inversion H. auto. Qed.

Lemma frame_notional (a b : Position) :
  frame a = frame b -> notional a = notional b.
Proof. unfold frame. intro H. inversion H. auto. Qed.

Lemma nonempty_length {A : Type} (l : list A) : l <> [] <-> List.length l <> 0%nat.
Proof. destruct l; cbn; split; intro H; congruence. Qed.

Lemma book_inv_kept (bk : R * R * list TradeRecord * list (string * bool))
    (pre post : list Position) (pos pos' : Position) :
  frame pos' = frame pos -> open pos' = open pos ->
  book_inv bk (pre ++ pos :: post) ->
  book_inv bk (pre ++ pos' :: post).
Proof.
  intros Hf Ho. destruct bk as [[[eq e] tr] flags].
  pose proof (frame_pool _ _ Hf) as Hp.
  pose proof (frame_notional _ _ Hf) as Hn.
  intros ((He & Hall & Hcap) & Hone & Hfl).
  assert (Hlen : forall pl, List.length (open_on pl (pre ++ pos' :: post))
                          = List.length (open_on pl (pre ++ pos :: post))).
  { intro pl. rewrite !open_on_mid, !length_app, Ho, Hp.
    destruct (open pos && String.eqb (pool pos) pl); reflexivity. }
  repeat split.
  - rewrite He, !open_notional_mid, Ho, Hn. reflexivity.
  - apply Forall_app in Hall. destruct Hall as [H1 H2].
    apply Forall_app. split; [exact H1 |].
    inversion H2; subst. constructor; [congruence | assumption].
  - exact Hcap.
  - intro pl. rewrite Hlen. apply Hone.
  - intro H. apply nonempty_length. rewrite Hlen. apply nonempty_length.
    apply Hfl. exact H.
  - intro H. apply Hfl. apply nonempty_length. rewrite <- Hlen.
    apply nonempty_length. exact H.
Qed.

Lemma book_inv_manage (row : Row) (st st' : State) (pre post : list Position)
    (pos pos' : Position) :
  book_inv (book st) (pre ++ pos :: post) ->
  manage_position row st pos = Ok (st', pos') ->
  book_inv (book st') (pre ++ pos' :: post).
Proof.
  intros Hinv H. apply manage_position_inv in H.
  destruct H as [(-> & Hf & Ho) | (Ho & Hp & pos1 & reason & Hf & Ho1 & _ & -> & ->)].
  - eapply book_inv_kept; eauto.
  - pose proof (frame_pool _ _ Hf) as Hp1.
    pose proof (frame_notional _ _ Hf) as Hn1.
    destruct Hinv as ((He & Hall & Hcap) & Hone & Hfl).
    book_simpl.
    assert (Hnp : notional pos = POSITION_SIZE_USD).
    { apply Forall_app in Hall. destruct Hall as [_ H2]. inversion H2; auto. }
    repeat split.
    + rewrite He, !open_notional_mid, Ho. cbn [set_open open]. lra.
    + apply Forall_app in Hall. destruct Hall as [H1 H2].
      apply Forall_app. split; [exact H1 |].
      inversion H2; subst. constructor; [cbn; congruence | assumption].
    + rewrite Hn1, Hnp. unfold POSITION_SIZE_USD. lra.
    + intro pl. specialize (Hone pl).
      rewrite open_on_mid, !length_app in *. cbn [set_open open andb].
      cbn [List.length]. lia.
    + intro H. unfold dict_get_default in H.
      destruct (String.eqb_spec (pool pos1) pool_) as [E | E].
      * subst pool_. rewrite dict_get_set_same in H. discriminate.
      * rewrite dict_get_set_other in H by exact E.
        apply Hfl in H. apply nonempty_length in H. apply nonempty_length.
        rewrite open_on_mid, !length_app in *.
        replace (String.eqb (pool pos) pool_) with false in H.
        2:{ symmetry. apply String.eqb_neq. congruence. }
        rewrite andb_false_r in H. cbn [set_open open andb]. exact H.
    + intro H. unfold dict_get_default.
      destruct (String.eqb_spec (pool pos1) pool_) as [E | E].
      * subst pool_. exfalso. apply nonempty_length in H. apply H.
        specialize (Hone (pool pos1)).
        rewrite open_on_mid, !length_app in *.
        rewrite Ho, <- Hp1, String.eqb_refl in Hone.
        cbn [set_open open andb List.length] in *. lia.
      * rewrite dict_get_set_other by exact E.
        apply Hfl. apply nonempty_length in H. apply nonempty_length.
        rewrite open_on_mid, !length_app in *.
        replace (String.eqb (pool pos) pool_) with false.
        2:{ symmetry. apply String.eqb_neq. congruence. }
        rewrite andb_false_r. cbn [set_open open andb] in H. exact H.
Qed.

Lemma open_on_flag_false (flags : list (string * bool)) (ps : list Position)
    (pl : string) :
  flags_ok flags ps ->
  dict_get_default String.eqb flags pl false = false ->
  open_on pl ps = [].
Proof.
  intros Hfl H. destruct (open_on pl ps) eqn:E; [reflexivity |].
  assert (Hne : open_on pl ps <> []) by (rewrite E; discriminate).
  apply Hfl in Hne. congruence.
Qed.

Lemma book_inv_entry (z_entry pct : R) (row : Row) (p_ref : R) (z : option R)
    (st st' : State) :
  book_inv (book st) (open_positions st) ->
  try_entry z_entry pct row p_ref z st = Ok st' ->
  book_inv (book st') (open_positions st').
Proof.
  intros Hinv H. apply try_entry_inv in H.
  destruct H as [-> | (pos & zv & -> & Ho & Hp & Hn & Hflag & Hcap)];
    [exact Hinv |].
  destruct Hinv as ((He & Hall & Hc) & Hone & Hfl).
  book_simpl.
  pose proof (open_on_flag_false _ _ _ Hfl Hflag) as Hnone.
  assert (Hon : forall pl, open_on pl (open_positions st ++ [pos])
                 = open_on pl (open_positions st)
                   ++ (if String.eqb (pool pos) pl then [pos] else [])).
  { intro pl. rewrite open_on_mid, Ho. cbn [andb open_on filter].
    destruct (String.eqb (pool pos) pl); reflexivity. }
  repeat split.
  - rewrite open_notional_mid, Ho, He, Hn.
    unfold open_notional at 3, sum_floats. cbn [filter map fold_right]. lra.
  - apply Forall_app. split; [exact Hall | constructor; [exact Hn | constructor]].
  - exact Hcap.
  - intro pl. rewrite Hon, length_app.
    destruct (String.eqb_spec (pool pos) pl) as [E | E].
    + subst pl. rewrite Hp, Hnone. cbn. lia.
    + specialize (Hone pl). cbn [List.length]. lia.
  - intro H. apply nonempty_length. rewrite Hon, length_app.
    unfold dict_get_default in H.
    destruct (String.eqb_spec (pool pos) pool_) as [E | E].
    + cbn [List.length]. lia.
    + rewrite dict_get_set_other in H by exact E.
      apply Hfl, nonempty_length in H. cbn [List.length]. lia.
  - intro H. apply nonempty_length in H. rewrite Hon, length_app in H.
    unfold dict_get_default.
    destruct (String.eqb_spec (pool pos) pool_) as [E | E].
    + subst pool_. rewrite dict_get_set_same. reflexivity.
    + rewrite dict_get_set_other by exact E.
      apply Hfl, nonempty_length. cbn [List.length] in H. lia.
Qed.

Lemma book_inv_process_row (z_entry : R) (window_sec : Z) (pct : R) (row : Row)
    (st st' : State) :
  book_inv (book st) (open_positions st) ->
  process_row z_entry window_sec pct st row = Ok st' ->
  book_inv (book st') (open_positions st').
Proof.
  apply process_row_invariant.
  - intros. eapply book_inv_manage; eauto.
  - intros. eapply book_inv_entry; eauto.
Qed.

Lemma book_inv_initial : book_inv (book initial_state) [].
Proof.
  unfold book_inv, book, exposure_ok, one_per_pool, flags_ok, initial_state.
  cbn [equity exposure trades has_open].
  split; [split; [| split] | split].
  - unfold open_notional, sum_floats. reflexivity.
  - constructor.
  - unfold CAPITAL_LIMIT_USD. lra.
  - intro pl. cbn. lia.
  - intro pl. split; intro H; cbn in H; congruence.
Qed.

Lemma book_inv_run (z_entry : R) (window_min : Z) (pct : R) (all_df : list Row)
    (st : State) :
  run_events z_entry window_min pct all_df = Ok st ->
  book_inv (book st) (open_positions st).
Proof.
  unfold run_events.
  apply (for_each_invariant _ (fun s => book_inv (book s) (open_positions s))).
  - intros s x s'. apply book_inv_process_row.
  - exact book_inv_initial.
Qed.

(** The end-of-data pass keeps the exposure accounting and the
    one-per-pool discipline (it leaves the flags alone). *)
Lemma eod_close_inv (all_df : list Row) (st st' : State) (pos pos' : Position) :
  eod_close all_df st pos = Ok (st', pos') ->
  (open pos = false /\ st' = st /\ pos' = pos)
  \/ (open pos = true /\ pos' = set_open pos false
      /\ exists t p tk,
           st' = book_eod st pos t p (pnl_at pos tk p)
           /\ p = dict_get_default String.eqb
                  (groupby_last row_usd_per_eth all_df) (pool pos)
                  (entry_price pos)
           /\ t = dict_get_default String.eqb
                  (groupby_last row_timestamp all_df) (pool pos)
                  (entry_ts pos)
           /\ tk = dict_get_default String.eqb
                  (groupby_last row_tick all_df) (pool pos)
                  (entry_tick pos)).
Proof.
  rewrite eod_close_eq. destruct (open pos); intro H; inversion H; subst.
  - right. repeat split; auto. do 3 eexists. repeat split; reflexivity.
  - left. auto.
Qed.


(* ------------------------------------------------------------------ *)
(** ** The end-of-data pass *)

Lemma set_open_same (p : Position) (b : bool) : open p = b -> set_open p b = p.
Proof. destruct p. cbn. intros <-. reflexivity. Qed.

Lemma groupby_last_snoc {V : Type} (col : Row -> V) (rows : list Row) (r : Row) :
  groupby_last col (rows ++ [r])
  = dict_set String.eqb (groupby_last col rows) (row_pool r) (col r).
Proof. unfold groupby_last. rewrite fold_left_app. reflexivity. Qed.

Lemma last_row_of_snoc (pl : string) (rows : list Row) (r : Row) :
  last_row_of pl (rows ++ [r])
  = if String.eqb (row_pool r) pl then Some r else last_row_of pl rows.
Proof. unfold last_row_of. rewrite rev_app_distr. reflexivity. Qed.

(** [groupby(...).last()] holds, for each pool, the column of its last row. *)
Lemma groupby_last_spec {V : Type} (col : Row -> V) (rows : list Row) (pl : string) :
  dict_get String.eqb (groupby_last col rows) pl
  = option_map col (last_row_of pl rows).
Proof.
  induction rows as [| r rows IH] using rev_ind.
  - reflexivity.
  - rewrite groupby_last_snoc, last_row_of_snoc.
    destruct (String.eqb_spec (row_pool r) pl) as [E | E].
    + subst pl. rewrite dict_get_set_same. reflexivity.
    + rewrite dict_get_set_other by exact E. exact IH.
Qed.

Lemma groupby_last_default {V : Type} (col : Row -> V) (rows : list Row)
    (pl : string) (r : Row) (dflt : V) :
  last_row_of pl rows = Some r ->
  dict_get_default String.eqb (groupby_last col rows) pl dflt = col r.
Proof.
  intro H. unfold dict_get_default. rewrite groupby_last_spec, H. reflexivity.
Qed.

Lemma eod_close_seen (all_df : list Row) (st : State) (pos : Position) (r : Row) :
  open pos = true ->
  last_row_of (pool pos) all_df = Some r ->
  eod_close all_df st pos
  = Ok (book_eod st pos (row_timestamp r) (row_usd_per_eth r)
          (pnl_at pos (row_tick r) (row_usd_per_eth r)),
        set_open pos false).
Proof.
  intros Ho Hr. rewrite eod_close_eq, Ho. cbv zeta.
  rewrite !(groupby_last_default _ _ _ _ _ Hr). reflexivity.
Qed.

Lemma open_notional_cons (p : Position) (ps : list Position) :
  open_notional (p :: ps)
  = ((if open p then notional p else 0) + open_notional ps)%R.
Proof.
  pose proof (open_notional_mid [] ps p) as H. cbn [app] in H.
  rewrite H. unfold open_notional at 1, sum_floats. cbn. lra.
Qed.

Lemma eod_pass_spec (all_df : list Row) (ps : list Position) :
  pools_seen all_df ps ->
  forall st, exists st',
    eod_pass all_df st ps = Ok (st', map (fun p => set_open p false) ps)
    /\ trades st' = trades st ++ map exit_record (eod_exits all_df ps)
    /\ equity st'
       = (equity st + sum_floats (map exit_pnl (eod_exits all_df ps)))%R
    /\ exposure st' = (exposure st - open_notional ps)%R
    /\ map fst (eod_exits all_df ps) = filter open ps.
Proof.
  unfold pools_seen. induction ps as [| pos ps IH]; intros Hseen st.
  - exists st. cbn [eod_pass map eod_exits flat_map filter].
    unfold open_notional, sum_floats. cbn [filter map fold_right].
    rewrite app_nil_r. repeat split; auto; lra.
  - inversion Hseen as [| ? ? [r Hr] Hrest]; subst.
    specialize (IH Hrest).
    cbn [eod_pass map eod_exits flat_map filter].
    fold (eod_exits all_df ps).
    destruct (open pos) eqn:Ho.
    + rewrite (eod_close_seen _ _ _ _ Ho Hr). cbn [bind]. rewrite Hr.
      destruct (IH (book_eod st pos (row_timestamp r) (row_usd_per_eth r)
                      (pnl_at pos (row_tick r) (row_usd_per_eth r))))
        as (st' & Hrun & Htr & Heq & Hex & Hfst).
      exists st'. rewrite Hrun. cbn [bind].
      rewrite open_notional_cons, Ho.
      cbn [app map fst]. rewrite Htr, Heq, Hex, Hfst.
      book_simpl. unfold sum_floats.
      cbn [map fold_right]. rewrite <- app_assoc.
      repeat split; auto; unfold exit_pnl; cbn [fst snd]; try lra.
    + rewrite eod_close_eq, Ho. cbn [bind].
      destruct (IH st) as (st' & Hrun & Htr & Heq & Hex & Hfst).
      exists st'. rewrite Hrun. cbn [bind].
      rewrite (set_open_same pos false Ho).
      rewrite open_notional_cons, Ho. cbn [app].
      rewrite Htr, Heq, Hex, Hfst.
      repeat split; auto; try lra.
Qed.

(** Every position the event loop holds sits on a pool that has a row. *)
Lemma pools_seen_snoc (rows : list Row) (r : Row) (ps : list Position) :
  pools_seen rows ps -> pools_seen (rows ++ [r]) ps.
Proof.
  unfold pools_seen. intro H. eapply Forall_impl; [| exact H].
  intros p [r0 Hr0]. rewrite last_row_of_snoc.
  destruct (String.eqb (row_pool r) (pool p)); eauto.
Qed.

Lemma pools_seen_process_row (z_entry : R) (window_sec : Z) (pct : R)
    (rows : list Row) (row : Row) (st st' : State) :
  pools_seen (rows ++ [row]) (open_positions st) ->
  process_row z_entry window_sec pct st row = Ok st' ->
  pools_seen (rows ++ [row]) (open_positions st').
Proof.
  apply (process_row_invariant (fun _ ps => pools_seen (rows ++ [row]) ps)).
  - intros s pre pos post s' pos' H Hm. unfold pools_seen in *.
    apply Forall_app in H. destruct H as [H1 H2].
    inversion H2 as [| ? ? Hpos Hpost]; subst.
    apply Forall_app. split; [exact H1 |]. constructor; [| exact Hpost].
    apply manage_position_inv in Hm.
    destruct Hm as [(_ & Hf & _) | (_ & _ & pos1 & reason & Hf & _ & _ & _ & ->)].
    + rewrite (frame_pool _ _ Hf). exact Hpos.
    + cbn [set_open pool]. rewrite (frame_pool _ _ Hf). exact Hpos.
  - intros p_ref zopt s s' H He. apply try_entry_inv in He.
    destruct He as [-> | (pos & zv & -> & _ & Hp & _)]; [exact H |].
    book_simpl. unfold pools_seen in *. apply Forall_app. split; [exact H |].
    constructor; [| constructor]. exists row.
    rewrite last_row_of_snoc, Hp, String.eqb_refl. reflexivity.
Qed.

Lemma pools_seen_run (z_entry : R) (window_min : Z) (pct : R)
    (all_df : list Row) (st : State) :
  run_events z_entry window_min pct all_df = Ok st ->
  pools_seen all_df (open_positions st).
Proof.
  unfold run_events. revert st.
  induction all_df as [| row rows IH] using rev_ind; intros st H.
  - inversion H. constructor.
  - rewrite for_each_app in H. apply bind_ok_inv in H.
    destruct H as (st0 & H0 & H1). cbn [for_each] in H1.
    apply bind_ok_inv in H1. destruct H1 as (st1 & H1 & H2).
    inversion H2. subst st1.
    eapply pools_seen_process_row; [| exact H1].
    apply pools_seen_snoc. apply IH. exact H0.
Qed.

Lemma run_eod_spec (all_df : list Row) (st : State) :
  pools_seen all_df (open_positions st) ->
  exists st',
    run_eod all_df st = Ok st'
    /\ open_positions st' = map (fun p => set_open p false) (open_positions st)
    /\ trades st'
       = trades st ++ map exit_record (eod_exits all_df (open_positions st))
    /\ equity st'
       = (equity st
          + sum_floats (map exit_pnl (eod_exits all_df (open_positions st))))%R
    /\ exposure st' = (exposure st - open_notional (open_positions st))%R
    /\ map fst (eod_exits all_df (open_positions st))
       = filter open (open_positions st).
Proof.
  intro Hseen.
  destruct (eod_pass_spec all_df (open_positions st) Hseen st)
    as (st1 & Hrun & Htr & Heq & Hex & Hfst).
  exists (set_open_positions st1 (map (fun p => set_open p false) (open_positions st))).
  unfold run_eod. rewrite Hrun. cbn [bind]. book_simpl.
  repeat split; assumption.
Qed.

Lemma closed_all (ps : list Position) :
  Forall (fun p => open p = false) (map (fun p => set_open p false) ps)
  /\ open_notional (map (fun p => set_open p false) ps) = 0%R
  /\ (forall pl, open_on pl (map (fun p => set_open p false) ps) = [])
  /\ map frame (map (fun p => set_open p false) ps) = map frame ps.
Proof.
  induction ps as [| p ps (IH1 & IH2 & IH3 & IH4)]; cbn [map].
  - repeat split; auto.
  - repeat split.
    + constructor; [reflexivity | exact IH1].
    + rewrite open_notional_cons, IH2. cbn [set_open open]. lra.
    + intro pl. unfold open_on in *. cbn [filter set_open open andb].
      apply IH3.
    + rewrite IH4. reflexivity.
Qed.

(** A run that succeeds has passed through the state after each of its
    first [k] rows. *)
Lemma run_events_firstn (z_entry : R) (window_min : Z) (pct : R)
    (all_df : list Row) (st : State) (k : nat) :
  run_events z_entry window_min pct all_df = Ok st ->
  exists st_k,
    run_events z_entry window_min pct (firstn k all_df) = Ok st_k
    /\ for_each (process_row z_entry (window_min * 60) pct)
         (skipn k all_df) st_k = Ok st.
Proof.
  unfold run_events. intro H.
  rewrite <- (firstn_skipn k all_df) in H at 1.
  rewrite for_each_app in H. apply bind_ok_inv in H. exact H.
Qed.

(** C2: after each of the first [k] events of a run, for every [k], and
    after the end-of-data pass, the exposure counter is the sum of the
    notionals of the Open positions, every notional is the position size
    of 1,000, and the counter is at most the capital limit of 20,000. *)
Theorem exposure_matches_open_notional
    (z_entry : R) (window_min : Z) (pct : R) (all_df : list Row) (st : State) :
  run_events z_entry window_min pct all_df = Ok st ->
  (forall k, exists st_k,
      run_events z_entry window_min pct (firstn k all_df) = Ok st_k
      /\ exposure_ok (exposure st_k) (open_positions st_k))
  /\ exposure_ok (exposure st) (open_positions st)
  /\ forall st', run_eod all_df st = Ok st' ->
       exposure_ok (exposure st') (open_positions st').
Proof.
  intro Hrun.
  pose proof (book_inv_run _ _ _ _ _ Hrun) as (Hexp & _ & _).
  split; [| split; [exact Hexp |]].
  { intro k.
    destruct (run_events_firstn _ _ _ _ _ k Hrun) as (st_k & Hk & _).
    exists st_k. split; [exact Hk |].
    apply (book_inv_run _ _ _ _ _ Hk). }
  intros st' Heod.
  destruct (run_eod_spec all_df st (pools_seen_run _ _ _ _ _ Hrun))
    as (st1 & Heod1 & Hps & _ & _ & Hex & _).
  rewrite Heod in Heod1. inversion Heod1. subst st1.
  destruct Hexp as (He & Hall & Hcap).
  destruct (closed_all (open_positions st)) as (_ & Hzero & _ & _).
  rewrite Hps. repeat split.
  - rewrite Hex, Hzero, He. lra.
  - apply Forall_map. cbn [set_open notional]. exact Hall.
  - rewrite Hex, He. unfold CAPITAL_LIMIT_USD. lra.
Qed.

(** C8: after each of the first [k] events of a run, for every [k], and
    after the end-of-data pass, each pool has at most one Open position,
    so any other position of an Open position's pool is Closed; the
    [has_open] flags agree with the positions, and the entry block, which
    reads the flag after the management step, opens a position only on a
    pool without an Open one. *)
Theorem one_open_position_per_pool
    (z_entry : R) (window_min : Z) (pct : R) (all_df : list Row) (st : State) :
  run_events z_entry window_min pct all_df = Ok st ->
  (forall k, exists st_k,
      run_events z_entry window_min pct (firstn k all_df) = Ok st_k
      /\ one_per_pool (open_positions st_k)
      /\ flags_ok (has_open st_k) (open_positions st_k))
  /\ one_per_pool (open_positions st)
  /\ (forall pre pos post q,
        open_positions st = pre ++ pos :: post ->
        open pos = true -> In q (pre ++ post) -> pool q = pool pos ->
        open q = false)
  /\ flags_ok (has_open st) (open_positions st)
  /\ (forall s row p_ref zopt s',
        flags_ok (has_open s) (open_positions s) ->
        try_entry z_entry pct row p_ref zopt s = Ok s' ->
        s' = s
        \/ (open_on (row_pool row) (open_positions s) = []
            /\ exists pos, open_positions s' = open_positions s ++ [pos]
                        /\ pool pos = row_pool row /\ open pos = true))
  /\ forall st', run_eod all_df st = Ok st' ->
       one_per_pool (open_positions st').
Proof.
  intro Hrun.
  pose proof (book_inv_run _ _ _ _ _ Hrun) as (_ & Hone & Hfl).
  split.
  { intro k.
    destruct (run_events_firstn _ _ _ _ _ k Hrun) as (st_k & Hk & _).
    exists st_k. split; [exact Hk |].
    apply (book_inv_run _ _ _ _ _ Hk). }
  split; [exact Hone |]. split; [| split; [exact Hfl | split]].
  - intros pre pos post q Hps Ho Hq Hpool.
    specialize (Hone (pool pos)). rewrite Hps, open_on_mid in Hone.
    rewrite Ho, String.eqb_refl in Hone. cbn [andb] in Hone.
    rewrite !length_app in Hone. cbn [List.length] in Hone.
    destruct (open q) eqn:Hoq; [exfalso | reflexivity].
    assert (Hin : In q (open_on (pool pos) pre) \/ In q (open_on (pool pos) post)).
    { apply in_app_or in Hq. unfold open_on.
      destruct Hq as [Hq | Hq]; [left | right]; apply filter_In;
        (split; [exact Hq |]); rewrite Hoq, Hpool, String.eqb_refl; reflexivity. }
    destruct Hin as [Hin | Hin];
      [destruct (open_on (pool pos) pre) | destruct (open_on (pool pos) post)];
      cbn [List.length] in Hone; try contradiction; lia.
  - intros s row p_ref zopt s' Hs He. apply try_entry_inv in He.
    destruct He as [-> | (pos & zv & -> & Ho & Hp & _ & Hflag & _)];
      [left; reflexivity | right].
    split; [eapply open_on_flag_false; eauto |].
    exists pos. book_simpl. auto.
  - intros st' Heod.
    destruct (run_eod_spec all_df st (pools_seen_run _ _ _ _ _ Hrun))
      as (st1 & Heod1 & Hps & _).
    rewrite Heod in Heod1. inversion Heod1. subst st1.
    destruct (closed_all (open_positions st)) as (_ & _ & Hnone & _).
    intro pl. rewrite Hps, Hnone. cbn. lia.
Qed.


(* ------------------------------------------------------------------ *)
(** ** Frame of a position *)

Lemma frame_process_row (z_entry : R) (window_sec : Z) (pct : R) (row : Row)
    (st st' : State) :
  process_row z_entry window_sec pct st row = Ok st' ->
  exists new, map frame (open_positions st')
              = map frame (open_positions st) ++ map frame new.
Proof.
  intro H.
  apply (process_row_invariant
           (fun _ ps => exists new,
              map frame ps = map frame (open_positions st) ++ map frame new)
           z_entry window_sec pct row) with (st := st) (st' := st').
  - intros s pre pos post s' pos' [new Hn] Hm. exists new. rewrite <- Hn.
    rewrite !map_app. cbn [map]. do 2 f_equal.
    apply manage_position_inv in Hm.
    destruct Hm as [(_ & Hf & _) | (_ & _ & pos1 & reason & Hf & _ & _ & _ & ->)];
      [exact Hf | rewrite <- Hf; reflexivity].
  - intros p_ref zopt s s' [new Hn] He. apply try_entry_inv in He.
    destruct He as [-> | (pos & zv & -> & _)]; [exists new; exact Hn |].
    exists (new ++ [pos]). book_simpl.
    rewrite !map_app, Hn, app_assoc. reflexivity.
  - exists []. cbn [map]. rewrite app_nil_r. reflexivity.
  - exact H.
Qed.

Lemma frame_run_eod (all_df : list Row) (st st' : State) :
  run_eod all_df st = Ok st' ->
  map frame (open_positions st') = map frame (open_positions st).
Proof.
  unfold run_eod. intro H. apply bind_ok_inv in H.
  destruct H as ([st1 ps] & Hp & H). inversion H. subst st'. book_simpl.
  eapply (eod_pass_invariant all_df
            (fun _ l => map frame l = map frame (open_positions st)) _ _ [])
    in Hp; [exact Hp | reflexivity].
  Unshelve.
  intros s pre pos post s' pos' Hq He. rewrite <- Hq.
  rewrite !map_app. cbn [map]. do 2 f_equal.
  apply eod_close_inv in He.
  destruct He as [(_ & _ & ->) | (_ & -> & _)]; reflexivity.
Qed.


(* ------------------------------------------------------------------ *)
(** ** The trade log *)

Lemma open_record_shape (pl dir : string) (ts : Z) (p : R) (tl tu : Z) (z ze : R) :
  is_open_record (open_record pl dir ts p tl tu z ze).
Proof. split; reflexivity. Qed.

Lemma close_record_shape (pos : Position) (ts : Z) (p pnl : R) (reason : string) :
  In reason CLOSE_REASONS ->
  is_close_record (close_record pos ts p pnl reason).
Proof. intro H. split; [reflexivity |]. exists reason. split; [reflexivity | exact H]. Qed.

Lemma trade_shape_process_row (z_entry : R) (window_sec : Z) (pct : R) (row : Row)
    (st st' : State) :
  Forall trade_shape (trades st) ->
  process_row z_entry window_sec pct st row = Ok st' ->
  Forall trade_shape (trades st').
Proof.
  apply (process_row_invariant
           (fun bk _ => Forall trade_shape (snd (fst bk)))
           z_entry window_sec pct row).
  - intros s pre pos post s' pos' Hq Hm. apply manage_position_inv in Hm.
    destruct Hm as [(-> & _) | (_ & _ & pos1 & reason & _ & _ & Hr & -> & _)];
      [exact Hq |].
    book_simpl. cbn [fst snd] in *. apply Forall_app. split; [exact Hq |].
    constructor; [| constructor]. right. apply close_record_shape.
    unfold CLOSE_REASONS. destruct Hr as [-> | ->]; cbn; auto.
  - intros p_ref zopt s s' Hq He. apply try_entry_inv in He.
    destruct He as [-> | (pos & zv & -> & _)]; [exact Hq |].
    book_simpl. cbn [fst snd] in *. apply Forall_app. split; [exact Hq |].
    constructor; [| constructor]. left. apply open_record_shape.
Qed.


(* ------------------------------------------------------------------ *)
(** ** Exit order *)


(* ------------------------------------------------------------------ *)
(** ** The z-score guard *)

(** C7: the z-score never raises; it is undefined when the window holds
    fewer than 10 samples or its sample standard deviation is at most
    1e-12, and is the quotient by the standard deviation only otherwise;
    with an undefined z-score the entry block leaves the state as it is. *)
Theorem zscore_division_guarded (vals : list R) (d : R) :
  is_ok (zscore vals d)
  /\ ((List.length vals < 10)%nat \/ (np_std_ddof1 vals <= 1e-12)%R ->
      zscore vals d = Ok None)
  /\ ((10 <= List.length vals)%nat /\ (np_std_ddof1 vals > 1e-12)%R ->
      np_std_ddof1 vals <> 0%R
      /\ zscore vals d = Ok (Some ((d - np_mean vals) / np_std_ddof1 vals)%R))
  /\ forall z_entry pct row p_ref st,
       try_entry z_entry pct row p_ref None st = Ok st.
Proof.
  assert (Hentry : forall z_entry pct row p_ref st,
             try_entry z_entry pct row p_ref None st = Ok st)
    by reflexivity.
  unfold zscore.
  destruct (Nat.leb_spec 10 (List.length vals)) as [Hlen | Hlen].
  - unfold float_gt.
    destruct (Rlt_dec 1e-12 (np_std_ddof1 vals)) as [Hsd | Hsd].
    + rewrite float_lt_true by exact Hsd.
      assert (Hnz : np_std_ddof1 vals <> 0%R) by lra.
      rewrite py_div_ok by exact Hnz. cbn [bind is_ok].
      split; [exact I |]. split; [| split; [| exact Hentry]].
      * intros [Hc | Hc]; [lia | lra].
      * intros _. split; [exact Hnz | reflexivity].
    + rewrite float_lt_false by lra. cbn [is_ok].
      split; [exact I |]. split; [| split; [| exact Hentry]].
      * intros _. reflexivity.
      * intros [_ Hc]. lra.
  - cbn [is_ok].
    split; [exact I |]. split; [| split; [| exact Hentry]].
    + intros _. reflexivity.
    + intros [Hc _]. lia.
Qed.

(* ------------------------------------------------------------------ *)
(** ** Grid search *)

Lemma incumbent_step (df : list Row) (pre : list (Z * R * R)) (best best' : Best)
    (W : Z) (z rpct : R) :
  incumbent df pre best ->
  grid_cell df W z rpct best = Ok best' ->
  incumbent df (pre ++ [(W, z, rpct)]) best'.
Proof.
  intros Hinc H. unfold grid_cell in H.
  destruct (backtest_lp df z W rpct) as [[roi payload] | e] eqn:Hrun;
    [cbn [bind] in H | discriminate].
  assert (Hroi : cell_roi df (W, z, rpct) = Some roi).
  { unfold cell_roi. rewrite Hrun. reflexivity. }
  assert (Hnew : forall j c, nth_error (pre ++ [(W, z, rpct)]) j = Some c ->
                   (j < List.length pre)%nat /\ nth_error pre j = Some c
                   \/ j = List.length pre /\ c = (W, z, rpct)).
  { intros j c Hj. destruct (Nat.lt_ge_cases j (List.length pre)) as [Hlt | Hge].
    - left. rewrite nth_error_app1 in Hj by exact Hlt. auto.
    - right. rewrite nth_error_app2 in Hj by exact Hge.
      destruct (j - List.length pre)%nat as [| k] eqn:E; cbn in Hj.
      + inversion Hj. split; [lia | reflexivity].
      + destruct k; discriminate. }
  destruct best as [[[b [[z0 W0] r0]] payload0] |].
  - destruct Hinc as (i & Hi & Hrun0 & Hmax).
    assert (Hilt : (i < List.length pre)%nat).
    { apply nth_error_Some. rewrite Hi. discriminate. }
    destruct (float_gt roi b) eqn:Hgt; inversion H; subst best'.
    + apply float_gt_iff in Hgt. exists (List.length pre). split; [| split].
      * rewrite nth_error_app2 by lia. rewrite Nat.sub_diag. reflexivity.
      * exact Hrun.
      * intros j c Hj. destruct (Hnew j c Hj) as [[Hlt Hc] | [-> ->]].
        -- destruct (Hmax j c Hc) as (r1 & Hr1 & Hle & _).
           exists r1. repeat split; auto; lra.
        -- exists roi. repeat split; auto; [lra | lia].
    + assert (Hle : (roi <= b)%R).
      { unfold float_gt, float_lt in Hgt.
        destruct (Rlt_dec b roi); [discriminate | lra]. }
      exists i. split; [| split].
      * rewrite nth_error_app1 by exact Hilt. exact Hi.
      * exact Hrun0.
      * intros j c Hj. destruct (Hnew j c Hj) as [[Hlt Hc] | [-> ->]].
        -- apply Hmax. exact Hc.
        -- exists roi. repeat split; auto. lia.
  - cbn in Hinc. subst pre. inversion H. subst best'.
    exists 0%nat. split; [reflexivity | split; [exact Hrun |]].
    intros j c Hj. destruct (Hnew j c Hj) as [[Hlt _] | [-> ->]];
      [cbn in Hlt; lia |].
    exists roi. repeat split; auto; [lra | lia].
Qed.

Lemma incumbent_flat (df : list Row) (combos pre : list (Z * R * R))
    (best best' : Best) :
  incumbent df pre best ->
  grid_search_flat df combos best = Ok best' ->
  incumbent df (pre ++ combos) best'.
Proof.
  revert pre best. induction combos as [| [[W z] r] combos IH];
    intros pre best Hinc H; cbn [grid_search_flat for_each] in H.
  - inversion H. subst. rewrite app_nil_r. exact Hinc.
  - apply bind_ok_inv in H. destruct H as (b1 & H1 & H2).
    apply (incumbent_step _ _ _ _ _ _ _ Hinc) in H1.
    specialize (IH _ _ H1 H2). rewrite <- app_assoc in IH. exact IH.
Qed.

Lemma grid_search_flat_total (df : list Row) (combos : list (Z * R * R)) :
  Forall (fun c => cell_roi df c <> None) combos ->
  forall best, exists best',
    grid_search_flat df combos best = Ok best'
    /\ (combos <> [] -> best' <> None).
Proof.
  induction combos as [| [[W z] r] combos IH]; intros Hall best.
  - exists best. split; [reflexivity | congruence].
  - inversion Hall as [| ? ? Hc Hrest]; subst.
    cbn [grid_search_flat for_each]. unfold grid_cell at 1.
    unfold cell_roi in Hc.
    destruct (backtest_lp df z W r) as [[roi payload] | e]; [| congruence].
    cbn [bind].
    assert (Hsome : exists b1,
              match best with
              | Some (b, _, _) =>
                  if float_gt roi b
                  then Ok (Some (roi, (z, W, r), payload))
                  else Ok best
              | None => Ok (Some (roi, (z, W, r), payload))
              end = Ok (Some b1)).
    { destruct best as [[[b t] p] |]; [destruct (float_gt roi b) |]; eauto. }
    destruct Hsome as [b1 ->]. cbn [bind].
    destruct (IH Hrest (Some b1)) as (best' & Hrun & Hne).
    exists best'. split; [exact Hrun |]. intros _.
    destruct combos as [| c combos'].
    + cbn in Hrun. inversion Hrun. discriminate.
    + apply Hne. discriminate.
Qed.

Lemma for_each_ext {A S : Type} (f g : S -> A -> result S) (l : list A) (s : S) :
  (forall s x, f s x = g s x) -> for_each f l s = for_each g l s.
Proof.
  intro H. revert s. induction l as [| x l IH]; intro s; cbn [for_each].
  - reflexivity.
  - rewrite H. destruct (g s x); cbn [bind]; auto.
Qed.

Lemma for_each_flat_map {A B S : Type} (body : S -> B -> result S)
    (f : A -> list B) (l : list A) (s : S) :
  for_each body (flat_map f l) s
  = for_each (fun s x => for_each body (f x) s) l s.
Proof.
  revert s. induction l as [| x l IH]; intro s; cbn [flat_map for_each].
  - reflexivity.
  - rewrite for_each_app.
    destruct (for_each body (f x) s); cbn [bind]; auto.
Qed.

Lemma for_each_map {A B S : Type} (body : S -> B -> result S)
    (g : A -> B) (l : list A) (s : S) :
  for_each body (map g l) s = for_each (fun s x => body s (g x)) l s.
Proof.
  revert s. induction l as [| x l IH]; intro s; cbn [map for_each].
  - reflexivity.
  - destruct (body s (g x)); cbn [bind]; auto.
Qed.

Lemma grid_search_flat_eq (df : list Row) :
  grid_search df = grid_search_flat df grid_combos None.
Proof.
  unfold grid_search, grid_search_flat, grid_combos.
  rewrite for_each_flat_map. apply for_each_ext. intros best W.
  rewrite for_each_flat_map. apply for_each_ext. intros best1 z.
  rewrite for_each_map. reflexivity.
Qed.

(** C6: the grid runs over the combinations in the nested order window,
    then z, then range; when every cell's run succeeds [main] returns, and
    the combination it returns is one of the grid, with the roi of its own
    run, which no combination exceeds and no earlier combination reaches:
    the incumbent is replaced on strictly greater roi only. *)
Theorem grid_search_keeps_first_maximum (df : list Row) :
  grid_combos =
    [ (5, 1.25%R, 0.0005%R);
      (5, 1.25%R, 0.0010%R);
      (5, 1.5%R, 0.0005%R);
      (5, 1.5%R, 0.0010%R);
      (5, 1.75%R, 0.0005%R);
      (5, 1.75%R, 0.0010%R);
      (5, 2.0%R, 0.0005%R);
      (5, 2.0%R, 0.0010%R);
      (5, 2.5%R, 0.0005%R);
      (5, 2.5%R, 0.0010%R);
      (10, 1.25%R, 0.0005%R);
      (10, 1.25%R, 0.0010%R);
      (10, 1.5%R, 0.0005%R);
      (10, 1.5%R, 0.0010%R);
      (10, 1.75%R, 0.0005%R);
      (10, 1.75%R, 0.0010%R);
      (10, 2.0%R, 0.0005%R);
      (10, 2.0%R, 0.0010%R);
      (10, 2.5%R, 0.0005%R);
      (10, 2.5%R, 0.0010%R);
      (15, 1.25%R, 0.0005%R);
      (15, 1.25%R, 0.0010%R);
      (15, 1.5%R, 0.0005%R);
      (15, 1.5%R, 0.0010%R);
      (15, 1.75%R, 0.0005%R);
      (15, 1.75%R, 0.0010%R);
      (15, 2.0%R, 0.0005%R);
      (15, 2.0%R, 0.0010%R);
      (15, 2.5%R, 0.0005%R);
      (15, 2.5%R, 0.0010%R) ]
  /\ grid_search df = grid_search_flat df grid_combos None
  /\ (Forall (fun c => cell_roi df c <> None) grid_combos -> is_ok (main df))
  /\ forall z W rpct payload,
       main df = Ok ((z, W, rpct), payload) ->
       exists i roi,
         nth_error grid_combos i = Some (W, z, rpct)
         /\ backtest_lp df z W rpct = Ok (roi, payload)
         /\ forall j c, nth_error grid_combos j = Some c ->
              exists roi', cell_roi df c = Some roi'
                        /\ (roi' <= roi)%R /\ ((j < i)%nat -> (roi' < roi)%R).
Proof.
  pose proof (grid_search_flat_eq df) as Hflat.
  split; [reflexivity |]. split; [exact Hflat |]. split.
  - intro Hall. unfold main. rewrite Hflat.
    destruct (grid_search_flat_total df grid_combos Hall None)
      as (best' & Hrun & Hne).
    rewrite Hrun. cbn [bind].
    destruct best' as [[[b t] p] |]; [exact I |].
    exfalso. apply Hne; [discriminate | reflexivity].
  - intros z W rpct payload Hmain. unfold main in Hmain. rewrite Hflat in Hmain.
    apply bind_ok_inv in Hmain. destruct Hmain as (best & Hrun & Hsel).
    apply (incumbent_flat df grid_combos [] None best eq_refl) in Hrun.
    cbn [app] in Hrun.
    destruct best as [[[b [[z0 W0] r0]] p0] |]; [| discriminate].
    inversion Hsel. subst. destruct Hrun as (i & Hi & Hb & Hmax).
    exists i, b. auto.
Qed.

(* ------------------------------------------------------------------ *)
(** ** The worked run *)

Lemma usd_per_eth_from_tick_0 : usd_per_eth_from_tick 0 = 1%R.
Proof.
  unfold usd_per_eth_from_tick. rewrite Ropp_0, Rmult_0_l. apply exp_0.
Qed.

Lemma LOG_1_0001_lower : (0.00009 < LOG_1_0001)%R.
Proof.
  unfold LOG_1_0001.
  pose proof (exp_ineq1_le (- ln 1.0001)) as H.
  rewrite exp_Ropp, exp_ln in H by lra. lra.
Qed.

Lemma scenario_price_lower : (1.04 < scenario_price)%R.
Proof.
  unfold scenario_price, usd_per_eth_from_tick.
  pose proof LOG_1_0001_lower as HL.
  pose proof (exp_ineq1_le (- IZR (-500) * LOG_1_0001)) as H.
  replace (- IZR (-500))%R with 500%R in * by lra.
  lra.
Qed.

Lemma np_median_3 (a b : R) : (a <= b)%R -> np_median [a; a; b] = a.
Proof.
  intro H. unfold np_median, sort_floats. cbn [fold_right insert_sorted].
  rewrite (float_le_true a b) by exact H. cbn [insert_sorted].
  rewrite (float_le_true a a) by lra. reflexivity.
Qed.

Lemma ln_le_compat (x y : R) : (0 < x)%R -> (x <= y)%R -> (ln x <= ln y)%R.
Proof.
  intros Hx [Hlt | ->]; [left; apply ln_increasing; assumption | right; reflexivity].
Qed.

(** On spacing 10 a target of at most 0.10% asks for no more than one
    spacing unit, so the width is the spacing. *)
Lemma width_ticks_spacing_10 (pct : R) :
  (-1 < pct <= 0.001)%R -> width_ticks pct 10 = 10.
Proof.
  intros [Hlo Hhi]. unfold width_ticks.
  assert (Hq : (ln (1 + pct) / ln 1.0001 <= 10)%R).
  { pose proof LOG_1_0001_pos as HL. unfold LOG_1_0001 in HL.
    apply (Rmult_le_reg_r (ln 1.0001)); [exact HL |].
    unfold Rdiv. rewrite Rmult_assoc, Rinv_l, Rmult_1_r by lra.
    replace (10 * ln 1.0001)%R with (INR 10 * ln 1.0001)%R
      by (simpl INR; lra).
    rewrite <- ln_pow by lra.
    apply ln_le_compat; [lra |].
    pose proof (poly 10 0.0001 ltac:(lra)) as Hp.
    replace (1 + 0.0001)%R with 1.0001%R in Hp by lra.
    simpl INR in Hp. lra. }
  apply Zceil_le in Hq.
  rewrite (Zceil_eq 10 10) in Hq by lra. lia.
Qed.

Lemma scenario_lower_eq (pct : R) :
  (-1 < pct <= 0.001)%R -> scenario_lower pct = -520.
Proof.
  intro H. unfold scenario_lower. rewrite width_ticks_spacing_10 by exact H.
  reflexivity.
Qed.

Lemma scenario_mean : np_mean scenario_window = ((scenario_price - 1) / 10)%R.
Proof.
  unfold np_mean, scenario_window, sum_floats.
  cbn [fold_right List.length]. simpl INR. field.
Qed.

Lemma scenario_std_sqr :
  (np_std_ddof1 scenario_window * np_std_ddof1 scenario_window
   = (scenario_price - 1) * (scenario_price - 1) / 10)%R
  /\ (0 <= np_std_ddof1 scenario_window)%R.
Proof.
  unfold np_std_ddof1. rewrite scenario_mean.
  unfold scenario_window, sum_floats.
  cbn [map fold_right List.length Nat.sub]. simpl INR.
  split; [| apply sqrt_pos].
  rewrite sqrt_def.
  - field.
  - pose proof scenario_price_lower. nra.
Qed.

Lemma scenario_std_lower : (0.01 < np_std_ddof1 scenario_window)%R.
Proof.
  destruct scenario_std_sqr as [Hsq Hpos].
  pose proof scenario_price_lower. nra.
Qed.

Lemma scenario_z_lower : (2.8 < scenario_z)%R.
Proof.
  unfold scenario_z. rewrite scenario_mean.
  destruct scenario_std_sqr as [Hsq Hpos].
  pose proof scenario_std_lower as Hsd.
  pose proof scenario_price_lower as Hp.
  apply (Rmult_lt_reg_r (np_std_ddof1 scenario_window)); [lra |].
  unfold Rdiv at 1. rewrite Rmult_assoc, Rinv_l, Rmult_1_r by lra.
  nra.
Qed.

Lemma scenario_warmup_run (z_entry : R) (W : Z) (pct : R) :
  In W WINDOW_MINUTES ->
  run_events z_entry W pct scenario_warmup = Ok scenario_mid.
Proof.
  intro HW. unfold run_events, scenario_warmup.
  destruct HW as [<- | [<- | [<- | []]]]; engine_cbv;
    rewrite usd_per_eth_from_tick_0, (np_median_3 1 1) by lra;
    rewrite Rminus_diag; reflexivity.
Qed.

Lemma scenario_liquidity (pct : R) :
  (-1 < pct <= 0.001)%R ->
  L_from_amounts_single_side (scenario_lower pct) (-510) None
    (Some (POSITION_SIZE_USD / scenario_price)%R)
  = Ok (L_user (scenario_position pct)).
Proof.
  intro H. unfold L_from_amounts_single_side. apply py_div_ok.
  rewrite scenario_lower_eq by exact H.
  pose proof (sqrt_ratio_from_tick_lt (-520) (-510) ltac:(lia)). lra.
Qed.

Lemma scenario_jump_run (z_entry : R) (W : Z) (pct : R) :
  In W WINDOW_MINUTES ->
  (z_entry <= 2.8)%R -> (-1 < pct <= 0.001)%R ->
  process_row z_entry (W * 60) pct scenario_mid scenario_jump
  = Ok (scenario_state z_entry pct).
Proof.
  intros HW Hz Hpct.
  pose proof scenario_price_lower as Hp.
  pose proof scenario_std_lower as Hsd.
  pose proof scenario_z_lower as Hzl.
  unfold scenario_mid, scenario_jump.
  destruct HW as [<- | [<- | [<- | []]]]; engine_cbv.
  all: fold scenario_price;
    rewrite (np_median_3 1 scenario_price) by lra;
    fold scenario_window;
    unfold float_gt;
    rewrite (float_lt_true 1e-12 (np_std_ddof1 scenario_window)) by lra;
    rewrite py_div_ok by lra; fold scenario_z;
    rewrite (float_lt_true z_entry (Rabs scenario_z))
      by (rewrite Rabs_pos_eq; lra);
    rewrite (float_le_true (0 + POSITION_SIZE_USD) CAPITAL_LIMIT_USD)
      by (unfold POSITION_SIZE_USD, CAPITAL_LIMIT_USD; lra);
    rewrite (float_lt_true 1 scenario_price) by lra;
    replace (parse_fee_from_pool "USDC500") with (Ok 500) by reflexivity;
    destruct (align_ticks_for_range_eval (-500) 500 10 pct eq_refl
                ltac:(lra)) as [Hdown _];
    change (plan_range_spec (-500) 10 (width_ticks pct 10) Below)
      with (scenario_lower pct, -510) in Hdown;
    rewrite Hdown; cbv beta iota;
    rewrite py_div_ok by lra;
    rewrite scenario_liquidity by exact Hpct;
    reflexivity.
Qed.

Lemma scenario_run (z_entry : R) (W : Z) (pct : R) :
  In W WINDOW_MINUTES ->
  (z_entry <= 2.8)%R -> (-1 < pct <= 0.001)%R ->
  run_events z_entry W pct scenario = Ok (scenario_state z_entry pct).
Proof.
  intros HW Hz Hpct. unfold run_events, scenario. rewrite for_each_app.
  pose proof (scenario_warmup_run z_entry W pct HW) as Hw.
  unfold run_events in Hw. rewrite Hw. cbn [bind for_each].
  rewrite scenario_jump_run by assumption. reflexivity.
Qed.

Lemma window_10 : In 10 WINDOW_MINUTES.
Proof. right. left. reflexivity. Qed.

Lemma scenario_pnl (pct : R) :
  (-1 < pct <= 0.001)%R ->
  pnl_at (scenario_position pct) (-500) scenario_price = 0%R.
Proof.
  intro H. pose proof scenario_price_lower as Hp.
  pose proof (sqrt_ratio_from_tick_lt (-520) (-510) ltac:(lia)) as Hs.
  unfold pnl_at, position_pnl, amounts_at_price, scenario_position.
  cbn [L_user tick_lower tick_upper notional fees_usd].
  rewrite scenario_lower_eq by exact H.
  replace (-500 <=? -520) with false by reflexivity.
  replace (-500 >=? -510) with true by reflexivity.
  cbn [bind]. unfold POSITION_SIZE_USD. field. lra.
Qed.

Lemma scenario_eod_run (z_entry pct : R) :
  (-1 < pct <= 0.001)%R ->
  run_eod scenario (scenario_state z_entry pct) = Ok (scenario_final z_entry pct).
Proof.
  intro H. unfold run_eod, scenario_state. cbn [open_positions eod_pass].
  rewrite (eod_close_seen scenario _ (scenario_position pct) scenario_jump
             eq_refl eq_refl).
  cbn [bind]. unfold scenario_jump at 3 4. cbn [mk_row row_tick row_usd_per_eth].
  fold scenario_price. rewrite scenario_pnl by exact H.
  reflexivity.
Qed.

(* ------------------------------------------------------------------ *)
(** ** The properties on the worked run *)

Lemma exposure_matches_open_notional_witness :
  exposure_ok (exposure (scenario_state 1.5 0.001))
    (open_positions (scenario_state 1.5 0.001))
  /\ exposure_ok (exposure (scenario_final 1.5 0.001))
       (open_positions (scenario_final 1.5 0.001)).
Proof.
  destruct (exposure_matches_open_notional 1.5 10 0.001 scenario _
              (scenario_run 1.5 10 0.001 window_10 ltac:(lra) ltac:(lra)))
    as (_ & H1 & H2).
  split; [exact H1 |].
  exact (H2 _ (scenario_eod_run 1.5 0.001 ltac:(lra))).
Defined.

Lemma one_open_position_per_pool_witness :
  one_per_pool (open_positions (scenario_state 1.5 0.001))
  /\ one_per_pool (open_positions (scenario_final 1.5 0.001)).
Proof.
  destruct (one_open_position_per_pool 1.5 10 0.001 scenario _
              (scenario_run 1.5 10 0.001 window_10 ltac:(lra) ltac:(lra)))
    as (_ & H1 & _ & _ & _ & H2).
  split; [exact H1 |].
  exact (H2 _ (scenario_eod_run 1.5 0.001 ltac:(lra))).
Defined.





Lemma scenario_adverse_price :
  row_usd_per_eth scenario_adverse = (scenario_price * scenario_price)%R.
Proof.
  unfold scenario_adverse, scenario_price.
  cbn [mk_row row_usd_per_eth]. unfold usd_per_eth_from_tick.
  rewrite <- exp_plus. f_equal.
  replace (IZR (-1000)) with (IZR (-500) + IZR (-500))%R by lra. ring.
Qed.


Lemma zscore_division_guarded_witness :
  zscore scenario_window (scenario_price - 1) = Ok (Some scenario_z)
  /\ zscore [1%R; 2%R] 0 = Ok None.
Proof.
  destruct (zscore_division_guarded scenario_window (scenario_price - 1))
    as (_ & _ & H & _).
  destruct (zscore_division_guarded [1%R; 2%R] 0) as (_ & H0 & _).
  split.
  - apply H. split; [cbn; lia |]. pose proof scenario_std_lower. lra.
  - apply H0. left. cbn. lia.
Defined.

Lemma scenario_backtest (z_entry : R) (W : Z) (pct : R) :
  In W WINDOW_MINUTES ->
  (z_entry <= 2.8)%R -> (-1 < pct <= 0.001)%R ->
  backtest_lp scenario z_entry W pct
  = Ok (scenario_roi, scenario_payload z_entry W pct).
Proof.
  intros HW Hz Hpct. unfold backtest_lp.
  rewrite scenario_run by assumption. cbn [bind].
  rewrite scenario_eod_run by assumption. cbn [bind].
  rewrite py_div_ok by (unfold CAPITAL_LIMIT_USD; lra).
  reflexivity.
Qed.

Lemma scenario_main :
  main scenario = Ok ((1.25%R, 5, 0.0005%R), scenario_payload 1.25 5 0.0005).
Proof.
  unfold main, grid_search, WINDOW_MINUTES, Z_CANDIDATES, RANGE_PCT_CAND.
  cbn [for_each]. unfold grid_cell.
  repeat (rewrite scenario_backtest
            by (first [ cbn; tauto | lra ]);
          cbn [bind];
          try rewrite (float_lt_false scenario_roi scenario_roi) by lra).
  unfold float_gt.
  repeat (rewrite (float_lt_false scenario_roi scenario_roi) by lra;
          cbn [bind]).
  reflexivity.
Qed.

Lemma grid_search_keeps_first_maximum_witness :
  exists i roi,
    nth_error grid_combos i = Some (5, 1.25%R, 0.0005%R)
    /\ backtest_lp scenario 1.25 5 0.0005
       = Ok (roi, scenario_payload 1.25 5 0.0005)
    /\ forall j c, nth_error grid_combos j = Some c ->
         exists roi', cell_roi scenario c = Some roi'
                   /\ (roi' <= roi)%R /\ ((j < i)%nat -> (roi' < roi)%R).
Proof.
  exact (proj2 (proj2 (proj2 (grid_search_keeps_first_maximum scenario)))
           1.25%R 5 0.0005%R (scenario_payload 1.25 5 0.0005) scenario_main).
Defined.

(* ================================================================== *)
(** * Further properties of the price model *)




(** X3: [align_ticks_for_range] returns exactly when the fee tier is in
    the spacing table and [1 + target_pct] is positive; an unknown fee
    tier raises [KeyError] (whatever the target), a target of -1 or less
    on a known tier raises [ValueError]. *)
Theorem align_ticks_for_range_errors (t f : Z) (pct : R) (d : string) :
  (dict_get Z.eqb TICK_SPACING_MAP f = None ->
   align_ticks_for_range t f pct d = Raise KeyError)
  /\ (dict_get Z.eqb TICK_SPACING_MAP f <> None -> (pct <= -1)%R ->
      align_ticks_for_range t f pct d = Raise ValueError)
  /\ (is_ok (align_ticks_for_range t f pct d)
      <-> dict_get Z.eqb TICK_SPACING_MAP f <> None /\ (-1 < pct)%R).
Proof.
  unfold align_ticks_for_range, dict_lookup.
  destruct (dict_get Z.eqb TICK_SPACING_MAP f) as [s |] eqn:Hf; cbn [bind].
  - split; [discriminate |].
    destruct (Rlt_dec (-1) pct) as [Hp | Hp].
    + destruct (width_ticks_eq pct s Hp) as (q & Hlog & Hdiv & _).
      rewrite Hlog. cbn [bind]. rewrite Hdiv. cbn [bind].
      split; [intros _ Hc; lra |].
      split; [intros _; split; [discriminate | exact Hp] | intros _].
      destruct (String.eqb d "down"); exact I.
    + assert (Hlog : math_log (1.0 + pct) = Raise ValueError).
      { unfold math_log. destruct (Rlt_dec 0 (1.0 + pct)); [lra | reflexivity]. }
      rewrite Hlog. cbn [bind is_ok].
      split; [reflexivity |]. split; [contradiction | intros [_ Hc]; lra].
  - split; [reflexivity |]. split; [congruence |].
    cbn [is_ok]. split; [contradiction | intros [Hc _]; congruence].
Qed.

Lemma align_ticks_for_range_errors_witness :
  align_ticks_for_range 0 7 0 "up" = Raise KeyError
  /\ align_ticks_for_range 0 500 (-1) "up" = Raise ValueError.
Proof.
  destruct (align_ticks_for_range_errors 0 7 0 "up") as (H1 & _ & _).
  destruct (align_ticks_for_range_errors 0 500 (-1) "up") as (_ & H2 & _).
  split; [apply H1; reflexivity |].
  apply H2; [discriminate | lra].
Defined.

Lemma aligned_mul (s k : Z) : 0 < s -> aligned s (k * s).
Proof. intro H. unfold aligned. apply Z.mod_mul. lia. Qed.

Lemma aligned_add (s a b : Z) :
  0 < s -> aligned s a -> aligned s b -> aligned s (a + b).
Proof.
  unfold aligned. intros Hs Ha Hb.
  rewrite Z.add_mod, Ha, Hb by lia. apply Z.mod_0_l. lia.
Qed.

Lemma aligned_sub (s a b : Z) :
  0 < s -> aligned s a -> aligned s b -> aligned s (a - b).
Proof.
  unfold aligned. intros Hs Ha Hb.
  rewrite Zminus_mod, Ha, Hb. apply Z.mod_0_l. lia.
Qed.

Lemma align_ticks_for_range_shape (t f : Z) (pct : R) (d : string) (lo up : Z) :
  align_ticks_for_range t f pct d = Ok (lo, up) ->
  exists s w,
    dict_get Z.eqb TICK_SPACING_MAP f = Some s /\ 0 < s /\ s <= w
    /\ (if String.eqb d "down"
        then up = (t / s) * s - s /\ lo = up - round_down w s
        else lo = ((t + s) / s) * s /\ up = lo + round_down w s).
Proof.
  unfold align_ticks_for_range, dict_lookup.
  destruct (dict_get Z.eqb TICK_SPACING_MAP f) as [s |] eqn:Hf;
    [cbn [bind] | discriminate].
  pose proof (tick_spacing_pos _ _ Hf) as Hs.
  intro H. apply bind_ok_inv in H. destruct H as (lg & _ & H).
  apply bind_ok_inv in H. destruct H as (q & _ & H).
  exists s, (Z.max (math_ceil q) s).
  pose proof (round_down_width_pos (math_ceil q) s Hs) as Hrd.
  unfold round_down in *.
  split; [reflexivity |]. split; [exact Hs |]. split; [lia |].
  destruct (String.eqb d "down").
  - destruct (Z.geb_spec
                (t / s * s - s - Z.max (math_ceil q) s / s * s)
                (t / s * s - s)); [lia |].
    inversion H. auto.
  - destruct (Z.geb_spec ((t + s) / s * s)
                ((t + s) / s * s + Z.max (math_ceil q) s / s * s)); [lia |].
    inversion H. auto.
Qed.

Lemma align_ticks_for_range_range (t f : Z) (pct : R) (d : string) (lo up : Z) :
  align_ticks_for_range t f pct d = Ok (lo, up) ->
  exists s,
    dict_get Z.eqb TICK_SPACING_MAP f = Some s
    /\ aligned s lo /\ aligned s up /\ lo + s <= up
    /\ (if String.eqb d "down"
        then up + s <= t < up + 2 * s
        else t < lo <= t + s).
Proof.
  intro H. apply align_ticks_for_range_shape in H.
  destruct H as (s & w & Hf & Hs & Hw & Hd).
  exists s. split; [exact Hf |].
  assert (Hrd : s <= round_down w s).
  { unfold round_down. assert (1 <= w / s) by (apply Z.div_le_lower_bound; lia).
    nia. }
  assert (Hra : aligned s (round_down w s)) by (apply aligned_mul; exact Hs).
  assert (Hsa : aligned s s).
  { unfold aligned. apply Z.mod_same. lia. }
  destruct (String.eqb d "down").
  - destruct Hd as [-> ->].
    assert (Hua : aligned s (t / s * s - s)).
    { apply aligned_sub; auto. apply aligned_mul; exact Hs. }
    split; [apply aligned_sub; auto |]. split; [exact Hua |].
    split; [lia |].
    pose proof (Z.div_mod t s ltac:(lia)) as Hdm.
    pose proof (Z.mod_pos_bound t s Hs) as Hb. nia.
  - destruct Hd as [-> ->].
    assert (Hla : aligned s ((t + s) / s * s)) by (apply aligned_mul; exact Hs).
    split; [exact Hla |]. split; [apply aligned_add; auto |].
    split; [lia |]. apply floor_aligned_above. exact Hs.
Qed.

(** X4: whatever the direction string, a planned range is a proper,
    spacing-aligned interval at least one spacing wide that leaves the
    entry tick outside: a "down" range ends at least one spacing and less
    than two spacings below the entry tick, any other range starts
    strictly above it, at most one spacing away. *)
Theorem align_ticks_for_range_valid (t f : Z) (pct : R) (d : string) (lo up : Z) :
  align_ticks_for_range t f pct d = Ok (lo, up) ->
  exists s,
    dict_get Z.eqb TICK_SPACING_MAP f = Some s
    /\ aligned s lo /\ aligned s up /\ lo + s <= up
    /\ (if String.eqb d "down"
        then up + s <= t < up + 2 * s
        else t < lo <= t + s).
Proof. apply align_ticks_for_range_range. Qed.

Lemma align_ticks_for_range_valid_witness :
  exists s,
    dict_get Z.eqb TICK_SPACING_MAP 500 = Some s
    /\ aligned s (-20) /\ aligned s (-10) /\ -20 + s <= -10
    /\ -10 + s <= 5 < -10 + 2 * s.
Proof.
  apply (align_ticks_for_range_valid 5 500 0 "down" (-20) (-10)).
  destruct (align_ticks_for_range_eval 5 500 10 0 eq_refl ltac:(lra))
    as [Hd _].
  rewrite (width_ticks_zero 10) in Hd by lia. exact Hd.
Defined.







(* ================================================================== *)
(** * Further properties of the engine *)

(** The loop body, step by step. *)
Lemma process_row_inv (z_entry : R) (window_sec : Z) (pct : R) (st : State)
    (row : Row) (st' : State) :
  process_row z_entry window_sec pct st row = Ok st' ->
  let st1 := track_row st row in
  ((List.length (latest_price st1) < MIN_POOLS_FOR_REF)%nat /\ st' = st1)
  \/ ((MIN_POOLS_FOR_REF <= List.length (latest_price st1))%nat
      /\ exists zopt st3 ps,
           zscore (map snd (row_window window_sec st1 row))
             (row_deviation st1 row) = Ok zopt
           /\ manage_positions row (window_row window_sec st1 row)
                (open_positions st) = Ok (st3, ps)
           /\ try_entry z_entry pct row (row_reference st1) zopt
                (set_open_positions st3 ps) = Ok st').
Proof.
  intros H st1. unfold process_row in H. fold (track_row st row) in H.
  fold st1 in H.
  destruct (Nat.leb_spec MIN_POOLS_FOR_REF (List.length (latest_price st1)))
    as [Hn | Hn].
  - right. split; [exact Hn |].
    apply bind_ok_inv in H. destruct H as (zopt & Hz & H).
    apply bind_ok_inv in H. destruct H as ([st3 ps] & Hm & H).
    exists zopt, st3, ps. auto.
  - left. split; [exact Hn |]. inversion H. reflexivity.
Qed.

Lemma manage_positions_trackers (row : Row) (st st' : State)
    (ps ps' : list Position) :
  manage_positions row st ps = Ok (st', ps') ->
  trackers st' = trackers st.
Proof.
  intro H.
  apply (manage_positions_invariant row (fun s _ => trackers s = trackers st))
    with (pre := []) (ps := ps) (st := st) (ps' := ps'); [| reflexivity | exact H].
  intros s pre pos post s' pos' Hs Hm. rewrite <- Hs.
  apply manage_position_inv in Hm.
  destruct Hm as [(-> & _) | (_ & _ & pos1 & reason & _ & _ & _ & -> & _)];
    reflexivity.
Qed.

Lemma try_entry_trackers (z_entry pct : R) (row : Row) (p_ref : R)
    (z : option R) (st st' : State) :
  try_entry z_entry pct row p_ref z st = Ok st' ->
  trackers st' = trackers st.
Proof.
  intro H. apply try_entry_inv in H.
  destruct H as [-> | (pos & zv & -> & _)]; reflexivity.
Qed.

(** What one event does to the trackers. *)
Lemma process_row_trackers (z_entry : R) (window_sec : Z) (pct : R) (st : State)
    (row : Row) (st' : State) :
  process_row z_entry window_sec pct st row = Ok st' ->
  let st1 := track_row st row in
  latest_price st' = latest_price st1
  /\ latest_tick st' = latest_tick st1
  /\ diffs_by_pool st'
     = if (MIN_POOLS_FOR_REF <=? List.length (latest_price st1))%nat
       then diffs_by_pool (window_row window_sec st1 row)
       else diffs_by_pool st.
Proof.
  intros H st1. apply process_row_inv in H. fold st1 in H.
  destruct H as [[Hn ->] | (Hn & zopt & st3 & ps & _ & Hm & He)].
  - destruct (Nat.leb_spec MIN_POOLS_FOR_REF (List.length (latest_price st1)));
      [lia | auto].
  - apply manage_positions_trackers in Hm. apply try_entry_trackers in He.
    unfold trackers in *. cbn [set_open_positions latest_price latest_tick
                                diffs_by_pool] in He.
    rewrite Hm in He. inversion He as [[H1 H2 H3]].
    destruct (Nat.leb_spec MIN_POOLS_FOR_REF (List.length (latest_price st1)));
      [auto | lia].
Qed.

(** X8: the loop tracks, for every pool, the price and tick of its last
    row: after a run [latest_price] and [latest_tick] are the dictionaries
    [groupby("pool")[...].last()] computes for the end-of-data pass, so
    the exit price of that pass is the tracked latest price. *)
Theorem latest_price_is_groupby_last
    (z_entry : R) (window_min : Z) (pct : R) (all_df : list Row) (st : State) :
  run_events z_entry window_min pct all_df = Ok st ->
  latest_price st = groupby_last row_usd_per_eth all_df
  /\ latest_tick st = groupby_last row_tick all_df
  /\ forall pool_ r,
       last_row_of pool_ all_df = Some r ->
       dict_get String.eqb (latest_price st) pool_ = Some (row_usd_per_eth r)
       /\ dict_get String.eqb (latest_tick st) pool_ = Some (row_tick r).
Proof.
  intro Hrun.
  assert (H : latest_price st = groupby_last row_usd_per_eth all_df
              /\ latest_tick st = groupby_last row_tick all_df).
  { unfold run_events in Hrun. revert st Hrun.
    induction all_df as [| row rows IH] using rev_ind; intros st Hrun.
    - inversion Hrun. split; reflexivity.
    - rewrite for_each_app in Hrun. apply bind_ok_inv in Hrun.
      destruct Hrun as (st0 & H0 & H1). cbn [for_each] in H1.
      apply bind_ok_inv in H1. destruct H1 as (st1 & H1 & H2).
      inversion H2. subst st1.
      apply process_row_trackers in H1. destruct H1 as (Hp & Ht & _).
      destruct (IH _ H0) as [IHp IHt].
      rewrite Hp, Ht, !groupby_last_snoc. cbn [track_row latest_price latest_tick].
      rewrite IHp, IHt. split; reflexivity. }
  destruct H as [Hp Ht]. split; [exact Hp |]. split; [exact Ht |].
  intros pool_ r Hr. rewrite Hp, Ht, !groupby_last_spec, Hr. split; reflexivity.
Qed.

Lemma latest_price_is_groupby_last_witness :
  latest_price (scenario_state 1.5 0.001)
  = groupby_last row_usd_per_eth scenario.
Proof.
  exact (proj1 (latest_price_is_groupby_last 1.5 10 0.001 scenario _
                  (scenario_run 1.5 10 0.001 window_10 ltac:(lra) ltac:(lra)))).
Defined.

Lemma dict_set_length {V : Type} (d : list (string * V)) (k : string) (v : V) :
  (List.length d <= List.length (dict_set String.eqb d k v))%nat.
Proof.
  induction d as [| [k' v'] d IH]; cbn [dict_set List.length].
  - lia.
  - destruct (String.eqb k' k); cbn [List.length]; lia.
Qed.

Lemma groupby_from_length {V : Type} (col : Row -> V) (rows : list Row)
    (d : list (string * V)) :
  (List.length d
   <= List.length
        (fold_left (fun d row => dict_set String.eqb d (row_pool row) (col row))
           rows d))%nat.
Proof.
  revert d. induction rows as [| r rows IH]; intro d; cbn [fold_left].
  - lia.
  - etransitivity; [apply (dict_set_length d (row_pool r) (col r)) | apply IH].
Qed.

Lemma warmup_run (z_entry : R) (window_sec : Z) (pct : R) (rows pre : list Row) :
  (List.length (groupby_last row_usd_per_eth (pre ++ rows)) < MIN_POOLS_FOR_REF)%nat ->
  for_each (process_row z_entry window_sec pct) rows (warmup_state pre)
  = Ok (warmup_state (pre ++ rows)).
Proof.
  revert pre. induction rows as [| r rows IH]; intros pre Hn; cbn [for_each].
  - rewrite app_nil_r. reflexivity.
  - assert (Hstep : process_row z_entry window_sec pct (warmup_state pre) r
                    = Ok (warmup_state (pre ++ [r]))).
    { unfold process_row, warmup_state.
      cbn [latest_price latest_tick diffs_by_pool open_positions equity
           exposure trades has_open].
      rewrite <- !groupby_last_snoc.
      assert (Hlen : (List.length (groupby_last row_usd_per_eth (pre ++ [r]))
                      < MIN_POOLS_FOR_REF)%nat).
      { eapply Nat.le_lt_trans; [| exact Hn].
        replace (pre ++ r :: rows) with ((pre ++ [r]) ++ rows)
          by (rewrite <- app_assoc; reflexivity).
        unfold groupby_last at 2. rewrite fold_left_app.
        apply groupby_from_length. }
      destruct (Nat.leb_spec MIN_POOLS_FOR_REF
                  (List.length (groupby_last row_usd_per_eth (pre ++ [r]))));
        [lia | reflexivity]. }
    rewrite Hstep. cbn [bind].
    replace (pre ++ r :: rows) with ((pre ++ [r]) ++ rows) in *
      by (rewrite <- app_assoc; reflexivity).
    apply IH. exact Hn.
Qed.

(** X9: while fewer than three distinct pools have reported, the engine
    only tracks prices and ticks: a frame with fewer than three pools
    leaves no window, no position and no trade, and [backtest_lp] returns
    a roi of zero with an empty trade log. *)
Theorem fewer_than_three_pools_no_trade
    (z_entry : R) (window_min : Z) (pct : R) (all_df : list Row) :
  (List.length (groupby_last row_usd_per_eth all_df) < MIN_POOLS_FOR_REF)%nat ->
  run_events z_entry window_min pct all_df = Ok (warmup_state all_df)
  /\ exists payload,
       backtest_lp all_df z_entry window_min pct = Ok (0%R, payload)
       /\ payload_trades payload = []
       /\ record_get (metrics payload) "num_trades" = Some (VInt 0).
Proof.
  intro Hn.
  assert (Hrun : run_events z_entry window_min pct all_df
                 = Ok (warmup_state all_df)).
  { unfold run_events.
    exact (warmup_run z_entry (window_min * 60) pct all_df [] Hn). }
  split; [exact Hrun |].
  unfold backtest_lp. rewrite Hrun. cbn [bind].
  unfold run_eod, warmup_state at 1 2. cbn [open_positions eod_pass bind].
  rewrite py_div_ok by (unfold CAPITAL_LIMIT_USD; lra).
  cbn [bind set_open_positions equity trades].
  replace (0 / CAPITAL_LIMIT_USD)%R with 0%R
    by (unfold CAPITAL_LIMIT_USD; lra).
  eexists. split; [reflexivity |]. split; reflexivity.
Qed.

Lemma fewer_than_three_pools_no_trade_witness :
  run_events 1.5 10 0.001
    [mk_row 0 "USDT500" 0 None 0; mk_row 1 "DAI500" 7 None 0;
     mk_row 2 "USDT500" (-900) None 0]
  = Ok (warmup_state
          [mk_row 0 "USDT500" 0 None 0; mk_row 1 "DAI500" 7 None 0;
           mk_row 2 "USDT500" (-900) None 0]).
Proof.
  apply (fewer_than_three_pools_no_trade 1.5 10 0.001).
  unfold groupby_last, MIN_POOLS_FOR_REF, mk_row.
  cbn [fold_left row_pool dict_set String.eqb Ascii.eqb Bool.eqb List.length].
  lia.
Defined.

(* ------------------------------------------------------------------ *)
(** ** The trade log as a ledger *)

Lemma closed_count_mid (pre post : list Position) (p : Position) :
  closed_count (pre ++ p :: post)
  = (closed_count pre + (if open p then 0 else 1) + closed_count post)%nat.
Proof.
  unfold closed_count. rewrite filter_app, length_app. cbn [filter].
  destruct (open p); cbn [negb List.length]; lia.
Qed.

Lemma log_inv_append_close (eqty e : R) (tr : list TradeRecord)
    (fl fl' : list (string * bool)) (e' : R)
    (pre post : list Position) (pos pos1 : Position) (ts : Z) (p pnl : R)
    (reason : string) :
  open pos = true ->
  log_inv (eqty, e, tr, fl) (pre ++ pos :: post) ->
  log_inv ((eqty + pnl)%R, e', tr ++ [close_record pos1 ts p pnl reason], fl')
          (pre ++ set_open pos1 false :: post).
Proof.
  intros Ho (Heq & Hc & Hl). unfold log_inv.
  rewrite map_app, sum_floats_app, filter_app, !length_app.
  rewrite closed_count_mid, !length_app in *. rewrite Ho in *.
  cbn [set_open open map filter List.length] in *.
  replace (is_closed_trade (close_record pos1 ts p pnl reason)) with true
    by reflexivity.
  replace (record_pnl (close_record pos1 ts p pnl reason)) with pnl
    by reflexivity.
  unfold sum_floats at 2. cbn [fold_right List.length].
  repeat split; [rewrite Heq; lra | lia | lia].
Qed.

Lemma log_inv_manage (row : Row) (st st' : State) (pre post : list Position)
    (pos pos' : Position) :
  log_inv (book st) (pre ++ pos :: post) ->
  manage_position row st pos = Ok (st', pos') ->
  log_inv (book st') (pre ++ pos' :: post).
Proof.
  intros Hinv H. apply manage_position_inv in H.
  destruct H as [(-> & Hf & Ho) | (Ho & _ & pos1 & reason & _ & _ & _ & -> & ->)].
  - unfold book, log_inv in *. rewrite !length_app, closed_count_mid in *.
    cbn [List.length] in *. rewrite Ho. exact Hinv.
  - unfold book, book_close.
    cbn [equity exposure trades has_open].
    eapply log_inv_append_close; [exact Ho | exact Hinv].
Qed.

Lemma log_inv_entry (z_entry pct : R) (row : Row) (p_ref : R) (z : option R)
    (st st' : State) :
  log_inv (book st) (open_positions st) ->
  try_entry z_entry pct row p_ref z st = Ok st' ->
  log_inv (book st') (open_positions st').
Proof.
  intros Hinv H. apply try_entry_inv in H.
  destruct H as [-> | (pos & zv & -> & Ho & _)]; [exact Hinv |].
  unfold book, book_open, log_inv in *.
  cbn [equity exposure trades has_open open_positions] in *.
  destruct Hinv as (Heq & Hc & Hl).
  rewrite map_app, sum_floats_app, filter_app, !length_app.
  replace (closed_count (open_positions st ++ [pos]))
    with (closed_count (open_positions st))
    by (rewrite closed_count_mid, Ho; unfold closed_count; cbn; lia).
  cbn [map filter List.length].
  match goal with
  | |- context [is_closed_trade ?t] =>
      replace (is_closed_trade t) with false by reflexivity;
      replace (record_pnl t) with 0%R by reflexivity
  end.
  unfold sum_floats at 2. cbn [fold_right List.length].
  repeat split; [rewrite Heq; lra | lia | lia].
Qed.

Lemma log_inv_run (z_entry : R) (window_min : Z) (pct : R) (all_df : list Row)
    (st : State) :
  run_events z_entry window_min pct all_df = Ok st ->
  log_inv (book st) (open_positions st).
Proof.
  unfold run_events.
  apply (for_each_invariant _ (fun s => log_inv (book s) (open_positions s))).
  - intros s x s'. apply process_row_invariant.
    + intros. eapply log_inv_manage; eauto.
    + intros. eapply log_inv_entry; eauto.
  - unfold book, log_inv, initial_state, closed_count, sum_floats. cbn. auto.
Qed.

Lemma closed_count_closed (ps : list Position) :
  closed_count (map (fun p => set_open p false) ps) = List.length ps.
Proof.
  unfold closed_count. induction ps as [| p ps IH]; cbn; [reflexivity | lia].
Qed.

Lemma open_closed_count (ps : list Position) :
  (open_count ps + closed_count ps = List.length ps)%nat.
Proof.
  unfold open_count, closed_count.
  induction ps as [| p ps IH]; cbn [filter List.length]; [reflexivity |].
  destruct (open p); cbn [negb List.length]; lia.
Qed.

Lemma exit_records_closed (exits : list (Position * Row)) :
  filter is_closed_trade (map exit_record exits) = map exit_record exits
  /\ sum_floats (map record_pnl (map exit_record exits))
     = sum_floats (map exit_pnl exits).
Proof.
  induction exits as [| x exits [IH1 IH2]]; [split; reflexivity |].
  cbn [map filter].
  replace (is_closed_trade (exit_record x)) with true by reflexivity.
  replace (record_pnl (exit_record x)) with (exit_pnl x) by reflexivity.
  rewrite IH1. unfold sum_floats in *. cbn [fold_right]. rewrite IH2.
  split; reflexivity.
Qed.

Lemma log_inv_run_eod (z_entry : R) (window_min : Z) (pct : R)
    (all_df : list Row) (st st' : State) :
  run_events z_entry window_min pct all_df = Ok st ->
  run_eod all_df st = Ok st' ->
  log_inv (book st') (open_positions st')
  /\ closed_count (open_positions st') = List.length (open_positions st').
Proof.
  intros Hrun Heod.
  pose proof (log_inv_run _ _ _ _ _ Hrun) as (Heq & Hc & Hl).
  destruct (run_eod_spec all_df st (pools_seen_run _ _ _ _ _ Hrun))
    as (st1 & Heod1 & Hps & Htr & Hequ & _ & Hfst).
  rewrite Heod in Heod1. inversion Heod1. subst st1.
  destruct (exit_records_closed (eod_exits all_df (open_positions st)))
    as [Hf Hs].
  assert (Hn : List.length (eod_exits all_df (open_positions st))
               = open_count (open_positions st)).
  { unfold open_count. rewrite <- Hfst, length_map. reflexivity. }
  pose proof (open_closed_count (open_positions st)) as Hoc.
  unfold book, log_inv in *. rewrite Hps, Htr, Hequ, closed_count_closed.
  rewrite map_app, sum_floats_app, filter_app, !length_app, Hf, Hs.
  rewrite !length_map, Hn.
  repeat split; [rewrite Heq; reflexivity | lia | lia].
Qed.

Lemma backtest_lp_inv (all_df : list Row) (z_entry : R) (window_min : Z)
    (pct roi : R) (payload : Payload) :
  backtest_lp all_df z_entry window_min pct = Ok (roi, payload) ->
  exists st st',
    run_events z_entry window_min pct all_df = Ok st
    /\ run_eod all_df st = Ok st'
    /\ roi = (equity st' / CAPITAL_LIMIT_USD)%R
    /\ payload_trades payload = trades st'
    /\ record_get (metrics payload) "equity_usd" = Some (VFloat (equity st'))
    /\ record_get (metrics payload) "roi_on_20k" = Some (VFloat roi)
    /\ record_get (metrics payload) "num_trades"
       = Some (VInt (Z.of_nat
                       (List.length (filter is_closed_trade (trades st'))))).
Proof.
  unfold backtest_lp. intro H.
  apply bind_ok_inv in H. destruct H as (st & Hrun & H).
  apply bind_ok_inv in H. destruct H as (st' & Heod & H).
  apply bind_ok_inv in H. destruct H as (r & Hr & H).
  apply py_div_inv in Hr. destruct Hr as [_ ->].
  inversion H. subst. exists st, st'. repeat split; auto.
Qed.

(** X10: the trade log is a ledger of the equity: after any number of
    events the running equity is the sum of the [pnl_usd] of the logged
    records (open records carry none), and the roi [backtest_lp] returns
    is that sum over the whole log divided by the capital limit; the
    [equity_usd] metric is the same sum. *)
Theorem equity_is_logged_pnl
    (z_entry : R) (window_min : Z) (pct : R) (all_df : list Row) (st : State) :
  run_events z_entry window_min pct all_df = Ok st ->
  equity st = sum_floats (map record_pnl (trades st))
  /\ forall roi payload,
       backtest_lp all_df z_entry window_min pct = Ok (roi, payload) ->
       roi = (sum_floats (map record_pnl (payload_trades payload))
              / CAPITAL_LIMIT_USD)%R
       /\ record_get (metrics payload) "equity_usd"
          = Some (VFloat (sum_floats (map record_pnl (payload_trades payload)))).
Proof.
  intro Hrun. split; [apply (log_inv_run _ _ _ _ _ Hrun) |].
  intros roi payload Hb. apply backtest_lp_inv in Hb.
  destruct Hb as (st0 & st' & Hrun0 & Heod & -> & Htr & Hm & _).
  destruct (log_inv_run_eod _ _ _ _ _ _ Hrun0 Heod) as [(Heq & _) _].
  rewrite Htr, Hm, <- Heq. split; reflexivity.
Qed.

Lemma equity_is_logged_pnl_witness :
  equity (scenario_state 1.5 0.001)
  = sum_floats (map record_pnl (trades (scenario_state 1.5 0.001)))
  /\ scenario_roi
     = (sum_floats (map record_pnl
                      (payload_trades (scenario_payload 1.5 10 0.001)))
        / CAPITAL_LIMIT_USD)%R.
Proof.
  destruct (equity_is_logged_pnl 1.5 10 0.001 scenario _
              (scenario_run 1.5 10 0.001 window_10 ltac:(lra) ltac:(lra)))
    as [H1 H2].
  split; [exact H1 |].
  exact (proj1 (H2 _ _ (scenario_backtest 1.5 10 0.001 window_10
                          ltac:(lra) ltac:(lra)))).
Defined.

(** X11: every position has exactly one open record in the log and every
    Closed position exactly one close record; since the end-of-data pass
    closes what is left, the log [backtest_lp] returns holds as many close
    records as open records, and the [num_trades] metric is that number. *)
Theorem log_counts_positions
    (z_entry : R) (window_min : Z) (pct : R) (all_df : list Row) (st : State) :
  run_events z_entry window_min pct all_df = Ok st ->
  List.length (filter is_closed_trade (trades st))
  = closed_count (open_positions st)
  /\ List.length (filter (fun t => negb (is_closed_trade t)) (trades st))
     = List.length (open_positions st)
  /\ forall roi payload,
       backtest_lp all_df z_entry window_min pct = Ok (roi, payload) ->
       let n := List.length (open_positions st) in
       record_get (metrics payload) "num_trades" = Some (VInt (Z.of_nat n))
       /\ List.length (filter is_closed_trade (payload_trades payload)) = n
       /\ List.length (payload_trades payload) = (2 * n)%nat.
Proof.
  intro Hrun.
  assert (Hsplit : forall tr : list TradeRecord,
             (List.length (filter is_closed_trade tr)
              + List.length (filter (fun t => negb (is_closed_trade t)) tr)
              = List.length tr)%nat).
  { induction tr as [| t tr IH]; cbn [filter List.length]; [reflexivity |].
    destruct (is_closed_trade t); cbn [negb List.length]; lia. }
  pose proof (log_inv_run _ _ _ _ _ Hrun) as (_ & Hc & Hl).
  split; [exact Hc |]. split; [specialize (Hsplit (trades st)); lia |].
  intros roi payload Hb n. apply backtest_lp_inv in Hb.
  destruct Hb as (st0 & st' & Hrun0 & Heod & _ & Htr & _ & _ & Hm).
  rewrite Hrun in Hrun0. inversion Hrun0. subst st0.
  destruct (log_inv_run_eod _ _ _ _ _ _ Hrun Heod) as [(_ & Hc' & Hl') Hall].
  destruct (run_eod_spec all_df st (pools_seen_run _ _ _ _ _ Hrun))
    as (st1 & Heod1 & Hps & _).
  rewrite Heod in Heod1. inversion Heod1. subst st1.
  assert (Hlen : List.length (open_positions st') = n).
  { rewrite Hps, length_map. reflexivity. }
  rewrite Hm, Htr, Hc', Hl', Hall, Hlen. repeat split; lia.
Qed.

Lemma log_counts_positions_witness :
  record_get (metrics (scenario_payload 1.5 10 0.001)) "num_trades"
  = Some (VInt (Z.of_nat (List.length (open_positions (scenario_state 1.5 0.001)))))
  /\ List.length (payload_trades (scenario_payload 1.5 10 0.001)) = 2%nat.
Proof.
  destruct (log_counts_positions 1.5 10 0.001 scenario _
              (scenario_run 1.5 10 0.001 window_10 ltac:(lra) ltac:(lra)))
    as (_ & _ & H).
  destruct (H _ _ (scenario_backtest 1.5 10 0.001 window_10
                     ltac:(lra) ltac:(lra))) as (H1 & _ & H3).
  split; [exact H1 | exact H3].
Defined.

Lemma open_notional_count (ps : list Position) :
  Forall (fun p => notional p = POSITION_SIZE_USD) ps ->
  open_notional ps = (POSITION_SIZE_USD * INR (open_count ps))%R.
Proof.
  unfold open_notional, open_count, sum_floats.
  induction 1 as [| p ps Hp Hall IH]; cbn [filter].
  - cbn. lra.
  - destruct (open p); [| exact IH].
    cbn [map fold_right List.length]. rewrite IH, Hp, S_INR. lra.
Qed.

(** X12: the exposure counter is 1,000 times the number of Open positions,
    so at most 20 positions are Open after any event. *)
Theorem at_most_twenty_open
    (z_entry : R) (window_min : Z) (pct : R) (all_df : list Row) (st : State) :
  run_events z_entry window_min pct all_df = Ok st ->
  exposure st = (1000 * INR (open_count (open_positions st)))%R
  /\ (open_count (open_positions st) <= 20)%nat.
Proof.
  intro Hrun.
  pose proof (book_inv_run _ _ _ _ _ Hrun) as ((He & Hall & Hcap) & _).
  rewrite (open_notional_count _ Hall) in He.
  unfold POSITION_SIZE_USD, CAPITAL_LIMIT_USD in *.
  split; [exact He |].
  apply INR_le. rewrite He in Hcap.
  replace (INR 20) with 20%R by (simpl; lra). lra.
Qed.

Lemma at_most_twenty_open_witness :
  exposure (scenario_state 1.5 0.001)
  = (1000 * INR (open_count (open_positions (scenario_state 1.5 0.001))))%R
  /\ (open_count (open_positions (scenario_state 1.5 0.001)) <= 20)%nat.
Proof.
  exact (at_most_twenty_open 1.5 10 0.001 scenario _
           (scenario_run 1.5 10 0.001 window_10 ltac:(lra) ltac:(lra))).
Defined.

(* ------------------------------------------------------------------ *)
(** ** Positions the entry block builds *)

(** The entry block in full: what it requires and the position it
    appends. *)
Lemma try_entry_position (z_entry pct : R) (row : Row) (p_ref : R)
    (zopt : option R) (st st' : State) :
  try_entry z_entry pct row p_ref zopt st = Ok st' ->
  st' = st
  \/ exists pos zv,
       st' = book_open st pos zv z_entry
       /\ zopt = Some zv /\ (Rabs zv > z_entry)%R
       /\ position_wf pos
       /\ pool pos = row_pool row
       /\ entry_ts pos = row_timestamp row
       /\ entry_tick pos = row_tick row
       /\ entry_price pos = row_usd_per_eth row
       /\ direction pos
          = (if float_gt (row_usd_per_eth row) p_ref then "down" else "up")
       /\ ever_in_range pos = false /\ open pos = true
       /\ fees_usd pos = 0%R.
Proof.
  unfold try_entry. destruct zopt as [zv |]; [| intro H; inversion H; auto].
  destruct (float_gt (Rabs zv) z_entry) eqn:Hz; cbn [andb];
    [| intro H; inversion H; auto].
  apply float_gt_iff in Hz.
  destruct (dict_get_default String.eqb (has_open st) (row_pool row) false);
    cbn [negb]; [intro H; inversion H; auto |].
  destruct (float_le (exposure st + POSITION_SIZE_USD) CAPITAL_LIMIT_USD);
    [| intro H; inversion H; auto].
  intro H. apply bind_ok_inv in H. destruct H as (fee_ & Hfee & H).
  apply bind_ok_inv in H. destruct H as ([tl tu] & Hal & H).
  apply bind_ok_inv in H. destruct H as (Lu & HL & H).
  inversion H. clear H. right. eexists. exists zv.
  split; [reflexivity |]. split; [reflexivity |]. split; [exact Hz |].
  split; [| repeat split; reflexivity].
  unfold position_wf, range_ok, sized.
  cbn [pool fee direction notional tick_lower tick_upper entry_tick
       entry_price L_user].
  split; [exact Hfee |].
  split; [destruct (float_gt (row_usd_per_eth row) p_ref); auto |].
  split; [reflexivity |].
  split; [exact (align_ticks_for_range_range _ _ _ _ _ _ Hal) |].
  destruct (float_gt (row_usd_per_eth row) p_ref);
    cbn [String.eqb Ascii.eqb Bool.eqb] in *.
  - apply bind_ok_inv in HL. destruct HL as (a1 & Ha1 & HL).
    apply py_div_inv in Ha1. destruct Ha1 as [Hne ->].
    split; [exact Hne | exact HL].
  - exact HL.
Qed.

Lemma position_wf_frame (a b : Position) :
  frame a = frame b -> position_wf a -> position_wf b.
Proof.
  unfold frame, position_wf, range_ok, sized. intro H. inversion H.
  repeat match goal with
         | E : _ a = _ b |- _ => rewrite E; clear E
         end.
  auto.
Qed.

Lemma position_wf_process_row (z_entry : R) (window_sec : Z) (pct : R)
    (row : Row) (st st' : State) :
  Forall position_wf (open_positions st) ->
  process_row z_entry window_sec pct st row = Ok st' ->
  Forall position_wf (open_positions st').
Proof.
  apply (process_row_invariant (fun _ ps => Forall position_wf ps)).
  - intros s pre pos post s' pos' H Hm.
    apply Forall_app in H. destruct H as [H1 H2].
    inversion H2 as [| ? ? Hpos Hpost]; subst.
    apply Forall_app. split; [exact H1 |]. constructor; [| exact Hpost].
    apply manage_position_inv in Hm.
    destruct Hm as [(_ & Hf & _) | (_ & _ & pos1 & reason & Hf & _ & _ & _ & ->)].
    + apply (position_wf_frame pos); [symmetry; exact Hf | exact Hpos].
    + apply (position_wf_frame pos); [| exact Hpos].
      rewrite <- Hf. reflexivity.
  - intros p_ref zopt s s' H He. apply try_entry_position in He.
    destruct He as [-> | (pos & zv & -> & _ & _ & Hwf & _)]; [exact H |].
    unfold book_open. cbn [open_positions]. apply Forall_app.
    split; [exact H | constructor; [exact Hwf | constructor]].
Qed.

Lemma position_wf_run (z_entry : R) (window_min : Z) (pct : R)
    (all_df : list Row) (st : State) :
  run_events z_entry window_min pct all_df = Ok st ->
  Forall position_wf (open_positions st).
Proof.
  unfold run_events.
  apply (for_each_invariant _ (fun s => Forall position_wf (open_positions s))).
  - intros s x s'. apply position_wf_process_row.
  - constructor.
Qed.

(** X13: every position a run holds, Open or Closed, keeps the shape the
    entry block gave it: its fee tier is the one parsed from its pool
    name, its direction is "down" or "up", its range is a proper interval
    aligned to the tier's spacing that leaves the entry tick outside
    (below it for "down", above it for "up"), and its notional is the
    position size. *)
Theorem positions_stay_well_formed
    (z_entry : R) (window_min : Z) (pct : R) (all_df : list Row) (st : State) :
  run_events z_entry window_min pct all_df = Ok st ->
  Forall (fun pos =>
            parse_fee_from_pool (pool pos) = Ok (fee pos)
            /\ (direction pos = "down" \/ direction pos = "up")
            /\ notional pos = POSITION_SIZE_USD
            /\ range_ok pos
            /\ tick_lower pos < tick_upper pos
            /\ (direction pos = "down" -> tick_upper pos < entry_tick pos)
            /\ (direction pos = "up" -> entry_tick pos < tick_lower pos))
         (open_positions st).
Proof.
  intro Hrun. eapply Forall_impl; [| exact (position_wf_run _ _ _ _ _ Hrun)].
  intros pos (Hfee & Hdir & Hn & Hr & _).
  split; [exact Hfee |]. split; [exact Hdir |]. split; [exact Hn |].
  split; [exact Hr |].
  destruct Hr as (s & Hs & _ & _ & Hlu & Hside).
  pose proof (tick_spacing_pos _ _ Hs) as Hpos.
  split; [lia |]. split; intro Hd; rewrite Hd in Hside;
    cbn [String.eqb Ascii.eqb Bool.eqb] in Hside; lia.
Qed.

Lemma positions_stay_well_formed_witness :
  tick_lower (scenario_position 0.001) < tick_upper (scenario_position 0.001)
  /\ tick_upper (scenario_position 0.001) < entry_tick (scenario_position 0.001).
Proof.
  pose proof (positions_stay_well_formed 1.5 10 0.001 scenario _
                (scenario_run 1.5 10 0.001 window_10 ltac:(lra) ltac:(lra)))
    as H.
  inversion H as [| p l (_ & _ & _ & _ & Hlt & Hdown & _) _]; subst.
  split; [exact Hlt | exact (Hdown eq_refl)].
Defined.

Lemma sized_value_at_entry (pos : Position) :
  position_wf pos ->
  pnl_at pos (entry_tick pos) (entry_price pos) = fees_usd pos.
Proof.
  intros (_ & Hdir & Hn & (s & Hs & _ & _ & Hlu & Hside) & Hsz).
  pose proof (tick_spacing_pos _ _ Hs) as Hpos.
  assert (Hlt : tick_lower pos < tick_upper pos) by lia.
  pose proof (sqrt_ratio_from_tick_pos (tick_lower pos)) as Hsa.
  pose proof (sqrt_ratio_from_tick_pos (tick_upper pos)) as Hsb.
  pose proof (sqrt_ratio_from_tick_lt _ _ Hlt) as Hab.
  unfold pnl_at, position_pnl, amounts_at_price, sized,
    L_from_amounts_single_side in *.
  rewrite Hn. unfold POSITION_SIZE_USD in *.
  destruct Hdir as [Hd | Hd]; rewrite Hd in *;
    cbn [String.eqb Ascii.eqb Bool.eqb] in *.
  - destruct Hsz as [Hne HL]. rewrite py_div_ok in HL by lra.
    inversion HL as [HLu]. clear HL.
    destruct (Z.leb_spec (entry_tick pos) (tick_lower pos)); [lia |].
    destruct (Z.geb_spec (entry_tick pos) (tick_upper pos)); [| lia].
    cbn [bind]. field. split; [exact Hne | lra].
  - rewrite py_div_ok in Hsz by lra. inversion Hsz as [HLu]. clear Hsz.
    destruct (Z.leb_spec (entry_tick pos) (tick_lower pos)); [| lia].
    rewrite py_div_ok by nra. cbn [bind]. field. lra.
Qed.



(* ------------------------------------------------------------------ *)
(** ** The engine never raises on well-formed frames *)

Lemma fee_tier_of_spacing (f s : Z) :
  dict_get Z.eqb TICK_SPACING_MAP f = Some s ->
  exists r, dict_get Z.eqb FEE_TIER_MAP f = Some r /\ (0 < r)%R.
Proof.
  unfold TICK_SPACING_MAP, FEE_TIER_MAP. cbn [dict_get].
  repeat (destruct (_ =? f); [intros _; eexists; split; [reflexivity | lra] |]).
  discriminate.
Qed.

Lemma zscore_ok (vals : list R) (d : R) : exists zopt, zscore vals d = Ok zopt.
Proof.
  unfold zscore. destruct (10 <=? List.length vals)%nat; [| eauto].
  unfold float_gt. destruct (Rlt_dec 1e-12 (np_std_ddof1 vals)) as [H | H].
  - rewrite float_lt_true by exact H. rewrite py_div_ok by lra.
    cbn [bind]. eauto.
  - rewrite float_lt_false by lra. eauto.
Qed.

Lemma accrue_fees_ok (row : Row) (pos : Position) (s : Z) :
  dict_get Z.eqb TICK_SPACING_MAP (fee pos) = Some s ->
  exists pos', accrue_fees row pos = Ok pos'.
Proof.
  intro Hs. destruct (fee_tier_of_spacing _ _ Hs) as (r & Hr & _).
  unfold accrue_fees, dict_lookup.
  destruct ((tick_lower pos <=? row_tick row) && (row_tick row <? tick_upper pos));
    [| eauto].
  cbn [set_ever_in_range fee L_user fees_usd]. rewrite Hr. cbn [bind].
  match goal with
  | |- context [float_gt ?x 0] => destruct (float_gt x 0) eqn:E
  end.
  - apply float_gt_iff in E. rewrite py_div_ok by lra. cbn [bind]. eauto.
  - cbn [bind]. eauto.
Qed.

Lemma manage_position_ok (row : Row) (st : State) (pos : Position) :
  position_ok pos ->
  exists st' pos', manage_position row st pos = Ok (st', pos').
Proof.
  intros [(_ & _ & _ & (s & Hs & _) & _) Hne].
  unfold manage_position.
  destruct (negb (open pos) || negb (String.eqb (pool pos) (row_pool row)));
    [eauto |].
  rewrite py_div_ok by exact Hne. cbn [bind].
  destruct (_ && _); [rewrite close_position_eq; eauto |].
  destruct (_ && _); [rewrite close_position_eq; eauto |].
  destruct (accrue_fees_ok row pos s Hs) as [pos1 ->]. cbn [bind].
  destruct (String.eqb (direction pos1) "down");
    (destruct (_ && _); [rewrite close_position_eq; eauto | eauto]).
Qed.

Lemma manage_positions_ok (row : Row) (ps : list Position) :
  Forall position_ok ps ->
  forall st, exists st' ps', manage_positions row st ps = Ok (st', ps').
Proof.
  induction 1 as [| pos ps Hpos _ IH]; intro st; cbn [manage_positions].
  - eauto.
  - destruct (manage_position_ok row st pos Hpos) as (st1 & pos1 & ->).
    cbn [bind]. destruct (IH st1) as (st2 & ps2 & ->). cbn [bind]. eauto.
Qed.

Lemma try_entry_ok (z_entry pct : R) (row : Row) (p_ref : R) (zopt : option R)
    (st : State) :
  row_ok row -> (-1 < pct)%R ->
  exists st', try_entry z_entry pct row p_ref zopt st = Ok st'.
Proof.
  intros (Hne & f & s & Hf & Hs) Hp. unfold try_entry.
  destruct zopt as [zv |]; [| eauto].
  destruct (_ && _); [| eauto].
  destruct (float_le _ _); [| eauto].
  rewrite Hf. cbn [bind].
  destruct (align_ticks_for_range_eval (row_tick row) f s pct Hs Hp)
    as [Hdown Hup].
  pose proof (tick_spacing_pos _ _ Hs) as Hspos.
  assert (Hrd : 0 < round_down (width_ticks pct s) s).
  { unfold width_ticks. apply round_down_width_pos. exact Hspos. }
  destruct (float_gt (row_usd_per_eth row) p_ref).
  - rewrite Hdown. cbn [plan_range_spec bind String.eqb Ascii.eqb Bool.eqb].
    rewrite py_div_ok by exact Hne. cbn [bind].
    unfold L_from_amounts_single_side.
    rewrite py_div_ok; [cbn [bind]; eauto |].
    pose proof (sqrt_ratio_from_tick_lt
                  (row_tick row / s * s - s - round_down (width_ticks pct s) s)
                  (row_tick row / s * s - s) ltac:(lia)). lra.
  - rewrite Hup. cbn [bind String.eqb Ascii.eqb Bool.eqb].
    unfold L_from_amounts_single_side.
    rewrite py_div_ok; [cbn [bind]; eauto |].
    pose proof (sqrt_ratio_from_tick_lt
                  ((row_tick row + s) / s * s)
                  ((row_tick row + s) / s * s + round_down (width_ticks pct s) s)
                  ltac:(lia)). lra.
Qed.

Lemma position_ok_manage (row : Row) (st st' : State) (pos pos' : Position) :
  position_ok pos ->
  manage_position row st pos = Ok (st', pos') ->
  position_ok pos'.
Proof.
  intros [Hwf Hne] Hm. apply manage_position_inv in Hm.
  assert (Hf : frame pos' = frame pos).
  { destruct Hm as [(_ & Hf & _) | (_ & _ & pos1 & reason & Hf & _ & _ & _ & ->)];
      [exact Hf | rewrite <- Hf; reflexivity]. }
  split; [apply (position_wf_frame pos); [symmetry; exact Hf | exact Hwf] |].
  unfold frame in Hf. inversion Hf. congruence.
Qed.

Lemma manage_positions_keep_ok (row : Row) (ps : list Position) :
  Forall position_ok ps ->
  forall st st' ps',
    manage_positions row st ps = Ok (st', ps') -> Forall position_ok ps'.
Proof.
  induction 1 as [| pos ps Hpos _ IH]; intros st st' ps' H;
    cbn [manage_positions] in H.
  - inversion H. constructor.
  - apply bind_ok_inv in H. destruct H as ([st1 pos1] & H1 & H).
    apply bind_ok_inv in H. destruct H as ([st2 ps2] & H2 & H).
    inversion H. subst. constructor.
    + eapply position_ok_manage; eauto.
    + eapply IH; eauto.
Qed.

Lemma process_row_ok (z_entry : R) (window_sec : Z) (pct : R) (st : State)
    (row : Row) :
  row_ok row -> (-1 < pct)%R ->
  Forall position_ok (open_positions st) ->
  exists st',
    process_row z_entry window_sec pct st row = Ok st'
    /\ Forall position_ok (open_positions st').
Proof.
  intros Hrow Hp Hps. unfold process_row.
  match goal with
  | |- context [if ?c then _ else _] => destruct c
  end; [| eexists; split; [reflexivity | exact Hps]].
  match goal with
  | |- context [zscore ?v ?d] => destruct (zscore_ok v d) as [zopt ->]
  end.
  cbn [bind open_positions].
  match goal with
  | |- context [manage_positions row ?s (open_positions st)] =>
      destruct (manage_positions_ok row _ Hps s) as (st3 & ps & Hm)
  end.
  rewrite Hm. cbn [bind].
  pose proof (manage_positions_keep_ok row _ Hps _ _ _ Hm) as Hps'.
  match goal with
  | |- context [try_entry z_entry pct row ?r zopt ?s] =>
      destruct (try_entry_ok z_entry pct row r zopt s Hrow Hp) as [st' He]
  end.
  exists st'. split; [exact He |].
  apply try_entry_position in He.
  destruct He as [-> | (pos & zv & -> & _ & _ & Hwf & _ & _ & _ & Hprice & _)];
    [exact Hps' |].
  unfold book_open, set_open_positions. cbn [open_positions].
  apply Forall_app. split; [exact Hps' |].
  constructor; [| constructor]. split; [exact Hwf |].
  rewrite Hprice. exact (proj1 Hrow).
Qed.

Lemma run_events_ok (z_entry : R) (window_min : Z) (pct : R) (all_df : list Row) :
  Forall row_ok all_df -> (-1 < pct)%R ->
  exists st, run_events z_entry window_min pct all_df = Ok st.
Proof.
  intros Hrows Hp. unfold run_events.
  assert (H : forall st0, Forall position_ok (open_positions st0) ->
                exists st,
                  for_each (process_row z_entry (window_min * 60) pct)
                    all_df st0 = Ok st).
  { induction Hrows as [| row rows Hrow _ IH]; intros st0 H0; cbn [for_each].
    - eauto.
    - destruct (process_row_ok z_entry (window_min * 60) pct st0 row Hrow Hp H0)
        as (st1 & -> & H1).
      cbn [bind]. apply IH. exact H1. }
  apply H. constructor.
Qed.

Lemma eod_pass_ok (all_df : list Row) (ps : list Position) (st : State) :
  exists st' ps', eod_pass all_df st ps = Ok (st', ps').
Proof.
  revert st. induction ps as [| pos ps IH]; intro st; cbn [eod_pass].
  - eauto.
  - rewrite eod_close_eq.
    destruct (open pos); cbv zeta; cbn [bind];
      match goal with
      | |- context [eod_pass all_df ?s ps] =>
          destruct (IH s) as (st2 & ps2 & ->)
      end; cbn [bind]; eauto.
Qed.

Lemma backtest_lp_ok (all_df : list Row) (z_entry : R) (window_min : Z) (pct : R) :
  Forall row_ok all_df -> (-1 < pct)%R ->
  exists roi payload,
    backtest_lp all_df z_entry window_min pct = Ok (roi, payload).
Proof.
  intros Hrows Hp. unfold backtest_lp.
  destruct (run_events_ok z_entry window_min pct all_df Hrows Hp) as [st ->].
  cbn [bind]. unfold run_eod.
  destruct (eod_pass_ok all_df (open_positions st) st) as (st1 & ps & ->).
  cbn [bind]. rewrite py_div_ok by (unfold CAPITAL_LIMIT_USD; lra).
  cbn [bind]. eauto.
Qed.

Lemma main_ok (all_df : list Row) : Forall row_ok all_df -> is_ok (main all_df).
Proof.
  intro Hrows. unfold main. rewrite grid_search_flat_eq.
  assert (Hall : Forall (fun c => cell_roi all_df c <> None) grid_combos).
  { apply Forall_forall. intros [[W z] r] Hin. unfold cell_roi.
    assert (Hr : (-1 < r)%R).
    { unfold grid_combos in Hin. apply in_flat_map in Hin.
      destruct Hin as (W0 & _ & Hin). apply in_flat_map in Hin.
      destruct Hin as (z0 & _ & Hin). apply in_map_iff in Hin.
      destruct Hin as (r0 & Heq & Hr0). inversion Heq. subst.
      unfold RANGE_PCT_CAND in Hr0. cbn [In] in Hr0.
      destruct Hr0 as [<- | [<- | []]]; lra. }
    destruct (backtest_lp_ok all_df z W r Hrows Hr) as (roi & payload & ->).
    discriminate. }
  destruct (grid_search_flat_total all_df grid_combos Hall None)
    as (best & -> & Hne).
  cbn [bind]. destruct best as [[[b t] p] |]; [exact I |].
  exfalso. apply Hne; [discriminate | reflexivity].
Qed.


Lemma scenario_rows_ok : Forall row_ok scenario.
Proof.
  unfold scenario, scenario_warmup, scenario_jump.
  repeat constructor;
    try (cbn [mk_row row_usd_per_eth];
         match goal with
         | |- usd_per_eth_from_tick ?t <> 0%R =>
             pose proof (usd_per_eth_from_tick_pos t); lra
         end);
    (exists 500, 10; split; reflexivity).
Qed.


(* ------------------------------------------------------------------ *)
(** ** What an event does to the positions *)

Lemma accrue_fees_effect (row : Row) (pos pos' : Position) :
  accrue_fees row pos = Ok pos' ->
  (in_range pos row
   /\ ever_in_range pos' = true
   /\ exists fee_rate share,
        dict_get Z.eqb FEE_TIER_MAP (fee pos) = Some fee_rate
        /\ fees_usd pos'
           = (fees_usd pos + row_vol_usd row * fee_rate * share)%R
        /\ pos' = set_fees_usd (set_ever_in_range pos true) (fees_usd pos'))
  \/ (~ in_range pos row /\ pos' = pos).
Proof.
  unfold accrue_fees, in_range, dict_lookup.
  destruct (Z.leb_spec (tick_lower pos) (row_tick row));
    destruct (Z.ltb_spec (row_tick row) (tick_upper pos)); cbn [andb];
    try (intro Hacc; inversion Hacc; subst; right; split; [lia | reflexivity]).
  cbn [set_ever_in_range fee L_user fees_usd].
  destruct (dict_get Z.eqb FEE_TIER_MAP (fee pos)) as [r |]; [| discriminate].
  cbn [bind]. intro Hacc. apply bind_ok_inv in Hacc.
  destruct Hacc as (sh & _ & Hacc).
  inversion Hacc. left. split; [lia |]. split; [reflexivity |].
  exists r, sh. split; [reflexivity |]. split; reflexivity.
Qed.

Lemma event_effect_closed (row : Row) (pos : Position) :
  open pos = true -> pool pos = row_pool row ->
  event_effect row pos (set_open pos false).
Proof.
  intros Ho Hp. unfold event_effect. cbn [set_open open ever_in_range fees_usd].
  repeat split; auto; try congruence.
  intros [Hc | Hc]; congruence.
Qed.

Lemma manage_position_effect (row : Row) (st st' : State) (pos pos' : Position) :
  manage_position row st pos = Ok (st', pos') ->
  event_effect row pos pos'.
Proof.
  intro H. unfold manage_position in H.
  destruct (open pos) eqn:Ho; cbn [negb orb] in H.
  2:{ inversion H. subst. unfold event_effect.
      split; [reflexivity |]. split; [reflexivity |]. split; [auto |].
      split; [auto |]. split; [auto | congruence]. }
  destruct (String.eqb_spec (pool pos) (row_pool row)) as [Hp | Hp];
    cbn [negb] in H.
  2:{ inversion H. subst. unfold event_effect.
      split; [reflexivity |]. split; [reflexivity |]. split; [auto |].
      split; [auto |]. split; [auto | congruence]. }
  apply bind_ok_inv in H. destruct H as (adv & _ & H).
  assert (Hclose : forall reason,
            close_position st pos (row_timestamp row) (row_tick row)
              (row_usd_per_eth row) reason = Ok (st', pos') ->
            event_effect row pos pos').
  { intros reason Hc. rewrite close_position_eq in Hc. inversion Hc.
    apply event_effect_closed; assumption. }
  destruct (_ && _); [exact (Hclose _ H) |].
  destruct (_ && _); [exact (Hclose _ H) |].
  apply bind_ok_inv in H. destruct H as (pos1 & Hacc & H).
  pose proof (accrue_fees_inv _ _ _ Hacc) as [Hf1 Ho1].
  apply accrue_fees_effect in Hacc.
  assert (Hfin : pos' = pos1 \/ pos' = set_open pos1 false).
  { destruct (String.eqb (direction pos1) "down");
      (destruct (_ && _);
       [right; rewrite close_position_eq in H; inversion H; reflexivity
       | left; inversion H; reflexivity]). }
  assert (Hsame : frame pos' = frame pos1
                  /\ ever_in_range pos' = ever_in_range pos1
                  /\ fees_usd pos' = fees_usd pos1
                  /\ (open pos' = true -> open pos1 = true)).
  { destruct Hfin as [-> | ->]; cbn [set_open]; repeat split; auto.
    cbn [open]. discriminate. }
  destruct Hsame as (Hf2 & He2 & Hfe2 & Ho2).
  unfold event_effect.
  split; [congruence |].
  split; [intros [Hc | Hc]; congruence |].
  split; [intros _; exact Ho |].
  rewrite He2, Hfe2.
  destruct Hacc as [(Hin & Hev & _) | (Hout & ->)].
  - split; [intros _; exact Hev |].
    split; [intros _; right; exact Hin | intros _; exact Hin].
  - split; [auto |]. split; [auto | congruence].
Qed.

Lemma manage_positions_effect (row : Row) (ps : list Position) :
  forall st st' ps',
    manage_positions row st ps = Ok (st', ps') ->
    Forall2 (event_effect row) ps ps'.
Proof.
  induction ps as [| pos ps IH]; intros st st' ps' H;
    cbn [manage_positions] in H.
  - inversion H. constructor.
  - apply bind_ok_inv in H. destruct H as ([st1 pos1] & H1 & H).
    apply bind_ok_inv in H. destruct H as ([st2 ps2] & H2 & H).
    inversion H. subst. constructor.
    + eapply manage_position_effect; eauto.
    + eapply IH; eauto.
Qed.

Lemma event_effect_refl (row : Row) (ps : list Position) :
  Forall2 (event_effect row) ps ps.
Proof.
  induction ps as [| p ps IH]; constructor; [| exact IH].
  unfold event_effect.
  split; [reflexivity |]. split; [reflexivity |]. split; [auto |].
  split; [auto |]. split; [auto | congruence].
Qed.

(** X16: one event leaves every Closed position and every position of
    another pool exactly as it was, never reopens a position and never
    clears an in-range flag; it sets the flag, or adds fees, only on a
    position whose range contains the event's tick; and it appends at most
    one position, Open, on the pool of the event. *)
Theorem event_touches_only_its_pool
    (z_entry : R) (window_sec : Z) (pct : R) (st : State) (row : Row)
    (st' : State) :
  process_row z_entry window_sec pct st row = Ok st' ->
  exists ps' new,
    open_positions st' = ps' ++ new
    /\ Forall2 (event_effect row) (open_positions st) ps'
    /\ (List.length new <= 1)%nat
    /\ Forall (fun pos => open pos = true /\ pool pos = row_pool row
                          /\ ever_in_range pos = false /\ fees_usd pos = 0%R)
              new.
Proof.
  intro H. apply process_row_inv in H.
  destruct H as [[_ ->] | (_ & zopt & st3 & ps & _ & Hm & He)].
  - exists (open_positions st), []. cbn [track_row open_positions].
    rewrite app_nil_r. split; [reflexivity |].
    split; [apply event_effect_refl |]. split; [cbn; lia | constructor].
  - apply manage_positions_effect in Hm. apply try_entry_position in He.
    destruct He as [-> | (pos & zv & -> & _ & _ & _ & Hp & _ & _ & _ & _
                          & Hev & Ho & Hfe)].
    + exists ps, []. cbn [set_open_positions open_positions].
      rewrite app_nil_r. split; [reflexivity |].
      split; [exact Hm |]. split; [cbn; lia | constructor].
    + exists ps, [pos]. unfold book_open, set_open_positions.
      cbn [open_positions]. split; [reflexivity |].
      split; [exact Hm |]. split; [cbn; lia |].
      constructor; [auto | constructor].
Qed.

Lemma event_touches_only_its_pool_witness :
  exists ps' new,
    open_positions (scenario_state 1.5 0.001) = ps' ++ new
    /\ Forall2 (event_effect scenario_jump) (open_positions scenario_mid) ps'
    /\ (List.length new <= 1)%nat
    /\ Forall (fun pos => open pos = true /\ pool pos = row_pool scenario_jump
                          /\ ever_in_range pos = false /\ fees_usd pos = 0%R)
              new.
Proof.
  exact (event_touches_only_its_pool 1.5 (10 * 60) 0.001 scenario_mid
           scenario_jump _
           (scenario_jump_run 1.5 10 0.001 window_10 ltac:(lra) ltac:(lra))).
Defined.

(** X17: fee accrual leaves a position untouched when the tick is outside
    its range and raises [KeyError] when the tick is inside and the fee
    tier is unknown; inside the range of a known tier, with non-negative
    volume, liquidity and active liquidity, the fees grow by at most the
    tier's rate times the event's volume, and never shrink. *)
Theorem accrue_fees_bounds (row : Row) (pos : Position) :
  (~ in_range pos row -> accrue_fees row pos = Ok pos)
  /\ (in_range pos row ->
      dict_get Z.eqb FEE_TIER_MAP (fee pos) = None ->
      accrue_fees row pos = Raise KeyError)
  /\ (in_range pos row ->
      forall fee_rate,
        dict_get Z.eqb FEE_TIER_MAP (fee pos) = Some fee_rate ->
        (0 <= fee_rate)%R -> (0 <= row_vol_usd row)%R -> (0 <= L_user pos)%R ->
        match row_liquidity row with Some l => (0 <= l)%R | None => True end ->
        exists pos',
          accrue_fees row pos = Ok pos'
          /\ ever_in_range pos' = true
          /\ (fees_usd pos <= fees_usd pos'
              <= fees_usd pos + row_vol_usd row * fee_rate)%R).
Proof.
  unfold accrue_fees, in_range, dict_lookup.
  destruct (Z.leb_spec (tick_lower pos) (row_tick row));
    destruct (Z.ltb_spec (row_tick row) (tick_upper pos)); cbn [andb];
    try (split; [reflexivity | split; intros; lia]).
  cbn [set_ever_in_range fee L_user fees_usd].
  split; [intro Hc; exfalso; apply Hc; lia |].
  split; [intros _ ->; reflexivity |].
  intros _ r -> Hr Hv HL Hliq. cbn [bind].
  set (La := match row_liquidity row with Some l => l | None => 0%R end).
  assert (HLa : (0 <= La)%R).
  { unfold La. destruct (row_liquidity row); [exact Hliq | lra]. }
  assert (Hshare : exists share,
             (if float_gt (La + L_user pos) 0
              then py_div (L_user pos) (La + L_user pos)
              else Ok 0%R) = Ok share
             /\ (0 <= share <= 1)%R).
  { destruct (float_gt (La + L_user pos) 0) eqn:E.
    - apply float_gt_iff in E. rewrite py_div_ok by lra.
      eexists. split; [reflexivity |].
      assert (Hinv : (0 < / (La + L_user pos))%R)
        by (apply Rinv_0_lt_compat; lra).
      split.
      + apply Rmult_le_pos; lra.
      + apply (Rmult_le_reg_r (La + L_user pos)); [lra |].
        unfold Rdiv. rewrite Rmult_assoc, Rinv_l by lra. lra.
    - exists 0%R. split; [reflexivity | lra]. }
  destruct Hshare as (share & -> & Hs0 & Hs1). cbn [bind].
  eexists. split; [reflexivity |]. cbn [set_fees_usd ever_in_range fees_usd].
  split; [reflexivity |].
  assert (0 <= row_vol_usd row * r)%R by (apply Rmult_le_pos; lra).
  nra.
Qed.

Lemma accrue_fees_bounds_witness :
  accrue_fees scenario_jump (scenario_position 0.001)
  = Ok (scenario_position 0.001).
Proof.
  apply (proj1 (accrue_fees_bounds scenario_jump (scenario_position 0.001))).
  unfold in_range. cbn [scenario_position tick_lower tick_upper scenario_jump
                        mk_row row_tick]. lia.
Defined.

(* ------------------------------------------------------------------ *)
(** ** The deviation windows *)

Lemma evict_split (ts w : Z) (dq : list (Z * R)) :
  exists stale,
    dq = stale ++ evict ts w dq
    /\ Forall (fun e => ts - fst e > w) stale.
Proof.
  induction dq as [| [t0 d] dq (stale & Hs & Hall)]; cbn [evict].
  - exists []. split; [reflexivity | constructor].
  - destruct (Z.gtb_spec (ts - t0) w) as [Hgt | Hle].
    + exists ((t0, d) :: stale). split; [cbn [app]; congruence |].
      constructor; [cbn [fst]; lia | exact Hall].
    + exists []. split; [reflexivity | constructor].
Qed.

Lemma evict_head (ts w : Z) (dq : list (Z * R)) (e : Z * R) (rest : list (Z * R)) :
  evict ts w dq = e :: rest -> ts - fst e <= w.
Proof.
  induction dq as [| [t0 d] dq IH]; cbn [evict]; [discriminate |].
  destruct (Z.gtb_spec (ts - t0) w) as [Hgt | Hle]; [exact IH |].
  intro H. inversion H. cbn [fst]. exact Hle.
Qed.

Lemma strongly_sorted_app_inv (l1 l2 : list Z) :
  StronglySorted Z.le (l1 ++ l2) ->
  StronglySorted Z.le l1 /\ StronglySorted Z.le l2
  /\ Forall (fun x => Forall (fun y => x <= y) l2) l1.
Proof.
  induction l1 as [| x l1 IH]; cbn [app]; intro H.
  - repeat split; [constructor | exact H | constructor].
  - inversion H as [| ? ? Hs Hall]; subst.
    destruct (IH Hs) as (H1 & H2 & H3).
    apply Forall_app in Hall. destruct Hall as [Ha1 Ha2].
    repeat split; [constructor; assumption | exact H2 |].
    constructor; assumption.
Qed.

Lemma strongly_sorted_snoc (l : list Z) (x : Z) :
  StronglySorted Z.le l -> Forall (fun y => y <= x) l ->
  StronglySorted Z.le (l ++ [x]).
Proof.
  induction l as [| y l IH]; cbn [app]; intros Hs Hall.
  - constructor; constructor.
  - inversion Hs; subst. inversion Hall; subst.
    constructor; [apply IH; assumption |].
    apply Forall_app. split; [assumption | constructor; [assumption | constructor]].
Qed.

Lemma evict_sorted_fresh (ts w : Z) (dq : list (Z * R)) :
  stamps_sorted dq ->
  Forall (fun e => fst e <= ts) dq ->
  stamps_sorted (evict ts w dq) /\ Forall (fresh ts w) (evict ts w dq).
Proof.
  intros Hs Hle.
  destruct (evict_split ts w dq) as (stale & Heq & _).
  unfold stamps_sorted in *.
  assert (Hs' : StronglySorted Z.le (map fst (evict ts w dq))).
  { rewrite Heq, map_app in Hs.
    apply strongly_sorted_app_inv in Hs. tauto. }
  split; [exact Hs' |].
  assert (Hle' : Forall (fun e => fst e <= ts) (evict ts w dq)).
  { rewrite Heq in Hle. apply Forall_app in Hle. tauto. }
  destruct (evict ts w dq) as [| e rest] eqn:E; [constructor |].
  pose proof (evict_head ts w dq e rest E) as Hhead.
  cbn [map] in Hs'. inversion Hs' as [| ? ? _ Hall]; subst.
  inversion Hle' as [| ? ? He Hrest]; subst.
  constructor; [split; assumption |].
  rewrite Forall_map in Hall.
  apply Forall_forall. intros x Hx. unfold fresh.
  rewrite Forall_forall in Hall, Hrest.
  specialize (Hall x Hx). specialize (Hrest x Hx). lia.
Qed.

(** X18: eviction drops a prefix of entries, all of them older than the
    window, and stops at the first entry that is not; on a window in
    timestamp order whose entries are not in the future, everything it
    keeps is within the window. *)
Theorem evict_keeps_recent_suffix (ts window_sec : Z) (dq : list (Z * R)) :
  (exists stale,
      dq = stale ++ evict ts window_sec dq
      /\ Forall (fun e => ts - fst e > window_sec) stale)
  /\ (forall e rest,
        evict ts window_sec dq = e :: rest -> ts - fst e <= window_sec)
  /\ (stamps_sorted dq -> Forall (fun e => fst e <= ts) dq ->
      Forall (fresh ts window_sec) (evict ts window_sec dq)).
Proof.
  split; [apply evict_split |]. split; [apply evict_head |].
  intros Hs Hle. apply evict_sorted_fresh; assumption.
Qed.

Lemma evict_keeps_recent_suffix_witness :
  Forall (fresh 700 600)
    (evict 700 600 [(50, 1%R); (100, 2%R); (650, 3%R)]).
Proof.
  apply (proj2 (proj2 (evict_keeps_recent_suffix 700 600
                         [(50, 1%R); (100, 2%R); (650, 3%R)]))).
  - unfold stamps_sorted. cbn [map fst].
    repeat (constructor; try lia).
  - repeat (constructor; try (cbn [fst]; lia)).
Defined.

Lemma rows_sorted_snoc_inv (rows : list Row) (row : Row) :
  rows_sorted (rows ++ [row]) ->
  rows_sorted rows
  /\ forall r, In r rows -> row_timestamp r <= row_timestamp row.
Proof.
  unfold rows_sorted. rewrite map_app. intro H.
  apply strongly_sorted_app_inv in H. destruct H as (H1 & _ & H3).
  split; [exact H1 |]. intros r Hr.
  rewrite Forall_map in H3. rewrite Forall_forall in H3.
  specialize (H3 r Hr). cbn [map] in H3. inversion H3. assumption.
Qed.

Lemma last_row_of_in (pl : string) (rows : list Row) (r : Row) :
  last_row_of pl rows = Some r -> In r rows /\ row_pool r = pl.
Proof.
  unfold last_row_of. intro H. apply find_some in H. destruct H as [Hin Hp].
  split; [apply in_rev; exact Hin | apply String.eqb_eq; exact Hp].
Qed.

Lemma windows_ok_step (z_entry : R) (window_sec : Z) (pct : R)
    (rows : list Row) (row : Row) (st st' : State) :
  (forall r, In r rows -> row_timestamp r <= row_timestamp row) ->
  windows_ok rows window_sec st ->
  process_row z_entry window_sec pct st row = Ok st' ->
  windows_ok (rows ++ [row]) window_sec st'.
Proof.
  intros Hts [Hwarm Hwin] H.
  apply process_row_trackers in H. destruct H as (Hlp & _ & Hd).
  cbn [track_row latest_price] in Hlp, Hd.
  pose proof (dict_set_length (latest_price st) (row_pool row)
                (row_usd_per_eth row)) as Hlen.
  assert (Hold : forall pl dq,
             dict_get String.eqb (diffs_by_pool st) pl = Some dq ->
             row_pool row <> pl ->
             exists r, last_row_of pl (rows ++ [row]) = Some r
                       /\ stamps_sorted dq
                       /\ Forall (fresh (row_timestamp r) window_sec) dq).
  { intros pl dq Hg Hne. destruct (Hwin pl dq Hg) as (r & Hr & Hs & Hf).
    exists r. rewrite last_row_of_snoc.
    destruct (String.eqb_spec (row_pool row) pl); [contradiction | auto]. }
  destruct (Nat.leb_spec MIN_POOLS_FOR_REF
              (List.length (dict_set String.eqb (latest_price st)
                              (row_pool row) (row_usd_per_eth row))))
    as [Hn | Hn].
  - split; [right; rewrite Hlp; exact Hn |].
    intros pl dq Hg. rewrite Hd in Hg.
    cbn [window_row diffs_by_pool track_row] in Hg.
    destruct (String.eqb_spec (row_pool row) pl) as [E | E].
    + subst pl. rewrite dict_get_set_same in Hg. inversion Hg. subst dq.
      exists row. rewrite last_row_of_snoc, String.eqb_refl.
      split; [reflexivity |].
      unfold row_window. cbn [track_row diffs_by_pool].
      set (old := dict_get_default String.eqb (diffs_by_pool st) (row_pool row) []).
      assert (Hold' : stamps_sorted old
                      /\ Forall (fun e => fst e <= row_timestamp row) old).
      { unfold old, dict_get_default.
        destruct (dict_get String.eqb (diffs_by_pool st) (row_pool row))
          as [dq0 |] eqn:G.
        - destruct (Hwin _ _ G) as (r & Hr & Hs & Hf).
          split; [exact Hs |].
          apply last_row_of_in in Hr. destruct Hr as [Hin _].
          specialize (Hts r Hin).
          eapply Forall_impl; [| exact Hf].
          intros e [He _]. lia.
        - split; [constructor | constructor]. }
      destruct Hold' as [Hs Hle].
      apply evict_sorted_fresh.
      * unfold stamps_sorted in *. rewrite map_app. cbn [map fst].
        apply strongly_sorted_snoc; [exact Hs |].
        rewrite Forall_map. exact Hle.
      * apply Forall_app. split; [exact Hle |].
        constructor; [cbn [fst]; lia | constructor].
    + rewrite dict_get_set_other in Hg by exact E. apply Hold; assumption.
  - destruct Hwarm as [Hnil | Hge]; [| lia].
    split; [left; rewrite Hd; exact Hnil |].
    intros pl dq Hg. rewrite Hd, Hnil in Hg. discriminate.
Qed.

Lemma windows_ok_run (z_entry : R) (window_min : Z) (pct : R)
    (all_df : list Row) (st : State) :
  rows_sorted all_df ->
  run_events z_entry window_min pct all_df = Ok st ->
  windows_ok all_df (window_min * 60) st.
Proof.
  unfold run_events. revert st.
  induction all_df as [| row rows IH] using rev_ind; intros st Hs H.
  - inversion H. split; [left; reflexivity | intros pl dq Hg; discriminate].
  - rewrite for_each_app in H. apply bind_ok_inv in H.
    destruct H as (st0 & H0 & H1). cbn [for_each] in H1.
    apply bind_ok_inv in H1. destruct H1 as (st1 & H1 & H2).
    inversion H2. subst st1.
    apply rows_sorted_snoc_inv in Hs. destruct Hs as [Hs Hts].
    eapply windows_ok_step; [exact Hts | exact (IH _ Hs H0) | exact H1].
Qed.

(** X19: on a frame in timestamp order every deviation window a run
    leaves is itself in timestamp order, belongs to a pool that has a row,
    and holds only entries recorded at most [window_min * 60] seconds
    before the last row of that pool. *)
Theorem windows_hold_recent_samples
    (z_entry : R) (window_min : Z) (pct : R) (all_df : list Row) (st : State) :
  rows_sorted all_df ->
  run_events z_entry window_min pct all_df = Ok st ->
  forall pool_ dq,
    dict_get String.eqb (diffs_by_pool st) pool_ = Some dq ->
    exists r,
      last_row_of pool_ all_df = Some r
      /\ stamps_sorted dq
      /\ Forall (fun e => 0 <= row_timestamp r - fst e <= window_min * 60) dq.
Proof.
  intros Hs Hrun pl dq Hg.
  destruct (windows_ok_run _ _ _ _ _ Hs Hrun) as [_ Hwin].
  destruct (Hwin pl dq Hg) as (r & Hr & Hsorted & Hf).
  exists r. split; [exact Hr |]. split; [exact Hsorted |].
  eapply Forall_impl; [| exact Hf]. intros e [H1 H2]. lia.
Qed.

Lemma scenario_sorted : rows_sorted scenario.
Proof.
  unfold rows_sorted, scenario, scenario_warmup, scenario_jump.
  cbn [app map mk_row row_timestamp].
  repeat (constructor; try lia).
Qed.

Lemma windows_hold_recent_samples_witness :
  exists r,
    last_row_of "USDC500" scenario = Some r
    /\ stamps_sorted
         [(2, 0%R); (3, 0%R); (4, 0%R); (5, 0%R); (6, 0%R); (7, 0%R);
          (8, 0%R); (9, 0%R); (10, 0%R); (11, (scenario_price - 1)%R)]
    /\ Forall (fun e => 0 <= row_timestamp r - fst e <= 10 * 60)
         [(2, 0%R); (3, 0%R); (4, 0%R); (5, 0%R); (6, 0%R); (7, 0%R);
          (8, 0%R); (9, 0%R); (10, 0%R); (11, (scenario_price - 1)%R)].
Proof.
  exact (windows_hold_recent_samples 1.5 10 0.001 scenario _ scenario_sorted
           (scenario_run 1.5 10 0.001 window_10 ltac:(lra) ltac:(lra))
           "USDC500" _ eq_refl).
Defined.

(* ------------------------------------------------------------------ *)
(** ** The statistics *)

Lemma insert_sorted_perm (x : R) (l : list R) :
  Permutation (x :: l) (insert_sorted x l).
Proof.
  induction l as [| y l IH]; cbn [insert_sorted]; [reflexivity |].
  destruct (float_le x y); [reflexivity |].
  rewrite perm_swap. apply perm_skip. exact IH.
Qed.

Lemma sort_floats_perm (l : list R) : Permutation l (sort_floats l).
Proof.
  unfold sort_floats. induction l as [| x l IH]; cbn [fold_right]; [reflexivity |].
  rewrite <- insert_sorted_perm. apply perm_skip. exact IH.
Qed.

Lemma insert_sorted_sorted (x : R) (l : list R) :
  StronglySorted Rle l -> StronglySorted Rle (insert_sorted x l).
Proof.
  induction l as [| y l IH]; cbn [insert_sorted]; intro Hs.
  - constructor; constructor.
  - inversion Hs as [| ? ? Hs' Hall]; subst.
    destruct (float_le x y) eqn:E.
    + apply float_le_iff in E. constructor; [exact Hs |].
      constructor; [exact E |].
      eapply Forall_impl; [| exact Hall]. intros z Hz. lra.
    + assert (Hyx : (y <= x)%R).
      { unfold float_le in E. destruct (Rle_dec x y); [discriminate | lra]. }
      constructor; [apply IH; exact Hs' |].
      apply (Permutation_Forall (insert_sorted_perm x l)).
      constructor; assumption.
Qed.

Lemma sort_floats_sorted (l : list R) : StronglySorted Rle (sort_floats l).
Proof.
  unfold sort_floats. induction l as [| x l IH]; cbn [fold_right].
  - constructor.
  - apply insert_sorted_sorted. exact IH.
Qed.

Lemma sorted_perm_unique (l1 l2 : list R) :
  StronglySorted Rle l1 -> StronglySorted Rle l2 -> Permutation l1 l2 ->
  l1 = l2.
Proof.
  revert l2. induction l1 as [| x l1 IH]; intros l2 H1 H2 Hp.
  - apply Permutation_nil in Hp. subst. reflexivity.
  - destruct l2 as [| y l2];
      [apply Permutation_sym, Permutation_nil in Hp; discriminate |].
    inversion H1 as [| ? ? Hs1 Ha1]; subst.
    inversion H2 as [| ? ? Hs2 Ha2]; subst.
    assert (Hxy : x = y).
    { assert (Hx : In x (y :: l2))
        by (apply (Permutation_in _ Hp); left; reflexivity).
      assert (Hy : In y (x :: l1))
        by (apply (Permutation_in _ (Permutation_sym Hp)); left; reflexivity).
      rewrite Forall_forall in Ha1, Ha2.
      destruct Hx as [Hx | Hx]; [auto |].
      destruct Hy as [Hy | Hy]; [auto |].
      specialize (Ha1 _ Hy). specialize (Ha2 _ Hx). lra. }
    subst y. f_equal. apply IH; try assumption.
    apply Permutation_cons_inv in Hp. exact Hp.
Qed.

(** X20: the median depends on the values only, not on their order: the
    reference price is the same whatever the order in which the pools
    first reported; of three values it is the middle one. *)
Theorem np_median_order_independent (l l' : list R) :
  Permutation l l' ->
  np_median l = np_median l'
  /\ forall a b c, l = [a; b; c] -> (a <= b <= c)%R -> np_median l' = b.
Proof.
  intro Hp.
  assert (Hsort : sort_floats l = sort_floats l').
  { apply sorted_perm_unique; try apply sort_floats_sorted.
    rewrite <- (sort_floats_perm l), <- (sort_floats_perm l'). exact Hp. }
  assert (Hmed : np_median l = np_median l').
  { unfold np_median. rewrite Hsort. reflexivity. }
  split; [exact Hmed |].
  intros a b c -> [Hab Hbc]. rewrite <- Hmed.
  unfold np_median, sort_floats. cbn [fold_right insert_sorted].
  rewrite (float_le_true b c) by exact Hbc. cbn [insert_sorted].
  rewrite (float_le_true a b) by exact Hab. reflexivity.
Qed.

Lemma np_median_order_independent_witness :
  np_median [3%R; 1%R; 2%R] = 2%R.
Proof.
  apply (proj2 (np_median_order_independent [1%R; 2%R; 3%R] [3%R; 1%R; 2%R]
                  ltac:(apply Permutation_sym, Permutation_cons_append))
           1%R 2%R 3%R eq_refl).
  lra.
Defined.

Lemma sum_floats_const (c : R) (l : list R) :
  Forall (fun x => x = c) l -> sum_floats l = (INR (List.length l) * c)%R.
Proof.
  unfold sum_floats. induction 1 as [| x l Hx _ IH]; cbn [fold_right List.length].
  - cbn. lra.
  - rewrite IH, Hx, S_INR. lra.
Qed.

Lemma np_std_const (c : R) (l : list R) :
  l <> [] -> Forall (fun x => x = c) l -> np_std_ddof1 l = 0%R.
Proof.
  intros Hne Hall. unfold np_std_ddof1.
  assert (Hmean : np_mean l = c).
  { unfold np_mean. rewrite (sum_floats_const c l Hall).
    assert (0 < INR (List.length l))%R.
    { apply lt_0_INR. destruct l; [congruence | cbn; lia]. }
    field. lra. }
  rewrite Hmean.
  assert (Hz : sum_floats (map (fun x => ((x - c) * (x - c))%R) l) = 0%R).
  { rewrite (sum_floats_const 0); [lra |].
    apply Forall_map. eapply Forall_impl; [| exact Hall].
    intros x ->. lra. }
  rewrite Hz. unfold Rdiv. rewrite Rmult_0_l. apply sqrt_0.
Qed.



(* ------------------------------------------------------------------ *)
(** ** Pool names *)

Lemma is_digit_spec (c : ascii) :
  is_digit c = true ->
  digit_of c = Some (Z.of_N (N_of_ascii c) - 48)
  /\ 48 <= Z.of_N (N_of_ascii c) <= 57.
Proof.
  unfold is_digit, digit_of.
  destruct (Z.leb_spec 48 (Z.of_N (N_of_ascii c)));
    destruct (Z.leb_spec (Z.of_N (N_of_ascii c)) 57); cbn [andb];
    try discriminate.
  intros _. split; [reflexivity | lia].
Qed.

Lemma digit_not_space (c : ascii) : is_digit c = true -> is_space c = false.
Proof.
  intro H. apply is_digit_spec in H. destruct H as [_ H]. unfold is_space.
  destruct (Z.leb_spec 9 (Z.of_N (N_of_ascii c)));
    destruct (Z.leb_spec (Z.of_N (N_of_ascii c)) 13);
    destruct (Z.leb_spec 28 (Z.of_N (N_of_ascii c)));
    destruct (Z.leb_spec (Z.of_N (N_of_ascii c)) 32);
    cbn [andb orb]; try reflexivity; lia.
Qed.

Lemma lstrip_digits (s : string) : all_digits s = true -> lstrip s = s.
Proof.
  destruct s as [| c r]; cbn [all_digits lstrip]; [reflexivity |].
  intro H. apply andb_prop in H. destruct H as [Hc _].
  rewrite (digit_not_space c Hc). reflexivity.
Qed.

Lemma rstrip_digits (s : string) : all_digits s = true -> rstrip s = s.
Proof.
  induction s as [| c r IH]; cbn [all_digits rstrip]; [reflexivity |].
  intro H. apply andb_prop in H. destruct H as [Hc Hr].
  rewrite (IH Hr). destruct r; [| reflexivity].
  rewrite (digit_not_space c Hc). reflexivity.
Qed.

Lemma parse_digits_digits (s : string) :
  all_digits s = true ->
  forall acc b, (s <> EmptyString \/ b = true) ->
    parse_digits s acc b = Some (digits_value_from acc s).
Proof.
  induction s as [| c r IH]; cbn [all_digits parse_digits digits_value_from];
    intros H acc b Hne.
  - destruct Hne as [Hne | ->]; [congruence | reflexivity].
  - apply andb_prop in H. destruct H as [Hc Hr].
    destruct (is_digit_spec c Hc) as [-> _].
    apply IH; [exact Hr | right; reflexivity].
Qed.

Lemma py_int_digits (s : string) :
  s <> EmptyString -> all_digits s = true ->
  py_int s = Ok (digits_value s).
Proof.
  intros Hne H. unfold py_int. rewrite (lstrip_digits s H), (rstrip_digits s H).
  assert (Hp : parse_digits s 0 false = Some (digits_value s)).
  { apply parse_digits_digits; [exact H | left; exact Hne]. }
  destruct s as [| c r]; [congruence |].
  cbn [all_digits] in H. apply andb_prop in H. destruct H as [Hc _].
  destruct (is_digit_spec c Hc) as [_ Hrange].
  assert (Hsign : c <> "+"%char /\ c <> "-"%char).
  { split; intros ->; cbn in Hrange; lia. }
  destruct Hsign as [Hplus Hminus].
  destruct c as [[] [] [] [] [] [] [] []];
    try rewrite Hp; try reflexivity; congruence.
Qed.

Lemma prefix_digit_false (o c : ascii) (old' r : string) :
  is_digit c = true -> is_digit o = false ->
  String.prefix (String o old') (String c r) = false.
Proof.
  intros Hc Ho. cbn [String.prefix].
  destruct (ascii_dec o c) as [-> | _]; [congruence | reflexivity].
Qed.

Lemma str_replace_digits (o : ascii) (old' new s : string) :
  is_digit o = false -> all_digits s = true ->
  str_replace_aux (String o old') new 0 s = s.
Proof.
  intros Ho. induction s as [| c r IH]; cbn [all_digits str_replace_aux];
    [reflexivity |].
  intro H. apply andb_prop in H. destruct H as [Hc Hr].
  rewrite (prefix_digit_false o c old' r Hc Ho), (IH Hr). reflexivity.
Qed.

Lemma prefix_empty (s : string) : String.prefix EmptyString s = true.
Proof. destruct s; reflexivity. Qed.



(* ------------------------------------------------------------------ *)
(** ** Loading the frame *)

Lemma stable_sym_known (pool_ : string) :
  exists dec,
    dict_get String.eqb DEC0_MAP (stable_sym pool_) = Some dec
    /\ (dec = 6 \/ dec = 18).
Proof.
  unfold stable_sym.
  destruct (String.prefix "USDC" pool_);
    [| destruct (String.prefix "USDT" pool_)];
    eexists; (split; [reflexivity | auto]).
Qed.

Lemma vol_of_eq (raw : RawRow) :
  exists dec,
    dict_get String.eqb DEC0_MAP (stable_sym (raw_pool raw)) = Some dec
    /\ (0 < IZR (10 ^ dec))%R
    /\ vol_usd raw
       = Ok (Rabs (match raw_amount0 raw with Some a => a | None => 0%R end)
             / IZR (10 ^ dec))%R.
Proof.
  destruct (stable_sym_known (raw_pool raw)) as (dec & Hd & Hdec).
  exists dec. split; [exact Hd |].
  assert (Hpos : (0 < IZR (10 ^ dec))%R).
  { apply IZR_lt. destruct Hdec as [-> | ->]; reflexivity. }
  split; [exact Hpos |].
  unfold vol_usd, dict_lookup. rewrite Hd. cbn [bind].
  apply py_div_ok. lra.
Qed.

Lemma vol_usd_ok (raw : RawRow) :
  vol_usd raw = Ok (vol_of raw) /\ (0 <= vol_of raw)%R.
Proof.
  destruct (vol_of_eq raw) as (dec & _ & Hpos & Hv).
  unfold vol_of. rewrite Hv. split; [reflexivity |].
  apply Rmult_le_pos; [apply Rabs_pos | left; apply Rinv_0_lt_compat; exact Hpos].
Qed.

(** X23: the USD volume of a row never raises, whatever the pool name:
    the stable symbol is always a key of the decimals table; the volume is
    non-negative, zero for a missing amount, and for a USDC pool it is the
    absolute amount scaled by 10^6. *)
Theorem vol_usd_total (raw : RawRow) :
  exists v,
    vol_usd raw = Ok v /\ (0 <= v)%R
    /\ (raw_amount0 raw = None -> v = 0%R)
    /\ (forall a, raw_amount0 raw = Some a ->
        String.prefix "USDC" (raw_pool raw) = true ->
        v = (Rabs a / 1000000)%R).
Proof.
  destruct (vol_usd_ok raw) as [Hv Hpos]. exists (vol_of raw).
  split; [exact Hv |]. split; [exact Hpos |].
  destruct (vol_of_eq raw) as (dec & Hd & _ & Heq).
  unfold vol_of. rewrite Heq. split.
  - intros ->. rewrite Rabs_R0. unfold Rdiv. apply Rmult_0_l.
  - intros a -> Hp. unfold stable_sym in Hd. rewrite Hp in Hd.
    inversion Hd. subst dec. reflexivity.
Qed.

Lemma vol_usd_total_witness :
  exists v,
    vol_usd {| raw_timestamp := 0; raw_tick := 0; raw_pool := "USDC500";
               raw_liquidity := None; raw_amount0 := Some (-2500000)%R |}
    = Ok v /\ v = (Rabs (-2500000) / 1000000)%R.
Proof.
  destruct (vol_usd_total
              {| raw_timestamp := 0; raw_tick := 0; raw_pool := "USDC500";
                 raw_liquidity := None; raw_amount0 := Some (-2500000)%R |})
    as (v & Hv & _ & _ & Hu).
  exists v. split; [exact Hv |]. apply Hu; reflexivity.
Defined.

Lemma derive_rows_ok (raws : list RawRow) :
  derive_rows raws = Ok (map row_of raws).
Proof.
  induction raws as [| raw rest IH]; cbn [derive_rows map]; [reflexivity |].
  unfold derive_row. rewrite (proj1 (vol_usd_ok raw)). cbn [bind].
  rewrite IH. reflexivity.
Qed.

Lemma insert_by_timestamp_perm (x : Row) (l : list Row) :
  Permutation (x :: l) (insert_by_timestamp x l).
Proof.
  induction l as [| y l IH]; cbn [insert_by_timestamp]; [reflexivity |].
  destruct (row_timestamp x <=? row_timestamp y); [reflexivity |].
  rewrite perm_swap. apply perm_skip. exact IH.
Qed.

Lemma sort_by_timestamp_perm (l : list Row) :
  Permutation l (sort_by_timestamp l).
Proof.
  unfold sort_by_timestamp.
  induction l as [| x l IH]; cbn [fold_right]; [reflexivity |].
  rewrite <- insert_by_timestamp_perm. apply perm_skip. exact IH.
Qed.

Lemma insert_by_timestamp_sorted (x : Row) (l : list Row) :
  rows_sorted l -> rows_sorted (insert_by_timestamp x l).
Proof.
  unfold rows_sorted.
  induction l as [| y l IH]; cbn [insert_by_timestamp map]; intro Hs.
  - constructor; constructor.
  - inversion Hs as [| ? ? Hs' Hall]; subst.
    destruct (Z.leb_spec (row_timestamp x) (row_timestamp y)) as [Hle | Hgt];
      cbn [map].
    + constructor; [exact Hs |]. constructor; [exact Hle |].
      eapply Forall_impl; [| exact Hall]. intros z Hz. lia.
    + constructor; [apply IH; exact Hs' |].
      rewrite Forall_map.
      apply (Permutation_Forall (insert_by_timestamp_perm x l)).
      rewrite Forall_map in Hall. constructor; [lia | exact Hall].
Qed.

Lemma sort_by_timestamp_sorted (l : list Row) : rows_sorted (sort_by_timestamp l).
Proof.
  unfold sort_by_timestamp. induction l as [| x l IH]; cbn [fold_right].
  - constructor.
  - apply insert_by_timestamp_sorted. exact IH.
Qed.

Lemma insert_by_timestamp_stable (t : Z) (x : Row) (l : list Row) :
  filter (fun r => row_timestamp r =? t) (insert_by_timestamp x l)
  = filter (fun r => row_timestamp r =? t) (x :: l).
Proof.
  induction l as [| y l IH]; cbn [insert_by_timestamp]; [reflexivity |].
  destruct (Z.leb_spec (row_timestamp x) (row_timestamp y)) as [Hle | Hgt];
    [reflexivity |].
  cbn [filter] in *. rewrite IH.
  destruct (Z.eqb_spec (row_timestamp x) t);
    destruct (Z.eqb_spec (row_timestamp y) t); try reflexivity; lia.
Qed.

Lemma sort_by_timestamp_stable (t : Z) (l : list Row) :
  filter (fun r => row_timestamp r =? t) (sort_by_timestamp l)
  = filter (fun r => row_timestamp r =? t) l.
Proof.
  unfold sort_by_timestamp. induction l as [| x l IH]; cbn [fold_right];
    [reflexivity |].
  rewrite insert_by_timestamp_stable. cbn [filter]. rewrite IH. reflexivity.
Qed.

Lemma fold_max_spec (l : list RawRow) (m0 : Z) :
  let m := fold_left (fun m x => Z.max m (raw_timestamp x)) l m0 in
  m0 <= m
  /\ Forall (fun r => raw_timestamp r <= m) l
  /\ (m = m0 \/ exists r, In r l /\ raw_timestamp r = m).
Proof.
  revert m0. induction l as [| x l IH]; intro m0; cbn [fold_left].
  - split; [lia |]. split; [constructor | left; reflexivity].
  - destruct (IH (Z.max m0 (raw_timestamp x))) as (H1 & H2 & H3).
    split; [lia |]. split.
    + constructor; [lia | exact H2].
    + destruct H3 as [H3 | (r & Hr & Hm)].
      * destruct (Z.max_spec m0 (raw_timestamp x)) as [[_ Hmax] | [_ Hmax]].
        -- right. exists x. split; [left; reflexivity | lia].
        -- left. lia.
      * right. exists r. split; [right; exact Hr | exact Hm].
Qed.

Lemma max_timestamp_spec (raw : list RawRow) (m : Z) :
  max_timestamp raw = Some m ->
  (exists r, In r raw /\ raw_timestamp r = m)
  /\ Forall (fun r => raw_timestamp r <= m) raw.
Proof.
  destruct raw as [| r rest]; cbn [max_timestamp]; [discriminate |].
  intro H. inversion H as [Hm]. clear H.
  destruct (fold_max_spec rest (raw_timestamp r)) as (H1 & H2 & H3).
  split.
  - destruct H3 as [H3 | (r0 & Hr0 & Hm0)].
    + exists r. split; [left; reflexivity | lia].
    + exists r0. split; [right; exact Hr0 | exact Hm0].
  - constructor; [exact H1 | exact H2].
Qed.



(* ------------------------------------------------------------------ *)
(** ** Which way a position gains *)

Lemma usd_per_eth_sqrt_ratio (t : Z) :
  usd_per_eth_from_tick t
  = (/ (sqrt_ratio_from_tick t * sqrt_ratio_from_tick t))%R.
Proof.
  pose proof (sqrt_ratio_from_tick_pos t) as Hq.
  assert (H : (sqrt_ratio_from_tick t * sqrt_ratio_from_tick t
               * usd_per_eth_from_tick t = 1)%R).
  { unfold usd_per_eth_from_tick, sqrt_ratio_from_tick, Rpower, LOG_1_0001.
    rewrite <- !exp_plus, <- exp_0. f_equal.
    replace 2.0%R with 2%R by lra. field. }
  apply (Rmult_eq_reg_l (sqrt_ratio_from_tick t * sqrt_ratio_from_tick t));
    [| nra].
  rewrite H. field. lra.
Qed.

(** Value of token1-only liquidity sized for [n] at the price of [e],
    seen from the square-root ratios [a < b] of the range. *)
Lemma down_value_below (n a b e : R) :
  (0 < n)%R -> (0 < a < b)%R -> (b < e)%R ->
  (n < n / (/ (e * e)) / (b - a) * (b - a) / (a * b))%R.
Proof.
  intros Hn [Ha Hab] Hbe.
  replace (n / (/ (e * e)) / (b - a) * (b - a) / (a * b))%R
    with (n * ((e * e) / (a * b)))%R by (field; nra).
  assert (H1 : (1 < (e * e) / (a * b))%R).
  { apply (Rmult_lt_reg_r (a * b)); [nra |].
    replace ((e * e) / (a * b) * (a * b))%R with (e * e)%R by (field; nra).
    nra. }
  nra.
Qed.

Lemma down_value_inside (n a b e s : R) :
  (0 < n)%R -> (0 < a)%R -> (a < s < b)%R -> (b < e)%R ->
  (n < n / (/ (e * e)) / (b - a) * (b - s) / (s * b)
       + n / (/ (e * e)) / (b - a) * (s - a) * / (s * s))%R.
Proof.
  intros Hn Ha [Has Hsb] Hbe.
  replace (n / (/ (e * e)) / (b - a) * (b - s) / (s * b)
           + n / (/ (e * e)) / (b - a) * (s - a) * / (s * s))%R
    with (n * ((e * e) * (2 * s * b - s * s - a * b)
               / ((b - a) * (s * s) * b)))%R by (field; nra).
  assert (Hden : (0 < (b - a) * (s * s) * b)%R).
  { apply Rmult_lt_0_compat; [apply Rmult_lt_0_compat |]; nra. }
  assert (Hnum : ((b - a) * (s * s) * b
                  < (e * e) * (2 * s * b - s * s - a * b))%R).
  { assert (Hk : ((b - a) * (s * s) < b * (2 * s * b - s * s - a * b))%R).
    { assert (0 < (b - s) * (b * (s - a) + s * (b - a)))%R
        by (apply Rmult_lt_0_compat; nra).
      nra. }
    assert (Hb2 : (b * b < e * e)%R) by nra.
    assert (Hp : (0 < 2 * s * b - s * s - a * b)%R).
    { assert (0 < (b - a) * (s * s))%R by (apply Rmult_lt_0_compat; nra).
      nra. }
    apply Rlt_trans with (b * b * (2 * s * b - s * s - a * b))%R; [nra |].
    apply Rmult_lt_compat_r; assumption. }
  assert (H1 : (1 < (e * e) * (2 * s * b - s * s - a * b)
                    / ((b - a) * (s * s) * b))%R).
  { apply (Rmult_lt_reg_r ((b - a) * (s * s) * b)); [exact Hden |].
    replace ((e * e) * (2 * s * b - s * s - a * b)
             / ((b - a) * (s * s) * b) * ((b - a) * (s * s) * b))%R
      with ((e * e) * (2 * s * b - s * s - a * b))%R by (field; nra).
    lra. }
  nra.
Qed.

Lemma up_value_inside (n a b s : R) :
  (0 < n)%R -> (0 < a)%R -> (a < s < b)%R ->
  (n * (a * b) / (b - a) * (b - s) / (s * b)
   + n * (a * b) / (b - a) * (s - a) * / (s * s) < n)%R.
Proof.
  intros Hn Ha [Has Hsb].
  replace (n * (a * b) / (b - a) * (b - s) / (s * b)
           + n * (a * b) / (b - a) * (s - a) * / (s * s))%R
    with (n * (a * (2 * s * b - s * s - a * b) / ((b - a) * (s * s))))%R
    by (field; nra).
  assert (Hden : (0 < (b - a) * (s * s))%R)
    by (apply Rmult_lt_0_compat; nra).
  assert (Hnum : (a * (2 * s * b - s * s - a * b) < (b - a) * (s * s))%R).
  { assert (0 < b * ((s - a) * (s - a)))%R
      by (apply Rmult_lt_0_compat; nra).
    nra. }
  assert (H1 : (a * (2 * s * b - s * s - a * b) / ((b - a) * (s * s)) < 1)%R).
  { apply (Rmult_lt_reg_r ((b - a) * (s * s))); [exact Hden |].
    replace (a * (2 * s * b - s * s - a * b) / ((b - a) * (s * s))
             * ((b - a) * (s * s)))%R
      with (a * (2 * s * b - s * s - a * b))%R by (field; nra).
    lra. }
  nra.
Qed.

Lemma up_value_above (n a b s : R) :
  (0 < n)%R -> (0 < a < b)%R -> (b <= s)%R ->
  (n * (a * b) / (b - a) * (b - a) * / (s * s) < n)%R.
Proof.
  intros Hn [Ha Hab] Hbs.
  replace (n * (a * b) / (b - a) * (b - a) * / (s * s))%R
    with (n * ((a * b) / (s * s)))%R by (field; nra).
  assert (H1 : ((a * b) / (s * s) < 1)%R).
  { apply (Rmult_lt_reg_r (s * s)); [nra |].
    replace ((a * b) / (s * s) * (s * s))%R with (a * b)%R by (field; nra).
    nra. }
  nra.
Qed.

Lemma down_value_above (n a b e s : R) :
  (0 < n)%R -> (a < b)%R -> (0 < e)%R -> (0 < s)%R ->
  ((s < e -> n < n / (/ (e * e)) / (b - a) * (b - a) * / (s * s))
   /\ (e < s -> n / (/ (e * e)) / (b - a) * (b - a) * / (s * s) < n))%R.
Proof.
  intros Hn Hab He Hs.
  replace (n / (/ (e * e)) / (b - a) * (b - a) * / (s * s))%R
    with (n * ((e * e) / (s * s)))%R by (field; nra).
  split; intro Hlt.
  - assert (H1 : (1 < (e * e) / (s * s))%R).
    { apply (Rmult_lt_reg_r (s * s)); [nra |].
      replace ((e * e) / (s * s) * (s * s))%R with (e * e)%R by (field; nra).
      nra. }
    nra.
  - assert (H1 : ((e * e) / (s * s) < 1)%R).
    { apply (Rmult_lt_reg_r (s * s)); [nra |].
      replace ((e * e) / (s * s) * (s * s))%R with (e * e)%R by (field; nra).
      nra. }
    nra.
Qed.

Lemma pnl_sign_down (pos : Position) (tick_now : Z) :
  position_wf pos -> direction pos = "down" ->
  entry_price pos = usd_per_eth_from_tick (entry_tick pos) ->
  (tick_now < entry_tick pos ->
   (fees_usd pos < pnl_at pos tick_now (usd_per_eth_from_tick tick_now))%R)
  /\ (entry_tick pos < tick_now ->
      (pnl_at pos tick_now (usd_per_eth_from_tick tick_now) < fees_usd pos)%R).
Proof.
  intros (_ & _ & Hn & (sp & Hsp & _ & _ & Hlu & Hside) & Hsz) Hd He.
  pose proof (tick_spacing_pos _ _ Hsp) as Hpos.
  rewrite Hd in Hside. cbn [String.eqb Ascii.eqb Bool.eqb] in Hside.
  assert (Hlt : tick_lower pos < tick_upper pos) by lia.
  assert (Hue : tick_upper pos < entry_tick pos) by lia.
  pose proof (sqrt_ratio_from_tick_pos (tick_lower pos)) as Hsa.
  pose proof (sqrt_ratio_from_tick_pos (tick_upper pos)) as Hsb.
  pose proof (sqrt_ratio_from_tick_pos (entry_tick pos)) as Hse.
  pose proof (sqrt_ratio_from_tick_pos tick_now) as Hs.
  pose proof (sqrt_ratio_from_tick_lt _ _ Hlt) as Hab.
  pose proof (sqrt_ratio_from_tick_lt _ _ Hue) as Hbe.
  unfold sized, L_from_amounts_single_side in Hsz. rewrite Hd in Hsz.
  cbn [String.eqb Ascii.eqb Bool.eqb] in Hsz.
  destruct Hsz as [_ HL]. rewrite py_div_ok in HL by lra.
  inversion HL as [HLu]. clear HL.
  rewrite He, usd_per_eth_sqrt_ratio in HLu.
  unfold pnl_at, position_pnl, amounts_at_price.
  rewrite Hn, (usd_per_eth_sqrt_ratio tick_now), <- HLu.
  unfold POSITION_SIZE_USD.
  assert (Hn0 : (0 < 1000)%R) by lra.
  split; intro Hcmp.
  - destruct (Z.leb_spec tick_now (tick_lower pos)) as [Hle | Hgt].
    + rewrite py_div_ok by nra. cbn [bind].
      pose proof (down_value_below 1000 _ _ _ Hn0 (conj Hsa Hab) Hbe). lra.
    + destruct (Z.geb_spec tick_now (tick_upper pos)) as [Hge | Hin].
      * cbn [bind].
        pose proof (sqrt_ratio_from_tick_lt _ _ Hcmp) as Hsl.
        pose proof (proj1 (down_value_above 1000 _ _ _ _ Hn0 Hab Hse Hs) Hsl).
        lra.
      * rewrite py_div_ok by nra. cbn [bind].
        assert (Hl' : tick_lower pos < tick_now) by lia.
        pose proof (sqrt_ratio_from_tick_lt _ _ Hl') as H1.
        pose proof (sqrt_ratio_from_tick_lt _ _ Hin) as H2.
        pose proof (down_value_inside 1000 _ _ _ _ Hn0 Hsa (conj H1 H2) Hbe).
        lra.
  - destruct (Z.leb_spec tick_now (tick_lower pos)) as [Hle | Hgt]; [lia |].
    destruct (Z.geb_spec tick_now (tick_upper pos)) as [Hge | Hin]; [| lia].
    cbn [bind].
    pose proof (sqrt_ratio_from_tick_lt _ _ Hcmp) as Hsl.
    pose proof (proj2 (down_value_above 1000 _ _ _ _ Hn0 Hab Hse Hs) Hsl).
    lra.
Qed.

Lemma pnl_sign_up (pos : Position) (tick_now : Z) :
  position_wf pos -> direction pos = "up" ->
  (forall price_now, tick_now <= tick_lower pos ->
     pnl_at pos tick_now price_now = fees_usd pos)
  /\ (tick_lower pos < tick_now ->
      (pnl_at pos tick_now (usd_per_eth_from_tick tick_now) < fees_usd pos)%R).
Proof.
  intros (_ & _ & Hn & (sp & Hsp & _ & _ & Hlu & _) & Hsz) Hd.
  pose proof (tick_spacing_pos _ _ Hsp) as Hpos.
  assert (Hlt : tick_lower pos < tick_upper pos) by lia.
  pose proof (sqrt_ratio_from_tick_pos (tick_lower pos)) as Hsa.
  pose proof (sqrt_ratio_from_tick_pos (tick_upper pos)) as Hsb.
  pose proof (sqrt_ratio_from_tick_pos tick_now) as Hs.
  pose proof (sqrt_ratio_from_tick_lt _ _ Hlt) as Hab.
  unfold sized, L_from_amounts_single_side in Hsz. rewrite Hd in Hsz.
  cbn [String.eqb Ascii.eqb Bool.eqb] in Hsz.
  rewrite py_div_ok in Hsz by lra. inversion Hsz as [HLu]. clear Hsz.
  unfold pnl_at, position_pnl, amounts_at_price.
  rewrite Hn, <- HLu. unfold POSITION_SIZE_USD.
  assert (Hn0 : (0 < 1000)%R) by lra.
  split.
  - intros price_now Hle.
    destruct (Z.leb_spec tick_now (tick_lower pos)) as [_ | Hgt]; [| lia].
    rewrite py_div_ok by nra. cbn [bind]. field. split; lra.
  - intro Hgt. rewrite (usd_per_eth_sqrt_ratio tick_now).
    destruct (Z.leb_spec tick_now (tick_lower pos)) as [Hle | _]; [lia |].
    destruct (Z.geb_spec tick_now (tick_upper pos)) as [Hge | Hin].
    + cbn [bind].
      assert (Hbs : (sqrt_ratio_from_tick (tick_upper pos)
                     <= sqrt_ratio_from_tick tick_now)%R).
      { destruct (Z.eq_dec (tick_upper pos) tick_now) as [-> | Hne];
          [lra |].
        apply Rlt_le, sqrt_ratio_from_tick_lt. lia. }
      pose proof (up_value_above 1000 _ _ _ Hn0 (conj Hsa Hab) Hbs). lra.
    + rewrite py_div_ok by nra. cbn [bind].
      pose proof (sqrt_ratio_from_tick_lt _ _ Hgt) as H1.
      pose proof (sqrt_ratio_from_tick_lt _ _ Hin) as H2.
      pose proof (up_value_inside 1000 _ _ _ Hn0 Hsa (conj H1 H2)). lra.
Qed.


Lemma usd_per_eth_from_tick_le (a b : Z) :
  a <= b -> (usd_per_eth_from_tick b <= usd_per_eth_from_tick a)%R.
Proof.
  intro H. unfold usd_per_eth_from_tick.
  pose proof LOG_1_0001_pos as HL. apply IZR_le in H.
  destruct (Req_dec (IZR a) (IZR b)) as [E | E]; [rewrite E; lra |].
  apply Rlt_le, exp_increasing. nra.
Qed.

Lemma LOG_1_0001_small : (LOG_1_0001 < 0.0001)%R.
Proof.
  unfold LOG_1_0001. rewrite <- (ln_exp 0.0001).
  apply ln_increasing; [lra |].
  pose proof (exp_ineq1 0.0001 ltac:(lra)). lra.
Qed.

Lemma tick_spacing_le (f s : Z) :
  dict_get Z.eqb TICK_SPACING_MAP f = Some s -> s <= 60.
Proof.
  unfold TICK_SPACING_MAP. cbn [dict_get].
  repeat (destruct (_ =? f); [intro H; inversion H; lia |]).
  discriminate.
Qed.

(** A fall of the price by more than the stop-loss fraction moves the tick
    by more than the widest spacing. *)
Lemma stop_loss_fall_ticks (te tn : Z) :
  (usd_per_eth_from_tick tn < (1 - SL_PCT) * usd_per_eth_from_tick te)%R ->
  te + 60 < tn.
Proof.
  intro H. destruct (Z.lt_ge_cases (te + 60) tn) as [Hlt | Hge]; [exact Hlt |].
  exfalso.
  pose proof (usd_per_eth_from_tick_le tn (te + 60) Hge) as Hle.
  pose proof (usd_per_eth_from_tick_pos te) as Hpe.
  assert (Hs : (usd_per_eth_from_tick (te + 60)
                = usd_per_eth_from_tick te * exp (- (60 * LOG_1_0001)))%R).
  { unfold usd_per_eth_from_tick. rewrite <- exp_plus, plus_IZR.
    f_equal. ring. }
  pose proof (exp_ineq1_le (- (60 * LOG_1_0001))) as He.
  pose proof LOG_1_0001_small as Hl.
  unfold SL_PCT in H.
  assert (H994 : (0.994 <= exp (- (60 * LOG_1_0001)))%R) by lra.
  assert ((0.994 * usd_per_eth_from_tick te
           <= usd_per_eth_from_tick te * exp (- (60 * LOG_1_0001)))%R) by nra.
  lra.
Qed.

Lemma close_position_equity (st st' : State) (pos pos' : Position)
    (ts tk : Z) (p : R) (reason : string) :
  close_position st pos ts tk p reason = Ok (st', pos') ->
  equity st' = (equity st + pnl_at pos tk p)%R
  /\ fees_usd pos' = fees_usd pos.
Proof.
  unfold close_position. rewrite position_pnl_ok. cbn [bind].
  intro H. inversion H. subst. split; reflexivity.
Qed.

Lemma frame_fields (a b : Position) :
  frame a = frame b ->
  direction a = direction b /\ entry_tick a = entry_tick b
  /\ entry_price a = entry_price b /\ tick_lower a = tick_lower b
  /\ tick_upper a = tick_upper b.
Proof. unfold frame. intro H. inversion H. auto. Qed.

Lemma manage_position_close_sign
    (row : Row) (st st' : State) (pos pos' : Position) :
  position_wf pos ->
  open pos = true -> pool pos = row_pool row ->
  entry_price pos = usd_per_eth_from_tick (entry_tick pos) ->
  row_usd_per_eth row = usd_per_eth_from_tick (row_tick row) ->
  manage_position row st pos = Ok (st', pos') ->
  open pos' = false ->
  (direction pos = "down" -> (equity st + fees_usd pos' < equity st')%R)
  /\ (direction pos = "up" -> (equity st' < equity st + fees_usd pos')%R).
Proof.
  intros Hwf Hopen Hpool He Hrow Hm Hclosed.
  pose proof (usd_per_eth_from_tick_pos (entry_tick pos)) as Hpe.
  pose proof (usd_per_eth_from_tick_pos (row_tick row)) as Hpn.
  unfold manage_position in Hm.
  rewrite Hopen, Hpool, String.eqb_refl in Hm. cbn [negb orb] in Hm.
  rewrite py_div_ok in Hm by lra. cbn [bind] in Hm.
  assert (Hside_up :
            direction pos = "up" -> tick_lower pos <= entry_tick pos + 60).
  { intro Hd. destruct Hwf as (_ & _ & _ & (sp & Hsp & _ & _ & _ & Hs) & _).
    rewrite Hd in Hs. cbn [String.eqb Ascii.eqb Bool.eqb] in Hs.
    pose proof (tick_spacing_le _ _ Hsp). lia. }
  assert (Hdir : direction pos = "down" \/ direction pos = "up")
    by (destruct Hwf as (_ & Hdir & _); exact Hdir).
  destruct Hdir as [Hd | Hd]; rewrite Hd in Hm;
    cbn [String.eqb Ascii.eqb Bool.eqb andb] in Hm.
  - (* down *)
    split; [intros _ | intro Hd'; rewrite Hd in Hd'; discriminate Hd'].
    match type of Hm with
    | context [float_gt ?a SL_PCT] => destruct (float_gt a SL_PCT) eqn:Esl
    end.
    + apply float_gt_iff in Esl. unfold SL_PCT in Esl.
      apply close_position_equity in Hm. destruct Hm as [Heq Hf].
      rewrite Heq, Hf, Hrow.
      assert (Hlt : row_tick row < entry_tick pos).
      { destruct (Z.lt_ge_cases (row_tick row) (entry_tick pos)) as [L | G];
          [exact L | exfalso].
        pose proof (usd_per_eth_from_tick_le _ _ G) as Hle.
        rewrite Hrow, He in Esl.
        assert (Hq : ((usd_per_eth_from_tick (row_tick row)
                       - usd_per_eth_from_tick (entry_tick pos))
                      / usd_per_eth_from_tick (entry_tick pos)
                      * usd_per_eth_from_tick (entry_tick pos)
                      = usd_per_eth_from_tick (row_tick row)
                        - usd_per_eth_from_tick (entry_tick pos))%R)
          by (field; lra).
        nra. }
      pose proof (proj1 (pnl_sign_down pos (row_tick row) Hwf Hd He) Hlt).
      lra.
    + apply bind_ok_inv in Hm. destruct Hm as (pos1 & Hacc & Hm).
      apply accrue_fees_inv in Hacc. destruct Hacc as [Hfr Ho1].
      destruct (frame_fields _ _ Hfr) as (Hd1 & Het & Hep & Htl & Htu).
      rewrite Hd1, Hd in Hm. cbn [String.eqb Ascii.eqb Bool.eqb] in Hm.
      destruct (ever_in_range pos1 && (row_tick row <? tick_lower pos1))
        eqn:Epass.
      * apply andb_prop in Epass. destruct Epass as [_ Elt].
        apply Z.ltb_lt in Elt.
        apply close_position_equity in Hm. destruct Hm as [Heq Hf].
        rewrite Heq, Hf, Hrow.
        assert (Hwf1 : position_wf pos1)
          by (apply (position_wf_frame pos); [symmetry; exact Hfr | exact Hwf]).
        assert (Hlt : row_tick row < entry_tick pos1).
        { destruct Hwf1 as (_ & _ & _ & (sp & Hsp & _ & _ & Hlu & Hs) & _).
          rewrite Hd1, Hd in Hs. cbn [String.eqb Ascii.eqb Bool.eqb] in Hs.
          pose proof (tick_spacing_pos _ _ Hsp). lia. }
        assert (He1 : entry_price pos1
                      = usd_per_eth_from_tick (entry_tick pos1))
          by (rewrite Hep, Het; exact He).
        pose proof (proj1 (pnl_sign_down pos1 (row_tick row) Hwf1
                             (eq_trans Hd1 Hd) He1) Hlt).
        lra.
      * inversion Hm. subst. congruence.
  - (* up *)
    split; [intro Hd'; rewrite Hd in Hd'; discriminate Hd' | intros _].
    match type of Hm with
    | context [float_lt ?a (- SL_PCT)] =>
        destruct (float_lt a (- SL_PCT)) eqn:Esl
    end.
    + apply float_lt_iff in Esl.
      apply close_position_equity in Hm. destruct Hm as [Heq Hf].
      rewrite Heq, Hf, Hrow.
      assert (Hgt : tick_lower pos < row_tick row).
      { specialize (Hside_up Hd).
        assert (entry_tick pos + 60 < row_tick row); [| lia].
        apply stop_loss_fall_ticks.
        rewrite Hrow, He in Esl.
        assert (Hq : ((usd_per_eth_from_tick (row_tick row)
                       - usd_per_eth_from_tick (entry_tick pos))
                      / usd_per_eth_from_tick (entry_tick pos)
                      * usd_per_eth_from_tick (entry_tick pos)
                      = usd_per_eth_from_tick (row_tick row)
                        - usd_per_eth_from_tick (entry_tick pos))%R)
          by (field; lra).
        nra. }
      pose proof (proj2 (pnl_sign_up pos (row_tick row) Hwf Hd) Hgt).
      lra.
    + apply bind_ok_inv in Hm. destruct Hm as (pos1 & Hacc & Hm).
      apply accrue_fees_inv in Hacc. destruct Hacc as [Hfr Ho1].
      destruct (frame_fields _ _ Hfr) as (Hd1 & Het & Hep & Htl & Htu).
      rewrite Hd1, Hd in Hm. cbn [String.eqb Ascii.eqb Bool.eqb] in Hm.
      destruct (ever_in_range pos1 && (row_tick row >=? tick_upper pos1))
        eqn:Epass.
      * apply andb_prop in Epass. destruct Epass as [_ Ege].
        apply Z.geb_le in Ege.
        apply close_position_equity in Hm. destruct Hm as [Heq Hf].
        rewrite Heq, Hf, Hrow.
        assert (Hwf1 : position_wf pos1)
          by (apply (position_wf_frame pos); [symmetry; exact Hfr | exact Hwf]).
        assert (Hgt : tick_lower pos1 < row_tick row).
        { destruct Hwf1 as (_ & _ & _ & (sp & Hsp & _ & _ & Hlu & _) & _).
          pose proof (tick_spacing_pos _ _ Hsp). lia. }
        pose proof (proj2 (pnl_sign_up pos1 (row_tick row) Hwf1
                             (eq_trans Hd1 Hd)) Hgt).
        lra.
      * inversion Hm. subst. congruence.
Qed.

(** X26: what the management loop realises.  On a row whose price is the
    price of its tick, closing a well-formed "down" position inside the loop
    (by stop-loss or by passed-range) adds more than its accrued fees to the
    equity, and closing an "up" position adds less than its accrued fees:
    before fees the loop closes "down" positions only at a gain and "up"
    positions only at a loss. *)
Theorem management_close_sign
    (row : Row) (st st' : State) (pos pos' : Position) :
  position_wf pos ->
  open pos = true -> pool pos = row_pool row ->
  entry_price pos = usd_per_eth_from_tick (entry_tick pos) ->
  row_usd_per_eth row = usd_per_eth_from_tick (row_tick row) ->
  manage_position row st pos = Ok (st', pos') ->
  open pos' = false ->
  (direction pos = "down" -> (equity st + fees_usd pos' < equity st')%R)
  /\ (direction pos = "up" -> (equity st' < equity st + fees_usd pos')%R).
Proof. exact (manage_position_close_sign row st st' pos pos'). Qed.

Lemma scenario_position_wf : position_wf (scenario_position 0.001).
Proof.
  pose proof (position_wf_run 1.5 10 0.001 scenario _
                (scenario_run 1.5 10 0.001 window_10 ltac:(lra) ltac:(lra)))
    as H.
  exact (Forall_inv H).
Qed.

Lemma scenario_adverse_closes :
  manage_position scenario_adverse (scenario_state 1.5 0.001)
    (scenario_position 0.001)
  = Ok (book_close (scenario_state 1.5 0.001) (scenario_position 0.001) 12
          (row_usd_per_eth scenario_adverse)
          (pnl_at (scenario_position 0.001) (-1000)
             (row_usd_per_eth scenario_adverse)) "stop_loss",
        set_open (scenario_position 0.001) false).
Proof.
  pose proof scenario_price_lower as Hp.
  unfold manage_position.
  cbn [scenario_position open pool scenario_adverse mk_row row_pool
       String.eqb Ascii.eqb Bool.eqb negb orb direction entry_price andb
       row_timestamp row_tick].
  fold scenario_adverse. rewrite scenario_adverse_price.
  rewrite py_div_ok by lra. cbn [bind].
  replace ((scenario_price * scenario_price - scenario_price) / scenario_price)%R
    with (scenario_price - 1)%R by (field; lra).
  rewrite (proj2 (float_gt_iff _ _)) by (unfold SL_PCT; lra).
  unfold close_position. rewrite position_pnl_ok. cbn [bind]. reflexivity.
Qed.


Lemma management_close_sign_witness :
  (equity (scenario_state 1.5 0.001) + 0
   < equity (book_close (scenario_state 1.5 0.001) (scenario_position 0.001) 12
               (row_usd_per_eth scenario_adverse)
               (pnl_at (scenario_position 0.001) (-1000)
                  (row_usd_per_eth scenario_adverse)) "stop_loss"))%R.
Proof.
  apply (proj1 (management_close_sign scenario_adverse
                  (scenario_state 1.5 0.001) _
                  (scenario_position 0.001) _
                  scenario_position_wf eq_refl eq_refl eq_refl eq_refl
                  scenario_adverse_closes eq_refl)).
  reflexivity.
Defined.

(* ------------------------------------------------------------------ *)
(** ** What the trade log realises *)

Lemma priced_at_entry_frame (a b : Position) :
  frame a = frame b -> priced_at_entry a -> priced_at_entry b.
Proof.
  intros Hf [Hwf He]. split; [exact (position_wf_frame a b Hf Hwf) |].
  destruct (frame_fields _ _ Hf) as (_ & Het & Hep & _).
  rewrite <- Hep, <- Het. exact He.
Qed.

Lemma realised_sign_open_record (pl d : string) (ts : Z) (p : R)
    (tl tu : Z) (z z_entry : R) :
  realised_sign (open_record pl d ts p tl tu z z_entry).
Proof. intros [H | H]; discriminate H. Qed.

Lemma realised_sign_eod (x : Position * Row) : realised_sign (exit_record x).
Proof. intros [H | H]; discriminate H. Qed.

Lemma sign_inv_manage (row : Row) (st st' : State)
    (pre post : list Position) (pos pos' : Position) :
  price_of_tick row ->
  sign_inv (book st) (pre ++ pos :: post) ->
  manage_position row st pos = Ok (st', pos') ->
  sign_inv (book st') (pre ++ pos' :: post).
Proof.
  intros Hrow [Hps Htr] Hm. unfold sign_inv, book in *.
  apply Forall_app in Hps. destruct Hps as [Hpre Hps].
  inversion Hps as [| ? ? Hpos Hpost]; subst.
  pose proof (manage_position_inv _ _ _ _ _ Hm) as Hinv.
  destruct Hinv as [(-> & Hf & _)
                   | (Hopen & Hpool & pos1 & reason & Hf & _ & Hr & Hst & Hp')].
  - split; [| exact Htr].
    apply Forall_app. split; [exact Hpre |]. constructor; [| exact Hpost].
    apply (priced_at_entry_frame pos); [symmetry; exact Hf | exact Hpos].
  - assert (Hcl : open pos' = false) by (rewrite Hp'; reflexivity).
    destruct Hpos as [Hwf He].
    pose proof (manage_position_close_sign row st st' pos pos' Hwf Hopen Hpool
                  He Hrow Hm Hcl) as [Hdown Hup].
    destruct (frame_fields _ _ Hf) as (Hd1 & _).
    rewrite Hst, Hp' in Hdown, Hup.
    cbn [book_close equity set_open fees_usd] in Hdown, Hup.
    split.
    + apply Forall_app. split; [exact Hpre |]. constructor; [| exact Hpost].
      rewrite Hp'.
      apply (priced_at_entry_frame pos);
        [rewrite <- Hf; reflexivity | split; assumption].
    + rewrite Hst. cbn [book_close trades].
      apply Forall_app. split; [exact Htr |]. constructor; [| constructor].
      intros _. unfold record_fees, record_pnl, record_get, close_record.
      cbn [dict_get String.eqb Ascii.eqb Bool.eqb].
      split; intro Hd; inversion Hd as [Hd']; rewrite Hd1 in Hd'.
      * specialize (Hdown Hd'). lra.
      * specialize (Hup Hd'). lra.
Qed.

Lemma sign_inv_entry (z_entry pct : R) (row : Row) (p_ref : R)
    (zopt : option R) (st st' : State) :
  price_of_tick row ->
  sign_inv (book st) (open_positions st) ->
  try_entry z_entry pct row p_ref zopt st = Ok st' ->
  sign_inv (book st') (open_positions st').
Proof.
  intros Hrow [Hps Htr] He. unfold sign_inv, book in *.
  apply try_entry_position in He.
  destruct He as [-> | (pos & zv & -> & _ & _ & Hwf & _ & _ & Htk & Hpr & _)];
    [split; assumption |].
  cbn [book_open open_positions trades]. split.
  - apply Forall_app. split; [exact Hps |]. constructor; [| constructor].
    split; [exact Hwf |]. rewrite Hpr, Htk. exact Hrow.
  - apply Forall_app. split; [exact Htr |].
    constructor; [apply realised_sign_open_record | constructor].
Qed.

Lemma sign_inv_run (z_entry : R) (window_min : Z) (pct : R)
    (all_df : list Row) (st : State) :
  Forall price_of_tick all_df ->
  run_events z_entry window_min pct all_df = Ok st ->
  sign_inv (book st) (open_positions st).
Proof.
  unfold run_events. intro Hrows.
  assert (H : forall st0 st1,
             sign_inv (book st0) (open_positions st0) ->
             for_each (process_row z_entry (window_min * 60) pct) all_df st0
             = Ok st1 ->
             sign_inv (book st1) (open_positions st1)).
  { induction Hrows as [| row rows Hrow _ IH]; intros st0 st1 H0 H;
      cbn [for_each] in H.
    - inversion H. subst. exact H0.
    - apply bind_ok_inv in H. destruct H as (s1 & H1 & H2).
      apply (IH s1 st1); [| exact H2].
      revert H0 H1.
      apply (process_row_invariant sign_inv).
      + intros s pre pos post s' pos'. apply sign_inv_manage. exact Hrow.
      + intros p_ref zopt s s'. apply sign_inv_entry. exact Hrow. }
  apply H. split; constructor.
Qed.


Lemma scenario_price_of_tick : Forall price_of_tick scenario.
Proof.
  unfold scenario, scenario_warmup, scenario_jump.
  repeat constructor.
Qed.


(* ------------------------------------------------------------------ *)
(** ** From the loaded frame to the recommendation *)

Lemma load_events_tail_inv (raw : list RawRow) (days : Z) (rows : list Row) :
  load_events_tail raw days = inr rows ->
  exists max_ts,
    max_timestamp raw = Some max_ts
    /\ rows = sort_by_timestamp
                (map row_of (kept_rows raw (max_ts - days * 24 * 3600))).
Proof.
  unfold load_events_tail.
  destruct (max_timestamp raw) as [max_ts |]; [| discriminate].
  cbv zeta. fold (kept_rows raw (max_ts - days * 24 * 3600)).
  rewrite derive_rows_ok.
  destruct (List.length _ =? 0)%nat; [discriminate |].
  intro H. inversion H. exists max_ts. split; reflexivity.
Qed.


Lemma sample_frame_loads :
  load_events_tail sample_frame 1
  = inr (sort_by_timestamp (map row_of (kept_rows sample_frame 113600))).
Proof.
  unfold load_events_tail.
  change (max_timestamp sample_frame) with (Some 200000).
  cbv beta iota zeta.
  change (200000 - 1 * 24 * 3600) with 113600.
  rewrite derive_rows_ok. reflexivity.
Qed.

